(** * query-k8s-container-image-history: the image-audit pipeline

    A shallow embedding of [internal/docker-image-history/query-cluster.go]
    (and of the flag parsing of [cmd/main.go]).  The Go methods on [*Config]
    become computations in a state monad over the configuration and the
    observable world (files, console, calls made to the Docker daemon).  The
    answers of the external collaborators (AWS, Kubernetes, Docker, the file
    system and the wall clock) are read from an environment record; functions
    of the Go standard library whose exact output does not matter to the
    control flow are fields of a runtime record. *)

From stdpp Require Import gmap strings list fin_maps pretty.
From Stdlib Require Import ZArith Ascii String.

Open Scope string_scope.

(** ** Go strings *)

Module GoStrings.

(** [strings.Contains(s, substr)]: [substr] occurs in [s] at some offset. *)
Fixpoint Contains (s substr : string) : bool :=
  String.prefix substr s ||
  match s with
  | EmptyString => false
  | String _ s' => Contains s' substr
  end.

(** [strings.Split(s, sep)] for a separator of one byte. *)
Fixpoint Split (s : string) (sep : ascii) : list string :=
  match s with
  | EmptyString => [EmptyString]
  | String c s' =>
      if Ascii.eqb c sep then EmptyString :: Split s' sep
      else match Split s' sep with
           | [] => [String c EmptyString]
           | w :: ws => String c w :: ws
           end
  end.

(** Lower-casing of one ASCII letter; every other byte is kept. *)
Definition lowerByte (c : ascii) : ascii :=
  let n := nat_of_ascii c in
  if (65 <=? n)%nat && (n <=? 90)%nat then ascii_of_nat (n + 32) else c.

(** [strings.ToLower] on ASCII text. *)
Fixpoint asciiToLower (s : string) : string :=
  match s with
  | EmptyString => EmptyString
  | String c s' => String (lowerByte c) (asciiToLower s')
  end.

End GoStrings.
Import GoStrings.

(** ** Data model (the structs of the package) *)

(** [podDetails]: the Kubernetes context of one running container. *)
Record podDetails := {
  podName : string;
  containerName : string;
  namespace : string
}.

(** [offendingDockerImage]: the result of checking one image.  The counters
    are Go [int]s; they are bounded by the number of layers times the number
    of keywords and never wrap. *)
Record offendingDockerImage := {
  matchFound : bool;
  imageRef : string;
  matchedKeywords : gmap string nat
}.

(** [Event]: one decoded line of the image-pull progress stream. *)
Record Event := {
  Status : string;
  Error : string;
  Progress : string;
  ProgressDetail_Current : Z;
  ProgressDetail_Total : Z
}.

(** [Config] without its two client handles, whose behaviour is read from the
    environment. *)
Record Config := {
  dockerImageKeyWords : list string;
  dockerImages : gmap string (list podDetails);
  offendingDockerImages : list offendingDockerImage;
  ecrCredentials : gmap string string;
  ecrRegions : list string;
  clusterK8sContextName : string;
  imagesAccountAWSProfileName : string
}.

(** The parts of the Kubernetes pod list that the scan reads. *)
Record Container := {
  Container_Name : string;
  Container_Image : string
}.

Record Pod := {
  Pod_Name : string;
  Pod_Namespace : string;
  Pod_Spec_Containers : list Container
}.

(** The part of a Docker history record that the check reads. *)
Record HistoryResponseItem := {
  History_ID : string;
  CreatedBy : string
}.

(** [types.ImagePullOptions]; only [RegistryAuth] is ever set. *)
Record ImagePullOptions := {
  RegistryAuth : string
}.

(** ** The progress stream of a pull *)

(** A JSON object of the stream: a field that is absent (or [null]) leaves the
    corresponding field of the target [Event] as it was. *)
Record EventFields := {
  jStatus : option string;
  jError : option string;
  jProgress : option string;
  jCurrent : option Z;
  jTotal : option Z
}.

Inductive jsonValue :=
| JNull
| JObject (fields : EventFields).

(** What one call of [d.Decode(&event)] finds next on the stream: a value, text
    that does not decode, or nothing at all while the connection stays open,
    in which case the call does not return.  A stream is a list of these; at
    its end the daemon has closed the connection and every further call
    reports [io.EOF]. *)
Inductive decodeStep :=
| Value (v : jsonValue)
| DecodeFails (msg : string)
| Blocks.

(** ** Errors, panics and outcomes *)

(** One constructor per [fmt.Errorf] of the package; [cause] is the message of
    the wrapped error. *)
Inductive error :=
| ErrLoadingAWSConfig (cause : string)
| ErrGettingECRAuthToken (cause : string)
| ErrDecodingECRAuthToken (cause : string)
| ErrMarshallingECRCreds (cause : string)
| ErrCreatingDockerClient (cause : string)
| ErrLoadingK8sConfigFile (cause : string)
| ErrCreatingK8sClientSet (cause : string)
| ErrOpeningFile (path cause : string)
| ErrWritingResults (path cause : string)
| ErrQueryingPods (cause : string)
| ErrQueryingImageHistory (image cause : string)
| ErrUnsupportedECRRegion (supported : list string)
| ErrPullingImage (image cause : string)
| ErrTimedOut (image : string)
| ErrDecodingPullOutput (cause : string)
| ErrCleaningUpImage (image cause : string).

(** The run-time panics the package can raise. *)
Inductive panic :=
| NilDereference
| IndexOutOfRange.

(** How a call ends: it returns a value, returns an error, panics, or has not
    returned when the fuel of the model is spent: it is still looping, or it
    waits in a read that does not return.  A call that has not returned
    whatever the fuel never returns. *)
Inductive outcome (A : Type) :=
| Ok (a : A)
| Err (e : error)
| Panic (p : panic)
| OutOfFuel.
Arguments Ok {A} a.
Arguments Err {A} e.
Arguments Panic {A} p.
Arguments OutOfFuel {A}.

(** ** The observable world *)

Inductive dockerCall :=
| CallImagePull (image : string) (options : ImagePullOptions)
| CallImageHistory (image : string)
| CallImageRemove (image : string).

(** Lines printed with [fmt.Printf]/[fmt.Println] ([Print...]) and with
    [log.Printf] ([Log...]), with the arguments of the format string. *)
Inductive consoleLine :=
| PrintPulling (count total : nat) (image : string)
| PrintFound (result : offendingDockerImage)
| PrintNothingToOutput
| LogPodsDiscovered (n : nat)
| LogUniqueImageRefs (n : nat)
| LogOffendingWritten (path : string)
| LogNonECRWritten (path : string).

Record World := {
  files : gmap string string;
  console : list consoleLine;
  dockerCalls : list dockerCall
}.

(** ** The environment: what the collaborators answer *)

Record Env := {
  (* AWS SDK *)
  aws_LoadDefaultConfig : string -> string -> option string;
  ecr_GetAuthorizationToken : string -> string -> string + list (option string);
  (* client construction *)
  docker_NewClientWithOpts : option string;
  k8s_buildConfigWithContextFromFlags : string -> option string;
  k8s_NewForConfig : option string;
  (* Kubernetes and Docker APIs *)
  k8s_PodsList : string + list Pod;
  docker_ImagePull : string -> ImagePullOptions -> string + list decodeStep;
  docker_ImageHistory : string -> string + list HistoryResponseItem;
  docker_ImageRemove : string -> option string;
  (* the k-th reading of time.Now() during the pull of an image, in ns *)
  time_Now : string -> nat -> Z;
  (* time.Now().Format("2-Jan-2006-15:04") in the two report writers *)
  stampOffending : string;
  stampNonECR : string;
  (* file system failures *)
  os_OpenFile : string -> option string;
  file_WriteString : string -> string -> option string
}.

(** ** Standard-library functions left abstract *)

Record Runtime := {
  (* strings.ToLower *)
  ToLower : string -> string;
  (* the order in which a range loop visits the image map (unspecified in Go) *)
  rangeImages : gmap string (list podDetails) -> list (string * list podDetails);
  (* fmt's %v of a map[string]int *)
  fmtKeywords : gmap string nat -> string;
  (* base64.StdEncoding *)
  base64_DecodeString : string -> string + string;
  base64_EncodeToString : string -> string;
  (* json.Marshal of a map[string]string *)
  json_Marshal : gmap string string -> string + string
}.

(** ** The state monad of the methods on [*Config] *)

Definition M (A : Type) : Type := Config * World -> (Config * World) * outcome A.

Definition ret {A} (a : A) : M A := fun s => (s, Ok a).

Definition fail {A} (e : error) : M A := fun s => (s, Err e).

Definition bind {A B} (c : M A) (k : A -> M B) : M B :=
  fun s =>
    match c s with
    | (s', Ok a) => k a s'
    | (s', Err e) => (s', Err e)
    | (s', Panic p) => (s', Panic p)
    | (s', OutOfFuel) => (s', OutOfFuel)
    end.

Notation "'do' x <- c ; k" := (bind c (fun x => k))
  (at level 10, x name, c at level 100, k at level 200).
Notation "c ;; k" := (bind c (fun _ => k))
  (at level 100, k at level 200, right associativity).

Definition getConfig : M Config := fun s => (s, Ok (fst s)).

Definition modifyConfig (f : Config -> Config) : M unit :=
  fun s => ((f (fst s), snd s), Ok tt).

Definition modifyWorld (f : World -> World) : M unit :=
  fun s => ((fst s, f (snd s)), Ok tt).

Definition print (l : consoleLine) : M unit :=
  modifyWorld (fun w =>
    {| files := files w; console := (console w ++ [l])%list; dockerCalls := dockerCalls w |}).

Definition recordCall (c : dockerCall) : M unit :=
  modifyWorld (fun w =>
    {| files := files w; console := console w; dockerCalls := (dockerCalls w ++ [c])%list |}).

(** [os.OpenFile(path, O_APPEND|O_CREATE|O_WRONLY, 0644)]: the file is created
    empty when it does not exist and kept when it does. *)
Definition OpenFile (env : Env) (path : string) : M (option string) :=
  match os_OpenFile env path with
  | Some cause => ret (Some cause)
  | None =>
      modifyWorld (fun w =>
        {| files := match files w !! path with
                    | Some _ => files w
                    | None => <[path := EmptyString]> (files w)
                    end;
           console := console w; dockerCalls := dockerCalls w |}) ;;
      ret None
  end.

(** [f.WriteString(data)] on a file opened for appending; the result is the
    error, if any. *)
Definition WriteString (env : Env) (path data : string) : M (option string) :=
  match file_WriteString env path data with
  | Some cause => ret (Some cause)
  | None =>
      modifyWorld (fun w =>
        {| files := <[path := default EmptyString (files w !! path) +:+ data]> (files w);
           console := console w; dockerCalls := dockerCalls w |}) ;;
      ret None
  end.

(** [for _, a := range l { body }] *)
Fixpoint forEach {A} (l : list A) (body : A -> M unit) : M unit :=
  match l with
  | [] => ret tt
  | a :: l' => body a ;; forEach l' body
  end.

(** A range loop that updates a local variable. *)
Fixpoint foldM {A S} (body : S -> A -> M S) (l : list A) (s : S) : M S :=
  match l with
  | [] => ret s
  | a :: l' => do s' <- body s a; foldM body l' s'
  end.

Definition lift {A} (o : outcome A) : M A := fun s => (s, o).

Definition tab : string := String (ascii_of_nat 9) EmptyString.
Definition newline : string := String (ascii_of_nat 10) EmptyString.

Definition setDockerImages (images : gmap string (list podDetails)) (c : Config) : Config :=
  {| dockerImageKeyWords := dockerImageKeyWords c;
     dockerImages := images;
     offendingDockerImages := offendingDockerImages c;
     ecrCredentials := ecrCredentials c;
     ecrRegions := ecrRegions c;
     clusterK8sContextName := clusterK8sContextName c;
     imagesAccountAWSProfileName := imagesAccountAWSProfileName c |}.

Definition setOffendingDockerImages (l : list offendingDockerImage) (c : Config) : Config :=
  {| dockerImageKeyWords := dockerImageKeyWords c;
     dockerImages := dockerImages c;
     offendingDockerImages := l;
     ecrCredentials := ecrCredentials c;
     ecrRegions := ecrRegions c;
     clusterK8sContextName := clusterK8sContextName c;
     imagesAccountAWSProfileName := imagesAccountAWSProfileName c |}.

(** ** NewConfig *)

(** The loop of [NewConfig] over [cfg.ecrRegions], filling the credential map.
    [AuthorizationData[0]], the dereference of its token and
    [credentialsSlice[1]] are unchecked in the source. *)
Fixpoint provisionCredentials (env : Env) (rt : Runtime) (imagesAccountProfile : string)
    (regions : list string) (creds : gmap string string) : outcome (gmap string string) :=
  match regions with
  | [] => Ok creds
  | region :: rest =>
      match aws_LoadDefaultConfig env imagesAccountProfile region with
      | Some cause => Err (ErrLoadingAWSConfig cause)
      | None =>
          match ecr_GetAuthorizationToken env imagesAccountProfile region with
          | inl cause => Err (ErrGettingECRAuthToken cause)
          | inr [] => Panic IndexOutOfRange
          | inr (None :: _) => Panic NilDereference
          | inr (Some token :: _) =>
              match base64_DecodeString rt token with
              | inl cause => Err (ErrDecodingECRAuthToken cause)
              | inr decodedToken =>
                  let credentialsSlice := Split decodedToken ":"%char in
                  match credentialsSlice !! 1%nat with
                  | None => Panic IndexOutOfRange
                  | Some password =>
                      match json_Marshal rt
                              (<["username" := "AWS"]> (<["password" := password]> ∅)) with
                      | inl cause => Err (ErrMarshallingECRCreds cause)
                      | inr jsonBytes =>
                          provisionCredentials env rt imagesAccountProfile rest
                            (<[region := base64_EncodeToString rt jsonBytes]> creds)
                      end
                  end
              end
          end
      end
  end.

Definition NewConfig (env : Env) (rt : Runtime) (keywords : list string)
    (clusterAccountProfile imagesAccountProfile : string) (regions : list string)
    : outcome Config :=
  match provisionCredentials env rt imagesAccountProfile regions ∅ with
  | Ok creds =>
      match docker_NewClientWithOpts env with
      | Some cause => Err (ErrCreatingDockerClient cause)
      | None =>
          match k8s_buildConfigWithContextFromFlags env clusterAccountProfile with
          | Some cause => Err (ErrLoadingK8sConfigFile cause)
          | None =>
              match k8s_NewForConfig env with
              | Some cause => Err (ErrCreatingK8sClientSet cause)
              | None =>
                  Ok {| dockerImageKeyWords := keywords;
                        dockerImages := ∅;
                        offendingDockerImages := [];
                        ecrCredentials := creds;
                        ecrRegions := regions;
                        clusterK8sContextName := clusterAccountProfile;
                        imagesAccountAWSProfileName := imagesAccountProfile |}
              end
          end
      end
  | Err e => Err e
  | Panic p => Panic p
  | OutOfFuel => OutOfFuel
  end.

(** ** queryAllContainerImageRefsInCluster *)

(** [c.dockerImages[container.Image] = append(c.dockerImages[container.Image], pd)] *)
Definition recordContainer (pod : Pod) (images : gmap string (list podDetails))
    (container : Container) : gmap string (list podDetails) :=
  let pd := {| podName := Pod_Name pod;
               containerName := Container_Name container;
               namespace := Pod_Namespace pod |} in
  <[Container_Image container :=
      (default [] (images !! Container_Image container) ++ [pd])%list]> images.

Definition recordPod (images : gmap string (list podDetails)) (pod : Pod)
    : gmap string (list podDetails) :=
  fold_left (recordContainer pod) (Pod_Spec_Containers pod) images.

Definition recordPods (images : gmap string (list podDetails)) (pods : list Pod)
    : gmap string (list podDetails) :=
  fold_left recordPod pods images.

Definition queryAllContainerImageRefsInCluster (env : Env) : M unit :=
  match k8s_PodsList env with
  | inl cause => fail (ErrQueryingPods cause)
  | inr pods =>
      print (LogPodsDiscovered (List.length pods)) ;;
      modifyConfig (fun c => setDockerImages (recordPods (dockerImages c) pods) c) ;;
      do c <- getConfig;
      print (LogUniqueImageRefs (size (dockerImages c)))
  end.

(** ** checkImageHistoryForKeyWords *)

(** The condition of the inner loop. *)
Definition keywordMatches (rt : Runtime) (h : HistoryResponseItem) (keyword : string) : bool :=
  Contains (ToLower rt (CreatedBy h)) (ToLower rt keyword).

(** The assignments made on a match. *)
Definition recordMatch (imageRef' keyword : string) (result : offendingDockerImage)
    : offendingDockerImage :=
  {| matchFound := true;
     imageRef := imageRef';
     matchedKeywords :=
       <[keyword := S (default 0%nat (matchedKeywords result !! keyword))]>
         (matchedKeywords result) |}.

Definition checkKeyword (rt : Runtime) (imageRef' : string) (h : HistoryResponseItem)
    (result : offendingDockerImage) (keyword : string) : M offendingDockerImage :=
  if keywordMatches rt h keyword then
    let result' := recordMatch imageRef' keyword result in
    print (PrintFound result') ;;
    ret result'
  else ret result.

Definition checkLayer (rt : Runtime) (imageRef' : string) (keywords : list string)
    (result : offendingDockerImage) (h : HistoryResponseItem) : M offendingDockerImage :=
  foldM (checkKeyword rt imageRef' h) keywords result.

Definition emptyResult : offendingDockerImage :=
  {| matchFound := false; imageRef := EmptyString; matchedKeywords := ∅ |}.

Definition checkImageHistoryForKeyWords (env : Env) (rt : Runtime) (imageRef' : string)
    : M offendingDockerImage :=
  do c <- getConfig;
  recordCall (CallImageHistory imageRef') ;;
  match docker_ImageHistory env imageRef' with
  | inl cause => fail (ErrQueryingImageHistory imageRef' cause)
  | inr history =>
      foldM (checkLayer rt imageRef' (dockerImageKeyWords c)) history emptyResult
  end.

(** ** pullImage *)

Definition zeroEvent : Event :=
  {| Status := EmptyString; Error := EmptyString; Progress := EmptyString;
     ProgressDetail_Current := 0; ProgressDetail_Total := 0 |}.

Definition storeFields (f : EventFields) (e : Event) : Event :=
  {| Status := default (Status e) (jStatus f);
     Error := default (Error e) (jError f);
     Progress := default (Progress e) (jProgress f);
     ProgressDetail_Current := default (ProgressDetail_Current e) (jCurrent f);
     ProgressDetail_Total := default (ProgressDetail_Total e) (jTotal f) |}.

(** [d.Decode(&event)] with [event] of type [*Event], on a well-formed value:
    [null] resets the pointer to nil; an object is stored into the [Event]
    pointed to, which is allocated first when the pointer is nil. *)
Definition Decode (v : jsonValue) (event : option Event) : option Event :=
  match v with
  | JNull => None
  | JObject f => Some (storeFields f (default zeroEvent event))
  end.

(** The condition under which the loop returns nil. *)
Definition statusIsTerminal (e : Event) : bool :=
  Contains (Status e) "Downloaded newer image" || Contains (Status e) "Image is up to date".

(** [time.Minute * 10], in nanoseconds. *)
Definition tenMinutes : Z := 600000000000.

(** The [for] loop of [pullImage].  [now k] is the k-th reading of the clock,
    [d] what is left of the stream and [event] the pointer that [Decode]
    fills.  At the end of the stream [Decode] reports [io.EOF], which the loop
    lets through, and [event] is inspected as it stands.  The pull was started
    with [context.Background()] and the reads have no deadline of their own:
    where [Decode] blocks the loop stands still, the clock is not read again,
    and no amount of fuel gives a result. *)
Fixpoint pullLoop (fuel : nat) (imageReference : string) (now : nat -> Z) (timeout : Z)
    (k : nat) (d : list decodeStep) (event : option Event) : outcome unit :=
  match fuel with
  | O => OutOfFuel
  | S fuel' =>
      let inspect (event' : option Event) (d' : list decodeStep) : outcome unit :=
        match event' with
        | None => Panic NilDereference
        | Some e =>
            if statusIsTerminal e then Ok tt
            else pullLoop fuel' imageReference now timeout (S k) d' event'
        end in
      if (timeout <? now k)%Z then Err (ErrTimedOut imageReference)
      else
        match d with
        | [] => inspect event []
        | Value v :: d' => inspect (Decode v event) d'
        | DecodeFails cause :: _ => Err (ErrDecodingPullOutput cause)
        | Blocks :: _ => OutOfFuel
        end
  end.

(** [fmt.Sprintf("dkr.ecr.%s.amazonaws.com", region)] *)
Definition ecrHostPattern (region : string) : string :=
  "dkr.ecr." +:+ region +:+ ".amazonaws.com".

Definition zeroPullOptions : ImagePullOptions := {| RegistryAuth := EmptyString |}.

(** One turn of the loop over [c.ecrRegions]: the state is the pair of
    [pullOptions] and [foundRegion]. *)
Definition selectRegion (c : Config) (imageReference : string)
    (acc : ImagePullOptions * bool) (region : string) : ImagePullOptions * bool :=
  if Contains imageReference (ecrHostPattern region)
  then ({| RegistryAuth := default EmptyString (ecrCredentials c !! region) |}, true)
  else acc.

Definition pullImage (fuel : nat) (env : Env) (imageReference : string) : M unit :=
  do c <- getConfig;
  do pullOptions <-
    (if Contains imageReference "amazonaws.com" then
       let '(pullOptions, foundRegion) :=
         fold_left (selectRegion c imageReference) (ecrRegions c) (zeroPullOptions, false) in
       if negb foundRegion then fail (ErrUnsupportedECRRegion (ecrRegions c))
       else ret pullOptions
     else ret zeroPullOptions);
  recordCall (CallImagePull imageReference pullOptions) ;;
  match docker_ImagePull env imageReference pullOptions with
  | inl cause => fail (ErrPullingImage imageReference cause)
  | inr events =>
      let now := time_Now env imageReference in
      lift (pullLoop fuel imageReference now (now 0%nat + tenMinutes)%Z 1 events None)
  end.

(** ** cleanupImage *)

Definition cleanupImage (env : Env) (imageReference : string) : M unit :=
  recordCall (CallImageRemove imageReference) ;;
  match docker_ImageRemove env imageReference with
  | Some cause => fail (ErrCleaningUpImage imageReference cause)
  | None => ret tt
  end.

(** ** The two report writers *)

Definition nonECRImageResultsPath (env : Env) (c : Config) : string :=
  "non-ecr-images-" +:+ clusterK8sContextName c +:+ "-" +:+ stampNonECR env +:+ ".txt".

Definition offendingImageResultsPath (env : Env) (c : Config) : string :=
  "offending-images-" +:+ clusterK8sContextName c +:+ "-" +:+ stampOffending env +:+ ".txt".

Definition formatPod (m : podDetails) : string :=
  "(podName: " +:+ podName m +:+ ", containerName: " +:+ containerName m +:+
  ", namespace: " +:+ namespace m +:+ ") ".

Definition formatMatch (rt : Runtime) (i : offendingDockerImage) (m : podDetails) : string :=
  "(podName: " +:+ podName m +:+ ", containerName: " +:+ containerName m +:+
  ", namespace: " +:+ namespace m +:+ ", matched-keywords: " +:+
  fmtKeywords rt (matchedKeywords i) +:+ ") ".

(** The body shared by both writers for one image: the error of every write
    but the last is overwritten before it is looked at. *)
Definition writeLine (env : Env) (path image : string) (groups : list string) : M unit :=
  WriteString env path (image +:+ tab) ;;
  forEach groups (fun g => WriteString env path g ;; ret tt) ;;
  do err <- WriteString env path newline;
  match err with
  | Some cause => fail (ErrWritingResults path cause)
  | None => ret tt
  end.

Definition outputNonECRImages (env : Env) (rt : Runtime) : M unit :=
  do c <- getConfig;
  let path := nonECRImageResultsPath env c in
  do err <- OpenFile env path;
  match err with
  | Some cause => fail (ErrOpeningFile path cause)
  | None =>
      forEach (rangeImages rt (dockerImages c)) (fun '(image, details) =>
        if negb (Contains image "amazonaws.com")
        then writeLine env path image (map formatPod details)
        else ret tt) ;;
      print (LogNonECRWritten path)
  end.

Definition outputOffendingImages (env : Env) (rt : Runtime) : M unit :=
  do c <- getConfig;
  let path := offendingImageResultsPath env c in
  if (0 <? List.length (offendingDockerImages c))%nat then
    do err <- OpenFile env path;
    match err with
    | Some cause => fail (ErrOpeningFile path cause)
    | None =>
        forEach (offendingDockerImages c) (fun i =>
          let details := default [] (dockerImages c !! imageRef i) in
          writeLine env path (imageRef i) (map (formatMatch rt i) details)) ;;
        print (LogOffendingWritten path)
    end
  else print PrintNothingToOutput.

(** ** ProcessAllImagesHistoryForKeywords *)

(** The body of the loop over the image map. *)
Definition processImage (fuel : nat) (env : Env) (rt : Runtime) (totalUniqueImages : nat)
    (count : nat) (image : string) : M nat :=
  print (PrintPulling count totalUniqueImages image) ;;
  pullImage fuel env image ;;
  do result <- checkImageHistoryForKeyWords env rt image;
  (if matchFound result
   then modifyConfig (fun c =>
          setOffendingDockerImages (offendingDockerImages c ++ [result])%list c)
   else ret tt) ;;
  cleanupImage env image ;;
  ret (S count).

(** The deferred [dockerClient.Close()] only logs and is left out. *)
Definition ProcessAllImagesHistoryForKeywords (fuel : nat) (env : Env) (rt : Runtime) : M unit :=
  queryAllContainerImageRefsInCluster env ;;
  do c <- getConfig;
  let totalUniqueImages := size (dockerImages c) in
  foldM (processImage fuel env rt totalUniqueImages)
        (map fst (rangeImages rt (dockerImages c))) 1%nat ;;
  outputOffendingImages env rt ;;
  outputNonECRImages env rt.

(** ** Region validation and flag parsing *)

Definition AllAWSRegions : list string :=
  ["af-south-1"; "ap-south-1"; "eu-north-1"; "eu-west-3"; "eu-west-2"; "eu-west-1";
   "ap-northeast-3"; "ap-northeast-2"; "ap-northeast-1"; "ca-central-1"; "sa-east-1";
   "ap-southeast-1"; "ap-southeast-2"; "eu-central-1"; "us-east-1"; "us-east-2";
   "us-west-1"; "us-west-2"].

Definition sliceContains (slice : list string) (s : string) : bool :=
  fold_left (fun found e => if String.eqb e s then true else found) slice false.

Fixpoint ValidateAWSRegions (regions : list string) : bool :=
  match regions with
  | [] => true
  | r :: rest => if negb (sliceContains AllAWSRegions r) then false else ValidateAWSRegions rest
  end.

Module Cmd.

Record Flags := {
  clusterK8sContextName : string;
  imagesAccountAWSProfileName : string;
  dockerImageKeyWords : list string;
  ecrRegions : list string
}.

(** The two [log.Fatal] exits of [parseFlags]. *)
Inductive fatal :=
| FatalUsage
| FatalInvalidRegions (regions : list string).

(** [parseFlags], from the values of the four string flags. *)
Definition parseFlags (contextFlag profileFlag dockerImageKeyWordsFlag ecrRegionsFlag : string)
    : fatal + Flags :=
  let keywords :=
    if (0 <? String.length dockerImageKeyWordsFlag)%nat
    then Split dockerImageKeyWordsFlag ","%char else [] in
  if (String.length contextFlag =? 0)%nat || (String.length profileFlag =? 0)%nat
     || (List.length keywords =? 0)%nat
  then inl FatalUsage
  else
    if (0 <? String.length ecrRegionsFlag)%nat then
      let regions := Split ecrRegionsFlag ","%char in
      if negb (ValidateAWSRegions regions) then inl (FatalInvalidRegions regions)
      else inr {| clusterK8sContextName := contextFlag;
                  imagesAccountAWSProfileName := profileFlag;
                  dockerImageKeyWords := keywords;
                  ecrRegions := regions |}
    else inr {| clusterK8sContextName := contextFlag;
                imagesAccountAWSProfileName := profileFlag;
                dockerImageKeyWords := keywords;
                ecrRegions := [] |}.

End Cmd.

(** ** Specification vocabulary *)

(** Number of layers of a history whose command text matches a keyword. *)
Definition matchingLayers (rt : Runtime) (history : list HistoryResponseItem)
    (keyword : string) : nat :=
  List.length (filter (fun h => keywordMatches rt h keyword = true) history).

(** How often a keyword is configured. *)
Definition configured (keywords : list string) (keyword : string) : nat :=
  count_occ String.string_dec keywords keyword.

(** [result.matchedKeywords[keyword]], which is 0 for a missing key. *)
Definition counter (result : offendingDockerImage) (keyword : string) : nat :=
  default 0%nat (matchedKeywords result !! keyword).

(** Some layer matches some keyword. *)
Definition anyMatch (rt : Runtime) (keywords : list string)
    (history : list HistoryResponseItem) : bool :=
  existsb (fun h => existsb (keywordMatches rt h) keywords) history.

(** The effect of one turn of the inner loop on [result]. *)
Definition stepKeyword (rt : Runtime) (imageRef' : string) (h : HistoryResponseItem)
    (result : offendingDockerImage) (keyword : string) : offendingDockerImage :=
  if keywordMatches rt h keyword then recordMatch imageRef' keyword result else result.

Definition stepLayer (rt : Runtime) (imageRef' : string) (keywords : list string)
    (result : offendingDockerImage) (h : HistoryResponseItem) : offendingDockerImage :=
  fold_left (stepKeyword rt imageRef' h) keywords result.

(** ** Matching without regard to case *)

(** Text of ASCII bytes only. *)
Definition isASCII (s : string) : bool :=
  forallb (fun ch => (nat_of_ascii ch <? 128)%nat) (list_ascii_of_string s).

(** The runtime lower-cases ASCII text as [strings.ToLower] does: the letters
    A to Z become a to z and every other byte is kept. *)
Definition lowersASCII (rt : Runtime) : Prop :=
  forall s, isASCII s = true -> ToLower rt s = asciiToLower s.

(** Two bytes that are equal or the two cases of one ASCII letter. *)
Definition sameLetter (a b : ascii) : bool :=
  Ascii.eqb (lowerByte a) (lowerByte b).

(** [text] begins with [keyword], the case of letters not counting. *)
Fixpoint startsWithIgnoringCase (text keyword : string) {struct keyword} : bool :=
  match keyword with
  | EmptyString => true
  | String k keyword' =>
      match text with
      | EmptyString => false
      | String t text' => sameLetter t k && startsWithIgnoringCase text' keyword'
      end
  end.

(** [keyword] occurs in [text] at some offset, the case of letters not
    counting: the case-insensitive substring match of the specification. *)
Fixpoint occursIgnoringCase (text keyword : string) : bool :=
  startsWithIgnoringCase text keyword
  || match text with
     | EmptyString => false
     | String _ text' => occursIgnoringCase text' keyword
     end.

(** Number of layers of a history whose command text mentions a keyword. *)
Definition layersMentioning (history : list HistoryResponseItem) (keyword : string) : nat :=
  List.length (List.filter (fun h => occursIgnoringCase (CreatedBy h) keyword) history).

(** Some layer mentions some keyword. *)
Definition mentionsAny (keywords : list string) (history : list HistoryResponseItem) : bool :=
  existsb (fun h => existsb (occursIgnoringCase (CreatedBy h)) keywords) history.

(** Two states that differ at most in what was printed. *)
Definition onlyPrinted (st st' : Config * World) : Prop :=
  fst st' = fst st /\ files (snd st') = files (snd st) /\
  dockerCalls (snd st') = dockerCalls (snd st).

(** ** A runtime and environments to evaluate the model on *)

(** A runtime for examples: ASCII lower-casing, the map visited in the order
    of [map_to_list]; the formatter and the encoders are simple stand-ins
    (no theorem depends on what they return). *)
Definition sampleRuntime : Runtime :=
  {| ToLower := asciiToLower;
     rangeImages := map_to_list;
     fmtKeywords := fun m =>
       "map[" +:+ String.concat " " (map (fun kv => fst kv +:+ ":" +:+ pretty (snd kv))
                                         (map_to_list m)) +:+ "]";
     base64_DecodeString := fun s => inr s;
     base64_EncodeToString := fun s => s;
     json_Marshal := fun m =>
       inr ("{" +:+ String.concat "," (map (fun kv => fst kv +:+ ":" +:+ snd kv)
                                           (map_to_list m)) +:+ "}") |}.

Definition statusEvent (status : string) : decodeStep :=
  Value (JObject {| jStatus := Some status; jError := None; jProgress := None;
                    jCurrent := None; jTotal := None |}).

Definition layer (command : string) : HistoryResponseItem :=
  {| History_ID := "<missing>"; CreatedBy := command |}.

Definition emptyWorld : World := {| files := ∅; console := []; dockerCalls := [] |}.

(** A cluster of three pods: two share a private image, one runs a public
    image whose history has three layers, each mentioning JDK 14. *)
Definition sampleEnv : Env :=
  {| aws_LoadDefaultConfig := fun _ _ => None;
     ecr_GetAuthorizationToken := fun _ region => inr [Some ("AWS:secret-" +:+ region)];
     docker_NewClientWithOpts := None;
     k8s_buildConfigWithContextFromFlags := fun _ => None;
     k8s_NewForConfig := None;
     k8s_PodsList := inr
       [ {| Pod_Name := "api-1"; Pod_Namespace := "prod";
            Pod_Spec_Containers :=
              [ {| Container_Name := "api";
                   Container_Image := "1.dkr.ecr.eu-west-1.amazonaws.com/api:1" |} ] |};
         {| Pod_Name := "web-1"; Pod_Namespace := "prod";
            Pod_Spec_Containers :=
              [ {| Container_Name := "web"; Container_Image := "tomcat:9" |} ] |};
         {| Pod_Name := "api-2"; Pod_Namespace := "prod";
            Pod_Spec_Containers :=
              [ {| Container_Name := "api";
                   Container_Image := "1.dkr.ecr.eu-west-1.amazonaws.com/api:1" |} ] |} ];
     docker_ImagePull := fun image _ =>
       inr [statusEvent "Pulling from library"; statusEvent ("Status: Image is up to date for " +:+ image)];
     docker_ImageHistory := fun image =>
       if String.eqb image "tomcat:9"
       then inr [layer "/bin/sh -c apt-get install OpenJDK-14-jre";
                 layer "/bin/sh -c #(nop) ENV JAVA_HOME=/opt/jdk-14";
                 layer "/bin/sh -c curl -O https://example.org/JDK-14.tar.gz"]
       else inr [layer "/bin/sh -c #(nop) ADD file:abc in /"];
     docker_ImageRemove := fun _ => None;
     time_Now := fun _ k => Z.of_nat k;
     stampOffending := "31-Oct-2026-10:00";
     stampNonECR := "31-Oct-2026-10:01";
     os_OpenFile := fun _ => None;
     file_WriteString := fun _ _ => None |}.

Definition sampleConfig : Config :=
  {| dockerImageKeyWords := ["jdk-14"; "openjdk8"];
     dockerImages := ∅;
     offendingDockerImages := [];
     ecrCredentials := <["eu-west-1" := "cred-eu-west-1"]> (<["eu-west-2" := "cred-eu-west-2"]> ∅);
     ecrRegions := ["eu-west-1"; "eu-west-2"];
     clusterK8sContextName := "prod-cluster";
     imagesAccountAWSProfileName := "production" |}.

(** The sample configuration as [parseFlags] builds its keywords from the
    flag value "jdk-14," (with a trailing comma). *)
Definition trailingCommaConfig : Config :=
  {| dockerImageKeyWords := Split "jdk-14," ","%char;
     dockerImages := ∅;
     offendingDockerImages := [];
     ecrCredentials := ecrCredentials sampleConfig;
     ecrRegions := ecrRegions sampleConfig;
     clusterK8sContextName := "prod-cluster";
     imagesAccountAWSProfileName := "production" |}.

(** The provenance tuple recorded for a container of a pod. *)
Definition detailsOf (pod : Pod) (container : Container) : podDetails :=
  {| podName := Pod_Name pod;
     containerName := Container_Name container;
     namespace := Pod_Namespace pod |}.

(** The tuples of the containers of one pod that run [image], in the order of
    the pod's container list. *)
Definition occurrencesInPod (image : string) (pod : Pod) : list podDetails :=
  map (detailsOf pod)
      (filter (fun ct => Container_Image ct = image) (Pod_Spec_Containers pod)).

(** All tuples for [image], in discovery order. *)
Definition occurrences (image : string) (pods : list Pod) : list podDetails :=
  List.concat (map (occurrencesInPod image) pods).

(** Appending tuples to the entry of a map, creating it when needed and
    leaving the map alone when there is nothing to append. *)
Definition extend (entry : option (list podDetails)) (l : list podDetails)
    : option (list podDetails) :=
  match l with
  | [] => entry
  | _ => Some (default [] entry ++ l)%list
  end.

(** An environment with another answer of the pod listing. *)
Definition withPods (pods : string + list Pod) (env : Env) : Env :=
  {| aws_LoadDefaultConfig := aws_LoadDefaultConfig env;
     ecr_GetAuthorizationToken := ecr_GetAuthorizationToken env;
     docker_NewClientWithOpts := docker_NewClientWithOpts env;
     k8s_buildConfigWithContextFromFlags := k8s_buildConfigWithContextFromFlags env;
     k8s_NewForConfig := k8s_NewForConfig env;
     k8s_PodsList := pods;
     docker_ImagePull := docker_ImagePull env;
     docker_ImageHistory := docker_ImageHistory env;
     docker_ImageRemove := docker_ImageRemove env;
     time_Now := time_Now env;
     stampOffending := stampOffending env;
     stampNonECR := stampNonECR env;
     os_OpenFile := os_OpenFile env;
     file_WriteString := file_WriteString env |}.

(** Two pods that run the same image. *)
Definition twoPods : list Pod :=
  [ {| Pod_Name := "api-1"; Pod_Namespace := "prod";
       Pod_Spec_Containers :=
         [ {| Container_Name := "api";
              Container_Image := "1.dkr.ecr.eu-west-1.amazonaws.com/api:1" |} ] |};
    {| Pod_Name := "api-2"; Pod_Namespace := "prod";
       Pod_Spec_Containers :=
         [ {| Container_Name := "api";
              Container_Image := "1.dkr.ecr.eu-west-1.amazonaws.com/api:1" |} ] |} ].

Definition twoPodsEnv : Env := withPods (inr twoPods) sampleEnv.

(** The options [pullImage] arrives at before it calls the daemon, or [None]
    when it gives up on an unsupported region. *)
Definition pullOptionsFor (c : Config) (imageReference : string) : option ImagePullOptions :=
  if Contains imageReference "amazonaws.com" then
    let '(pullOptions, foundRegion) :=
      fold_left (selectRegion c imageReference) (ecrRegions c) (zeroPullOptions, false) in
    if foundRegion then Some pullOptions else None
  else Some zeroPullOptions.

(** The configured regions whose host pattern occurs in an image reference, in
    configuration order. *)
Definition matchingRegions (c : Config) (imageReference : string) : list string :=
  filter (fun region => Contains imageReference (ecrHostPattern region) = true) (ecrRegions c).

(** The registry host of an image reference: what stands before the first
    slash. *)
Fixpoint registryHost (imageReference : string) : string :=
  match imageReference with
  | EmptyString => EmptyString
  | String c s => if Ascii.eqb c "/"%char then EmptyString else String c (registryHost s)
  end.

Definition withCall (call : dockerCall) (w : World) : World :=
  {| files := files w; console := console w; dockerCalls := (dockerCalls w ++ [call])%list |}.

(** A status text that announces the end of a pull: it contains "Downloaded
    newer image" or "Image is up to date". *)
Definition announcesCompletion (status : string) : bool :=
  Contains status "Downloaded newer image" || Contains status "Image is up to date".

(** [terminalAt d event n]: the first [n] values of the stream [d] decode to
    events without a terminal status, and the next one to an event with a
    terminal status; nothing before it fails to decode, is [null], or keeps
    the read waiting. *)
Fixpoint terminalAt (d : list decodeStep) (event : option Event) (n : nat) : bool :=
  match d with
  | Value v :: d' =>
      match Decode v event with
      | Some e =>
          match n with
          | O => announcesCompletion (Status e)
          | S n' => negb (announcesCompletion (Status e)) && terminalAt d' (Some e) n'
          end
      | None => false
      end
  | _ => false
  end.

(** [quiet d event]: every read of the stream returns, with an item that
    decodes to an event without a terminal status. *)
Fixpoint quiet (d : list decodeStep) (event : option Event) : bool :=
  match d with
  | [] => true
  | Value v :: d' =>
      match Decode v event with
      | Some e => negb (announcesCompletion (Status e)) && quiet d' (Some e)
      | None => false
      end
  | DecodeFails _ :: _ => false
  | Blocks :: _ => false
  end.

(** The pointer is nil or points to an event without a terminal status. *)
Definition notTerminal (event : option Event) : Prop :=
  match event with
  | Some e => announcesCompletion (Status e) = false
  | None => True
  end.

(** An environment with another answer of the image pull. *)
Definition withImagePull (pull : string -> ImagePullOptions -> string + list decodeStep)
    (env : Env) : Env :=
  {| aws_LoadDefaultConfig := aws_LoadDefaultConfig env;
     ecr_GetAuthorizationToken := ecr_GetAuthorizationToken env;
     docker_NewClientWithOpts := docker_NewClientWithOpts env;
     k8s_buildConfigWithContextFromFlags := k8s_buildConfigWithContextFromFlags env;
     k8s_NewForConfig := k8s_NewForConfig env;
     k8s_PodsList := k8s_PodsList env;
     docker_ImagePull := pull;
     docker_ImageHistory := docker_ImageHistory env;
     docker_ImageRemove := docker_ImageRemove env;
     time_Now := time_Now env;
     stampOffending := stampOffending env;
     stampNonECR := stampNonECR env;
     os_OpenFile := os_OpenFile env;
     file_WriteString := file_WriteString env |}.

(** An environment with another clock. *)
Definition withClock (clock : string -> nat -> Z) (env : Env) : Env :=
  {| aws_LoadDefaultConfig := aws_LoadDefaultConfig env;
     ecr_GetAuthorizationToken := ecr_GetAuthorizationToken env;
     docker_NewClientWithOpts := docker_NewClientWithOpts env;
     k8s_buildConfigWithContextFromFlags := k8s_buildConfigWithContextFromFlags env;
     k8s_NewForConfig := k8s_NewForConfig env;
     k8s_PodsList := k8s_PodsList env;
     docker_ImagePull := docker_ImagePull env;
     docker_ImageHistory := docker_ImageHistory env;
     docker_ImageRemove := docker_ImageRemove env;
     time_Now := clock;
     stampOffending := stampOffending env;
     stampNonECR := stampNonECR env;
     os_OpenFile := os_OpenFile env;
     file_WriteString := file_WriteString env |}.

(** The daemon closes the stream without sending anything. *)
Definition silentEnv : Env := withImagePull (fun _ _ => inr []) sampleEnv.

(** The stream breaks off in the middle of its second event. *)
Definition truncatedEnv : Env :=
  withImagePull (fun _ _ => inr [statusEvent "Pulling from library";
                                 DecodeFails "unexpected EOF"]) sampleEnv.

(** The daemon closes the stream after its first event, and the clock
    advances by four minutes between two readings. *)
Definition closedEarlyEnv : Env :=
  withClock (fun _ k => Z.of_nat k * 240000000000)%Z
    (withImagePull (fun _ _ => inr [statusEvent "Pulling from library"]) sampleEnv).

(** The pull stalls after its first event: the connection stays open and
    nothing more arrives, while the clock advances by four minutes between two
    readings. *)
Definition stalledEnv : Env :=
  withClock (fun _ k => Z.of_nat k * 240000000000)%Z
    (withImagePull (fun _ _ => inr [statusEvent "Pulling from library"; Blocks]) sampleEnv).

(** The daemon of the sample environment reporting a fresh download. *)
Definition downloadedEnv : Env :=
  withImagePull (fun image _ =>
    inr [statusEvent "Pulling from library";
         statusEvent ("Status: Downloaded newer image for " +:+ image)]) sampleEnv.

(** An image kept in a repository that is named after the registry it was
    mirrored from. *)
Definition mirroredImage : string :=
  "1.dkr.ecr.eu-west-1.amazonaws.com/mirror/2.dkr.ecr.eu-west-2.amazonaws.com/app:1".

(** Everything [NewConfig] asks about a region is answered as it expects: the
    configuration loads, a token is issued, it decodes to text with a colon,
    and the login blob can be marshalled. *)
Definition regionProvisionable (env : Env) (rt : Runtime) (imagesAccountProfile region : string)
    : Prop :=
  aws_LoadDefaultConfig env imagesAccountProfile region = None
  /\ exists token more decodedToken password jsonBytes,
       ecr_GetAuthorizationToken env imagesAccountProfile region = inr (Some token :: more)
       /\ base64_DecodeString rt token = inr decodedToken
       /\ Split decodedToken ":"%char !! 1%nat = Some password
       /\ json_Marshal rt (<["username" := "AWS"]> (<["password" := password]> ∅))
          = inr jsonBytes.

(** An environment with another answer of the token request. *)
Definition withAuthorizationToken
    (token : string -> string -> string + list (option string)) (env : Env) : Env :=
  {| aws_LoadDefaultConfig := aws_LoadDefaultConfig env;
     ecr_GetAuthorizationToken := token;
     docker_NewClientWithOpts := docker_NewClientWithOpts env;
     k8s_buildConfigWithContextFromFlags := k8s_buildConfigWithContextFromFlags env;
     k8s_NewForConfig := k8s_NewForConfig env;
     k8s_PodsList := k8s_PodsList env;
     docker_ImagePull := docker_ImagePull env;
     docker_ImageHistory := docker_ImageHistory env;
     docker_ImageRemove := docker_ImageRemove env;
     time_Now := time_Now env;
     stampOffending := stampOffending env;
     stampNonECR := stampNonECR env;
     os_OpenFile := os_OpenFile env;
     file_WriteString := file_WriteString env |}.

(** The registry of eu-west-2 issues a token that decodes to text without a
    colon. *)
Definition bareTokenEnv : Env :=
  withAuthorizationToken
    (fun _ region => if String.eqb region "eu-west-2" then inr [Some "opaque-token"]
                     else inr [Some ("AWS:secret-" +:+ region)])
    sampleEnv.

(** [framed R m]: however [m] ends, the state it leaves is related by [R] to
    the state it started from. *)
Definition framed (R : Config * World -> Config * World -> Prop) {A} (m : M A) : Prop :=
  forall st, R st (fst (m st)).

(** The credential map of the configuration is the same. *)
Definition sameCredentials (st st' : Config * World) : Prop :=
  ecrCredentials (fst st') = ecrCredentials (fst st).

(** The configuration is the same, and so is every file but [path]; what was
    printed stays printed. *)
Definition onlyFile (path : string) (st st' : Config * World) : Prop :=
  fst st' = fst st
  /\ (forall q, q <> path -> files (snd st') !! q = files (snd st) !! q)
  /\ exists printed, console (snd st') = (console (snd st) ++ printed)%list.

(** No file is touched, and the configuration changes at most in its list of
    offending images. *)
Definition onlyOffending (st st' : Config * World) : Prop :=
  files (snd st') = files (snd st)
  /\ dockerImageKeyWords (fst st') = dockerImageKeyWords (fst st)
  /\ dockerImages (fst st') = dockerImages (fst st)
  /\ clusterK8sContextName (fst st') = clusterK8sContextName (fst st).

(** What a file holds; a missing file holds nothing. *)
Definition fileContent (w : World) (path : string) : string :=
  default EmptyString (files w !! path).

(** [appended path text w w']: [w'] is [w] with [text] appended to the file
    [path], which exists afterwards. *)
Definition appended (path text : string) (w w' : World) : Prop :=
  files w' !! path = Some (fileContent w path +:+ text)
  /\ (forall q, q <> path -> files w' !! q = files w !! q)
  /\ console w' = console w
  /\ dockerCalls w' = dockerCalls w.

Definition joinLines (lines : list string) : string :=
  fold_right String.append EmptyString lines.

(** A line of a report: the image, a tab, the parenthesised groups, a line
    feed. *)
Definition reportLine (image : string) (groups : list string) : string :=
  image +:+ tab +:+ joinLines groups +:+ newline.

(** An entry of the image map whose key does not contain "amazonaws.com". *)
Definition isNonECR (entry : string * list podDetails) : Prop :=
  Contains (fst entry) "amazonaws.com" = false.

(** The entries of the image map that the non-ECR report lists, in the order
    in which the map is visited. *)
Definition nonECREntries (rt : Runtime) (c : Config) : list (string * list podDetails) :=
  filter isNonECR (rangeImages rt (dockerImages c)).

Definition nonECRLine (entry : string * list podDetails) : string :=
  reportLine (fst entry) (map formatPod (snd entry)).

Definition offendingLine (rt : Runtime) (c : Config) (i : offendingDockerImage) : string :=
  reportLine (imageRef i)
    (map (formatMatch rt i) (default [] (dockerImages c !! imageRef i))).

(** An entry of the offending images is justified when it is marked as a
    match and some layer of the history of its image matches a keyword. *)
Definition justified (env : Env) (rt : Runtime) (keywords : list string)
    (i : offendingDockerImage) : Prop :=
  matchFound i = true
  /\ exists history,
       docker_ImageHistory env (imageRef i) = inr history
       /\ anyMatch rt keywords history = true.

(** Besides [onlyOffending]: when every offending image was justified, every
    offending image still is. *)
Definition offendingJustified (env : Env) (rt : Runtime) (st st' : Config * World) : Prop :=
  onlyOffending st st'
  /\ (Forall (justified env rt (dockerImageKeyWords (fst st))) (offendingDockerImages (fst st)) ->
      Forall (justified env rt (dockerImageKeyWords (fst st))) (offendingDockerImages (fst st'))).

(** The sample configuration after the scan of the sample cluster. *)
Definition scannedConfig : Config :=
  match k8s_PodsList sampleEnv with
  | inr pods => setDockerImages (recordPods ∅ pods) sampleConfig
  | inl _ => sampleConfig
  end.

(** The sample configuration with a keyword that no layer mentions. *)
Definition unmatchedConfig : Config :=
  {| dockerImageKeyWords := ["openjdk8"];
     dockerImages := ∅;
     offendingDockerImages := [];
     ecrCredentials := ecrCredentials sampleConfig;
     ecrRegions := ecrRegions sampleConfig;
     clusterK8sContextName := "prod-cluster";
     imagesAccountAWSProfileName := "production" |}.

(** Two runs of the pipeline on the sample cluster. *)
Definition sampleRun : (Config * World) * outcome unit :=
  ProcessAllImagesHistoryForKeywords 5 sampleEnv sampleRuntime (sampleConfig, emptyWorld).

Definition unmatchedRun : (Config * World) * outcome unit :=
  ProcessAllImagesHistoryForKeywords 5 sampleEnv sampleRuntime (unmatchedConfig, emptyWorld).

(** An object of the stream that carries no status, as the daemon sends for an
    error or for bare progress. *)
Definition noStatus (step : decodeStep) : Prop :=
  exists fields, step = Value (JObject fields) /\ jStatus fields = None.

Definition errorEvent (message : string) : decodeStep :=
  Value (JObject {| jStatus := None; jError := Some message; jProgress := None;
                    jCurrent := None; jTotal := None |}).

(** The daemon answers with an error object and closes the stream; the clock
    advances by four minutes between two readings. *)
Definition deniedEnv : Env :=
  withClock (fun _ k => Z.of_nat k * 240000000000)%Z
    (withImagePull (fun _ _ => inr [errorEvent "pull access denied"]) sampleEnv).

(** The daemon sends [null] after its first event. *)
Definition nullEnv : Env :=
  withImagePull (fun _ _ => inr [statusEvent "Pulling from library"; Value JNull;
                                 statusEvent "Status: Downloaded newer image"]) sampleEnv.

(** The daemon of the sample environment, with malformed text sent after the
    terminal status. *)
Definition trailingGarbageEnv : Env :=
  withImagePull (fun image _ =>
    inr ([statusEvent "Pulling from library";
          statusEvent ("Status: Image is up to date for " +:+ image)]
         ++ [DecodeFails "invalid character"])%list) sampleEnv.

(** [blob] is the login blob [NewConfig] builds for a region: the token of the
    region is decoded, its second colon-separated field is taken as the
    password, and the JSON object with that password and the fixed user name
    "AWS" is encoded. *)
Definition loginBlobOf (env : Env) (rt : Runtime) (imagesAccountProfile region blob : string)
    : Prop :=
  exists token more decodedToken password jsonBytes,
    ecr_GetAuthorizationToken env imagesAccountProfile region = inr (Some token :: more)
    /\ base64_DecodeString rt token = inr decodedToken
    /\ Split decodedToken ":"%char !! 1%nat = Some password
    /\ json_Marshal rt (<["username" := "AWS"]> (<["password" := password]> ∅)) = inr jsonBytes
    /\ blob = base64_EncodeToString rt jsonBytes.

(** An environment with another answer of the AWS configuration loader. *)
Definition withLoadDefaultConfig (load : string -> string -> option string) (env : Env) : Env :=
  {| aws_LoadDefaultConfig := load;
     ecr_GetAuthorizationToken := ecr_GetAuthorizationToken env;
     docker_NewClientWithOpts := docker_NewClientWithOpts env;
     k8s_buildConfigWithContextFromFlags := k8s_buildConfigWithContextFromFlags env;
     k8s_NewForConfig := k8s_NewForConfig env;
     k8s_PodsList := k8s_PodsList env;
     docker_ImagePull := docker_ImagePull env;
     docker_ImageHistory := docker_ImageHistory env;
     docker_ImageRemove := docker_ImageRemove env;
     time_Now := time_Now env;
     stampOffending := stampOffending env;
     stampNonECR := stampNonECR env;
     os_OpenFile := os_OpenFile env;
     file_WriteString := file_WriteString env |}.

(** The profile is unknown in eu-west-2. *)
Definition unknownProfileEnv : Env :=
  withLoadDefaultConfig
    (fun _ region => if String.eqb region "eu-west-2"
                     then Some "failed to get shared config profile" else None)
    sampleEnv.

(** The registry of eu-west-2 answers without authorization data. *)
Definition noAuthorizationDataEnv : Env :=
  withAuthorizationToken
    (fun _ region => if String.eqb region "eu-west-2" then inr []
                     else inr [Some ("AWS:secret-" +:+ region)])
    sampleEnv.

(** The tokens decode to text with two colons. *)
Definition colonPasswordEnv : Env :=
  withAuthorizationToken (fun _ region => inr [Some ("AWS:pass:word-" +:+ region)]) sampleEnv.

(** [endsWith E m]: [m] neither panics nor runs out of fuel; it returns a
    value or an error that satisfies [E]. *)
Definition endsWith (E : error -> Prop) {A} (m : M A) : Prop :=
  forall st,
    match snd (m st) with
    | Ok _ => True
    | Err e => E e
    | Panic _ => False
    | OutOfFuel => False
    end.

(** The errors of the two report writers. *)
Definition isReportError (e : error) : Prop :=
  exists path cause, e = ErrOpeningFile path cause \/ e = ErrWritingResults path cause.

(** No file is touched. *)
Definition sameFiles (st st' : Config * World) : Prop :=
  files (snd st') = files (snd st).

(** The configuration is the same and no call is made to the daemon. *)
Definition sameCalls (st st' : Config * World) : Prop :=
  fst st' = fst st /\ dockerCalls (snd st') = dockerCalls (snd st).

(** The settings of the configuration --- everything but the image map and the
    offending images --- are the same. *)
Definition sameSettings (st st' : Config * World) : Prop :=
  dockerImageKeyWords (fst st') = dockerImageKeyWords (fst st)
  /\ ecrCredentials (fst st') = ecrCredentials (fst st)
  /\ ecrRegions (fst st') = ecrRegions (fst st)
  /\ clusterK8sContextName (fst st') = clusterK8sContextName (fst st)
  /\ imagesAccountAWSProfileName (fst st') = imagesAccountAWSProfileName (fst st).

(** The result of the check of an image, as a function of the environment. *)
Definition auditResult (env : Env) (rt : Runtime) (keywords : list string) (image : string)
    : offendingDockerImage :=
  match docker_ImageHistory env image with
  | inr history => fold_left (stepLayer rt image keywords) history emptyResult
  | inl _ => emptyResult
  end.

(** The calls to the daemon for one image that is processed to the end. *)
Definition callsFor (c : Config) (image : string) : list dockerCall :=
  [CallImagePull image (default zeroPullOptions (pullOptionsFor c image));
   CallImageHistory image;
   CallImageRemove image].

(** An environment with another answer of the history request. *)
Definition withImageHistory (history : string -> string + list HistoryResponseItem)
    (env : Env) : Env :=
  {| aws_LoadDefaultConfig := aws_LoadDefaultConfig env;
     ecr_GetAuthorizationToken := ecr_GetAuthorizationToken env;
     docker_NewClientWithOpts := docker_NewClientWithOpts env;
     k8s_buildConfigWithContextFromFlags := k8s_buildConfigWithContextFromFlags env;
     k8s_NewForConfig := k8s_NewForConfig env;
     k8s_PodsList := k8s_PodsList env;
     docker_ImagePull := docker_ImagePull env;
     docker_ImageHistory := history;
     docker_ImageRemove := docker_ImageRemove env;
     time_Now := time_Now env;
     stampOffending := stampOffending env;
     stampNonECR := stampNonECR env;
     os_OpenFile := os_OpenFile env;
     file_WriteString := file_WriteString env |}.

(** An environment with another file system. *)
Definition withFileSystem (open : string -> option string)
    (write : string -> string -> option string) (env : Env) : Env :=
  {| aws_LoadDefaultConfig := aws_LoadDefaultConfig env;
     ecr_GetAuthorizationToken := ecr_GetAuthorizationToken env;
     docker_NewClientWithOpts := docker_NewClientWithOpts env;
     k8s_buildConfigWithContextFromFlags := k8s_buildConfigWithContextFromFlags env;
     k8s_NewForConfig := k8s_NewForConfig env;
     k8s_PodsList := k8s_PodsList env;
     docker_ImagePull := docker_ImagePull env;
     docker_ImageHistory := docker_ImageHistory env;
     docker_ImageRemove := docker_ImageRemove env;
     time_Now := time_Now env;
     stampOffending := stampOffending env;
     stampNonECR := stampNonECR env;
     os_OpenFile := open;
     file_WriteString := write |}.

(** The history of the public image cannot be read. *)
Definition noHistoryEnv : Env :=
  withImageHistory (fun image => if String.eqb image "tomcat:9" then inl "No such image"
                                 else docker_ImageHistory sampleEnv image) sampleEnv.

(** A disk on which only line feeds can be written. *)
Definition lineFeedsOnlyEnv : Env :=
  withFileSystem (fun _ => None)
    (fun _ data => if String.eqb data newline then None else Some "no space left on device")
    sampleEnv.

(** A directory in which no file can be opened. *)
Definition readOnlyEnv : Env :=
  withFileSystem (fun _ => Some "permission denied") (fun _ _ => None) sampleEnv.

(** A cluster without pods. *)
Definition emptyClusterEnv : Env := withPods (inr []) sampleEnv.

(** The profile may not ask for authorization tokens. *)
Definition deniedTokenEnv : Env :=
  withAuthorizationToken (fun _ _ => inl "AccessDeniedException") sampleEnv.

(** ** The two [main] functions *)

(** How the program ends: [os.Exit(0)] after [main] returns, one of the
    [log.Fatal] exits, or a panic. *)
Inductive exit :=
| ExitSuccess
| ExitFatalFlags (f : Cmd.fatal)
| ExitFatalLoadingConfig (e : error)
| ExitFatalRun (e : error)
| ExitPanic (p : panic)
| ExitOutOfFuel.

(** The last step of both [main] functions: the pipeline is run on the
    configuration and its error, if any, is fatal. *)
Definition runPipeline (fuel : nat) (env : Env) (rt : Runtime) (cfg : Config) (w : World)
    : World * exit :=
  match ProcessAllImagesHistoryForKeywords fuel env rt (cfg, w) with
  | ((_, w'), Ok _) => (w', ExitSuccess)
  | ((_, w'), Err e) => (w', ExitFatalRun e)
  | ((_, w'), Panic p) => (w', ExitPanic p)
  | ((_, w'), OutOfFuel) => (w', ExitOutOfFuel)
  end.

(** [main] of [cmd/main.go]; its three [log.Printf] lines are left out. *)
Definition main (fuel : nat) (env : Env) (rt : Runtime)
    (contextFlag profileFlag dockerImageKeyWordsFlag ecrRegionsFlag : string) (w : World)
    : World * exit :=
  match Cmd.parseFlags contextFlag profileFlag dockerImageKeyWordsFlag ecrRegionsFlag with
  | inl f => (w, ExitFatalFlags f)
  | inr flags =>
      match NewConfig env rt (Cmd.dockerImageKeyWords flags) (Cmd.clusterK8sContextName flags)
              (Cmd.imagesAccountAWSProfileName flags) (Cmd.ecrRegions flags) with
      | Ok cfg => runPipeline fuel env rt cfg w
      | Err e => (w, ExitFatalLoadingConfig e)
      | Panic p => (w, ExitPanic p)
      | OutOfFuel => (w, ExitOutOfFuel)
      end
  end.

(** The program of [main.go] at the root of the repository, the earlier
    version in one file.  Its functions are those of the package, with the
    regions fixed in a global variable and without a flag for them. *)
Module Root.

(** [ecrRegions], the global variable. *)
Definition ecrRegions : list string := ["eu-west-1"; "ap-southeast-2"].

(** [parseFlags]: the keywords, or the usage exit. *)
Definition parseFlags (contextFlag profileFlag dockerImageKeyWordsFlag : string)
    : Cmd.fatal + list string :=
  let keywords :=
    if (0 <? String.length dockerImageKeyWordsFlag)%nat
    then Split dockerImageKeyWordsFlag ","%char else [] in
  if (String.length contextFlag =? 0)%nat || (String.length profileFlag =? 0)%nat
     || (List.length keywords =? 0)%nat
  then inl Cmd.FatalUsage
  else inr keywords.

(** [main].  The [defer] statement that closes the Docker client stands
    between the call of [NewConfig] and the test of its error, and the
    argument of the deferred call, [cfg.dockerClient], is evaluated where the
    statement stands: through the nil [cfg] that [NewConfig] returns with an
    error. *)
Definition main (fuel : nat) (env : Env) (rt : Runtime)
    (contextFlag profileFlag dockerImageKeyWordsFlag : string) (w : World)
    : World * exit :=
  match parseFlags contextFlag profileFlag dockerImageKeyWordsFlag with
  | inl f => (w, ExitFatalFlags f)
  | inr keywords =>
      match NewConfig env rt keywords contextFlag profileFlag ecrRegions with
      | Ok cfg => runPipeline fuel env rt cfg w
      | Err e => (w, ExitPanic NilDereference)
      | Panic p => (w, ExitPanic p)
      | OutOfFuel => (w, ExitOutOfFuel)
      end
  end.

End Root.

(** An image kept on a public registry, in a repository named after the
    registry it was mirrored from. *)
Definition publicMirrorImage : string := "quay.io/mirror/amazonaws.com/app:1".

(** The sample configuration after the scan of a cluster of two pods, which
    run two images of public registries. *)
Definition publicMirrorConfig : Config :=
  setDockerImages
    (recordPods ∅
       [ {| Pod_Name := "web-1"; Pod_Namespace := "prod";
            Pod_Spec_Containers :=
              [ {| Container_Name := "web"; Container_Image := "tomcat:9" |} ] |};
         {| Pod_Name := "app-1"; Pod_Namespace := "prod";
            Pod_Spec_Containers :=
              [ {| Container_Name := "app"; Container_Image := publicMirrorImage |} ] |} ])
    sampleConfig.

(** * Properties *)

(** ** Strings *)

Lemma Contains_empty (s : string) : Contains s EmptyString = true.
Proof. destruct s; reflexivity. Qed.

Lemma Split_nonempty (s : string) (sep : ascii) : Split s sep <> [].
Proof.
  destruct s as [|c s]; simpl; [discriminate|].
  destruct (Ascii.eqb c sep); [discriminate|].
  destruct (Split s sep); discriminate.
Qed.

(** Splitting distributes over a separator, wherever it stands. *)
Lemma Split_at_separator (a b : string) (sep : ascii) :
  Split (a +:+ String sep b) sep = (Split a sep ++ Split b sep)%list.
Proof.
  induction a as [|c a IH]; simpl.
  - rewrite Ascii.eqb_refl. reflexivity.
  - destruct (Ascii.eqb c sep).
    + rewrite IH. reflexivity.
    + rewrite IH. pose proof (Split_nonempty a sep) as Hne.
      destruct (Split a sep) as [|w ws]; [congruence | reflexivity].
Qed.

Lemma Split_trailing_separator (a : string) (sep : ascii) :
  In EmptyString (Split (a +:+ String sep EmptyString) sep).
Proof.
  rewrite Split_at_separator. apply in_or_app. right. simpl. auto.
Qed.

Lemma Split_doubled_separator (a b : string) (sep : ascii) :
  In EmptyString (Split (a +:+ String sep (String sep b)) sep).
Proof.
  rewrite Split_at_separator. apply in_or_app. right.
  simpl. rewrite Ascii.eqb_refl. simpl. auto.
Qed.

(** ** Loops in the monad *)

Lemma bind_Ok {A B} (c : M A) (k : A -> M B) (st st' : Config * World) (a : A) :
  c st = (st', Ok a) -> bind c k st = k a st'.
Proof. intros H. unfold bind. rewrite H. reflexivity. Qed.

Lemma onlyPrinted_refl (st : Config * World) : onlyPrinted st st.
Proof. repeat split. Qed.

Lemma onlyPrinted_trans (st1 st2 st3 : Config * World) :
  onlyPrinted st1 st2 -> onlyPrinted st2 st3 -> onlyPrinted st1 st3.
Proof.
  intros (Hc & Hf & Hd) (Hc' & Hf' & Hd').
  repeat split; congruence.
Qed.

Lemma print_onlyPrinted (l : consoleLine) (st : Config * World) :
  exists st', print l st = (st', Ok tt) /\ onlyPrinted st st'.
Proof. eexists. split; [reflexivity|]. repeat split. Qed.

(** A loop whose body always returns, and only prints, is the pure fold of
    its effect on the loop variable. *)
Lemma foldM_pure {A S : Type} (body : S -> A -> M S) (step : S -> A -> S) :
  (forall s a st, exists st', body s a st = (st', Ok (step s a)) /\ onlyPrinted st st') ->
  forall l s st,
    exists st', foldM body l s st = (st', Ok (fold_left step l s)) /\ onlyPrinted st st'.
Proof.
  intros Hbody l. induction l as [|a l IH]; intros s st; simpl.
  - exists st. split; [reflexivity | apply onlyPrinted_refl].
  - unfold bind. destruct (Hbody s a st) as (st1 & -> & H1).
    destruct (IH (step s a) st1) as (st2 & -> & H2).
    exists st2. split; [reflexivity | eapply onlyPrinted_trans; eauto].
Qed.

(** ** The keyword check *)

Section KeywordCheck.
Context (env : Env) (rt : Runtime).

Lemma checkKeyword_pure (imageRef' : string) (h : HistoryResponseItem)
    (result : offendingDockerImage) (keyword : string) (st : Config * World) :
  exists st', checkKeyword rt imageRef' h result keyword st
              = (st', Ok (stepKeyword rt imageRef' h result keyword))
              /\ onlyPrinted st st'.
Proof.
  unfold checkKeyword, stepKeyword.
  destruct (keywordMatches rt h keyword).
  - unfold bind.
    destruct (print_onlyPrinted (PrintFound (recordMatch imageRef' keyword result)) st)
      as (st' & -> & H).
    exists st'. split; [reflexivity | exact H].
  - exists st. split; [reflexivity | apply onlyPrinted_refl].
Qed.

Lemma checkLayer_pure (imageRef' : string) (keywords : list string)
    (result : offendingDockerImage) (h : HistoryResponseItem) (st : Config * World) :
  exists st', checkLayer rt imageRef' keywords result h st
              = (st', Ok (stepLayer rt imageRef' keywords result h))
              /\ onlyPrinted st st'.
Proof.
  unfold checkLayer, stepLayer.
  apply foldM_pure. intros s a st0. apply checkKeyword_pure.
Qed.

(** The counter of [keyword] grows only in the turns for [keyword] itself. *)
Lemma counter_stepKeyword imageRef' h result keyword' keyword :
  counter (stepKeyword rt imageRef' h result keyword') keyword
  = (counter result keyword
     + if keywordMatches rt h keyword' && bool_decide (keyword' = keyword) then 1 else 0)%nat.
Proof.
  unfold stepKeyword, counter.
  destruct (keywordMatches rt h keyword') eqn:Hm; simpl.
  - case_bool_decide as Heq.
    + subst. rewrite lookup_insert_eq. simpl. lia.
    + rewrite lookup_insert_ne by exact Heq. lia.
  - lia.
Qed.

Lemma counter_stepLayer imageRef' keywords h : forall result keyword,
  counter (stepLayer rt imageRef' keywords result h) keyword
  = (counter result keyword
     + if keywordMatches rt h keyword then configured keywords keyword else 0)%nat.
Proof.
  unfold stepLayer, configured.
  induction keywords as [|k ks IH]; intros result keyword; simpl.
  - destruct (keywordMatches rt h keyword); lia.
  - rewrite IH, counter_stepKeyword.
    destruct (String.string_dec k keyword) as [->|Hne].
    + rewrite bool_decide_eq_true_2 by reflexivity.
      destruct (keywordMatches rt h keyword); simpl; lia.
    + rewrite bool_decide_eq_false_2 by exact Hne.
      rewrite andb_false_r. lia.
Qed.

Lemma counter_history imageRef' keywords history : forall result keyword,
  counter (fold_left (stepLayer rt imageRef' keywords) history result) keyword
  = (counter result keyword
     + configured keywords keyword * matchingLayers rt history keyword)%nat.
Proof.
  unfold matchingLayers.
  induction history as [|h hs IH]; intros result keyword; simpl.
  - lia.
  - rewrite IH, counter_stepLayer.
    destruct (keywordMatches rt h keyword) eqn:Hm.
    + rewrite filter_cons_True by exact Hm. simpl. lia.
    + rewrite filter_cons_False by (rewrite Hm; discriminate). lia.
Qed.

Lemma matchFound_stepLayer imageRef' keywords h : forall result,
  matchFound (stepLayer rt imageRef' keywords result h)
  = matchFound result || existsb (keywordMatches rt h) keywords.
Proof.
  unfold stepLayer.
  induction keywords as [|k ks IH]; intros result; simpl.
  - rewrite orb_false_r. reflexivity.
  - rewrite IH. unfold stepKeyword.
    destruct (keywordMatches rt h k); simpl.
    + rewrite orb_true_r. reflexivity.
    + reflexivity.
Qed.

Lemma matchFound_history imageRef' keywords history : forall result,
  matchFound (fold_left (stepLayer rt imageRef' keywords) history result)
  = matchFound result || anyMatch rt keywords history.
Proof.
  unfold anyMatch.
  induction history as [|h hs IH]; intros result; simpl.
  - rewrite orb_false_r. reflexivity.
  - rewrite IH, matchFound_stepLayer, orb_assoc. reflexivity.
Qed.

(** Whenever the history can be read, the check returns the fold of the two
    loops, having printed and asked for the history and nothing else. *)
Lemma checkImageHistoryForKeyWords_returns (imageRef' : string)
    (history : list HistoryResponseItem) (c : Config) (w : World) :
  docker_ImageHistory env imageRef' = inr history ->
  exists w',
    checkImageHistoryForKeyWords env rt imageRef' (c, w)
    = ((c, w'), Ok (fold_left (stepLayer rt imageRef' (dockerImageKeyWords c))
                              history emptyResult))
    /\ files w' = files w
    /\ dockerCalls w' = (dockerCalls w ++ [CallImageHistory imageRef'])%list.
Proof.
  intros Hh. unfold checkImageHistoryForKeyWords, bind, getConfig. simpl.
  rewrite Hh.
  destruct (foldM_pure (checkLayer rt imageRef' (dockerImageKeyWords c))
              (stepLayer rt imageRef' (dockerImageKeyWords c))
              (checkLayer_pure imageRef' (dockerImageKeyWords c)) history emptyResult
              (c, {| files := files w; console := console w;
                     dockerCalls := (dockerCalls w ++ [CallImageHistory imageRef'])%list |}))
    as ([c' w'] & Hrun & Hc & Hf & Hd).
  simpl in Hc, Hf, Hd. subst c'.
  exists w'. rewrite Hrun. auto.
Qed.

End KeywordCheck.

(** *** Lower-casing both sides is matching without regard to case *)

Lemma prefix_asciiToLower (keyword : string) : forall text,
  String.prefix (asciiToLower keyword) (asciiToLower text)
  = startsWithIgnoringCase text keyword.
Proof.
  induction keyword as [|k keyword IH]; intros text.
  - destruct text; reflexivity.
  - destruct text as [|t text]; [reflexivity|].
    cbn [asciiToLower String.prefix startsWithIgnoringCase]. unfold sameLetter.
    destruct (ascii_dec (lowerByte k) (lowerByte t)) as [Heq|Hne].
    + rewrite Heq, Ascii.eqb_refl. apply IH.
    + symmetry. apply andb_false_iff. left. apply Ascii.eqb_neq. congruence.
Qed.

Lemma Contains_asciiToLower (text keyword : string) :
  Contains (asciiToLower text) (asciiToLower keyword) = occursIgnoringCase text keyword.
Proof.
  induction text as [|t text IH];
    cbn [asciiToLower Contains occursIgnoringCase].
  - rewrite <- prefix_asciiToLower. reflexivity.
  - rewrite <- prefix_asciiToLower, IH. reflexivity.
Qed.

Lemma asciiToLower_app (a b : string) :
  asciiToLower (a +:+ b) = asciiToLower a +:+ asciiToLower b.
Proof.
  induction a as [|x a IH]; [reflexivity|].
  change (String (lowerByte x) (asciiToLower (a +:+ b))
          = String (lowerByte x) (asciiToLower a +:+ asciiToLower b)).
  rewrite IH. reflexivity.
Qed.

(** [startsWithIgnoringCase] in words: the text begins with a word that is
    the keyword up to the case of its letters. *)
Lemma startsWithIgnoringCase_spec (keyword : string) : forall text,
  startsWithIgnoringCase text keyword = true
  <-> exists word rest, text = word +:+ rest /\ asciiToLower word = asciiToLower keyword.
Proof.
  induction keyword as [|k keyword IH]; intros text.
  - split; [|reflexivity]. intros _. exists EmptyString, text. split; reflexivity.
  - destruct text as [|t text]; cbn [startsWithIgnoringCase].
    + split; [discriminate|]. intros ([|x word] & rest & Htext & Hlow); discriminate.
    + rewrite andb_true_iff, IH. unfold sameLetter. rewrite Ascii.eqb_eq. split.
      * intros (Hletter & word & rest & -> & Hlow). exists (String t word), rest.
        split; [reflexivity|]. cbn [asciiToLower]. rewrite Hletter, Hlow. reflexivity.
      * intros ([|x word] & rest & Htext & Hlow); [discriminate|].
        injection Htext as -> ->. injection Hlow as Hletter Hlow.
        split; [exact Hletter|]. exists word, rest. split; [reflexivity | exact Hlow].
Qed.

(** [occursIgnoringCase] in words: the text is some text, then a word that is
    the keyword up to the case of its letters, then some text. *)
Lemma occursIgnoringCase_spec (text keyword : string) :
  occursIgnoringCase text keyword = true
  <-> exists before word rest,
        text = before +:+ word +:+ rest /\ asciiToLower word = asciiToLower keyword.
Proof.
  induction text as [|t text IH]; cbn [occursIgnoringCase].
  - rewrite orb_false_r, startsWithIgnoringCase_spec. split.
    + intros (word & rest & Htext & Hlow). exists EmptyString, word, rest. auto.
    + intros ([|x before] & word & rest & Htext & Hlow); [|discriminate].
      exists word, rest. auto.
  - rewrite orb_true_iff, startsWithIgnoringCase_spec, IH. split.
    + intros [(word & rest & Htext & Hlow)|(before & word & rest & Htext & Hlow)].
      * exists EmptyString, word, rest. auto.
      * exists (String t before), word, rest. rewrite Htext. auto.
    + intros ([|x before] & word & rest & Htext & Hlow).
      * left. exists word, rest. auto.
      * right. injection Htext as _ Htext. exists before, word, rest. auto.
Qed.

Section IgnoringCase.
Context (rt : Runtime).
Hypothesis lowers : lowersASCII rt.

Lemma keywordMatches_ignoring_case (h : HistoryResponseItem) (keyword : string) :
  isASCII (CreatedBy h) = true -> isASCII keyword = true ->
  keywordMatches rt h keyword = occursIgnoringCase (CreatedBy h) keyword.
Proof.
  intros Hh Hk. unfold keywordMatches.
  rewrite (lowers _ Hh), (lowers _ Hk). apply Contains_asciiToLower.
Qed.

Lemma matchingLayers_ignoring_case (history : list HistoryResponseItem) (keyword : string) :
  Forall (fun h => isASCII (CreatedBy h) = true) history -> isASCII keyword = true ->
  matchingLayers rt history keyword = layersMentioning history keyword.
Proof.
  intros Hall Hk. unfold matchingLayers, layersMentioning.
  induction Hall as [|h hs Hh Hhs IH]; [reflexivity|].
  cbn [List.filter]. rewrite <- (keywordMatches_ignoring_case h keyword Hh Hk).
  destruct (keywordMatches rt h keyword) eqn:Hm.
  - rewrite filter_cons_True by exact Hm. simpl. rewrite IH. reflexivity.
  - rewrite filter_cons_False by (rewrite Hm; discriminate). exact IH.
Qed.

Lemma anyMatch_ignoring_case (keywords : list string) (history : list HistoryResponseItem) :
  Forall (fun keyword => isASCII keyword = true) keywords ->
  Forall (fun h => isASCII (CreatedBy h) = true) history ->
  anyMatch rt keywords history = mentionsAny keywords history.
Proof.
  intros Hks Hall. unfold anyMatch, mentionsAny.
  induction Hall as [|h hs Hh Hhs IH]; [reflexivity|].
  cbn [existsb]. rewrite IH. f_equal.
  clear - lowers Hks Hh. induction Hks as [|k ks Hk Hks IH]; [reflexivity|].
  cbn [existsb]. rewrite IH, (keywordMatches_ignoring_case h k Hh Hk). reflexivity.
Qed.

End IgnoringCase.



Lemma length_append_separator (a b : string) (sep : ascii) :
  (0 <? String.length (a +:+ String sep b))%nat = true.
Proof. destruct a; reflexivity. Qed.

Lemma parseFlags_keywords (contextFlag profileFlag keywordsFlag regionsFlag : string)
    (flags : Cmd.Flags) :
  Cmd.parseFlags contextFlag profileFlag keywordsFlag regionsFlag = inr flags ->
  (0 <? String.length keywordsFlag)%nat = true ->
  Cmd.dockerImageKeyWords flags = Split keywordsFlag ","%char.
Proof.
  unfold Cmd.parseFlags. intros Hp Hlen. rewrite Hlen in Hp.
  destruct (_ || _); [discriminate|].
  destruct (0 <? String.length regionsFlag)%nat.
  - destruct (negb _); [discriminate|]. injection Hp as <-. reflexivity.
  - injection Hp as <-. reflexivity.
Qed.

(** C9: a trailing or doubled comma in the value of the [dockerImageKeyWords]
    flag yields an empty keyword; the empty keyword matches every layer, so
    its counter is the number of layers (once per layer for each time it is
    configured) and every image with at least one layer is marked as a
    match. *)
Theorem empty_keyword_matches_every_layer (env : Env) (rt : Runtime) :
  ToLower rt EmptyString = EmptyString ->
  (forall contextFlag profileFlag regionsFlag a b flags,
      Cmd.parseFlags contextFlag profileFlag (a +:+ ",") regionsFlag = inr flags
      \/ Cmd.parseFlags contextFlag profileFlag (a +:+ ",," +:+ b) regionsFlag = inr flags ->
      In EmptyString (Cmd.dockerImageKeyWords flags))
  /\ (forall h, keywordMatches rt h EmptyString = true)
  /\ (forall imageRef' history c w,
        docker_ImageHistory env imageRef' = inr history ->
        exists w' result,
          checkImageHistoryForKeyWords env rt imageRef' (c, w) = ((c, w'), Ok result)
          /\ counter result EmptyString
             = (configured (dockerImageKeyWords c) EmptyString * List.length history)%nat
          /\ (In EmptyString (dockerImageKeyWords c) -> history <> [] ->
              matchFound result = true)).
Proof.
  intros Hlower.
  assert (Hall : forall h, keywordMatches rt h EmptyString = true).
  { intros h. unfold keywordMatches. rewrite Hlower. apply Contains_empty. }
  split; [|split].
  - intros contextFlag profileFlag regionsFlag a b flags [Hp|Hp].
    + rewrite (parseFlags_keywords _ _ _ _ _ Hp (length_append_separator a _ _)).
      apply Split_trailing_separator.
    + rewrite (parseFlags_keywords _ _ _ _ _ Hp (length_append_separator a _ _)).
      apply Split_doubled_separator.
  - exact Hall.
  - intros imageRef' history c w Hh.
    destruct (checkImageHistoryForKeyWords_returns env rt imageRef' history c w Hh)
      as (w' & Hrun & _ & _).
    exists w'. eexists. split; [exact Hrun|]. split.
    + rewrite counter_history. unfold matchingLayers.
      replace (filter (fun h => keywordMatches rt h EmptyString = true) history)
        with history; [reflexivity|].
      clear - Hall. induction history as [|h hs IH]; [reflexivity|].
      rewrite filter_cons_True by apply Hall. congruence.
    + intros Hin Hne. rewrite matchFound_history. simpl.
      destruct history as [|h hs]; [congruence|]. simpl.
      assert (Hex : existsb (keywordMatches rt h) (dockerImageKeyWords c) = true).
      { apply existsb_exists. exists EmptyString. split; [exact Hin | apply Hall]. }
      rewrite Hex. reflexivity.
Qed.

Lemma empty_keyword_matches_every_layer_witness :
  ToLower sampleRuntime EmptyString = EmptyString
  /\ (exists flags,
        Cmd.parseFlags "prod-cluster" "production" "jdk-14," "eu-west-1" = inr flags
        /\ In EmptyString (Cmd.dockerImageKeyWords flags))
  /\ exists w' result,
       checkImageHistoryForKeyWords sampleEnv sampleRuntime "tomcat:9"
         (trailingCommaConfig, emptyWorld) = ((trailingCommaConfig, w'), Ok result)
       /\ counter result EmptyString = 3%nat
       /\ matchFound result = true.
Proof.
  destruct (empty_keyword_matches_every_layer sampleEnv sampleRuntime eq_refl)
    as (Hflags & _ & Hrun).
  split; [reflexivity|]. split.
  - eexists. split; [reflexivity|].
    apply (Hflags "prod-cluster" "production" "eu-west-1" "jdk-14" EmptyString).
    left. reflexivity.
  - destruct (Hrun "tomcat:9" _ trailingCommaConfig emptyWorld eq_refl)
      as (w' & result & Hr & Hcount & Hfound).
    exists w', result. split; [exact Hr|]. split.
    + rewrite Hcount. reflexivity.
    + apply Hfound; [simpl; auto | discriminate].
Defined.

(** ** The cluster scan *)

Lemma extend_extend (entry : option (list podDetails)) (l1 l2 : list podDetails) :
  extend (extend entry l1) l2 = extend entry (l1 ++ l2).
Proof.
  destruct l1 as [|x l1]; [reflexivity|].
  destruct l2 as [|y l2]; simpl.
  - rewrite app_nil_r. reflexivity.
  - rewrite <- app_assoc. reflexivity.
Qed.

Lemma recordContainer_lookup (pod : Pod) (images : gmap string (list podDetails))
    (container : Container) (image : string) :
  recordContainer pod images container !! image
  = extend (images !! image)
      (if decide (Container_Image container = image) then [detailsOf pod container] else []).
Proof.
  unfold recordContainer. destruct (decide (Container_Image container = image)) as [<-|Hne].
  - rewrite lookup_insert_eq. reflexivity.
  - rewrite lookup_insert_ne by exact Hne. reflexivity.
Qed.

Lemma recordContainers_lookup (pod : Pod) (image : string) (containers : list Container) :
  forall images : gmap string (list podDetails),
    fold_left (recordContainer pod) containers images !! image
    = extend (images !! image)
        (map (detailsOf pod) (filter (fun ct => Container_Image ct = image) containers)).
Proof.
  induction containers as [|ct cts IH]; intros images; simpl; [reflexivity|].
  rewrite IH, recordContainer_lookup, extend_extend.
  destruct (decide (Container_Image ct = image)) as [Heq|Hne].
  - rewrite filter_cons_True by exact Heq. reflexivity.
  - rewrite filter_cons_False by exact Hne. reflexivity.
Qed.

(** The entry of an image after the scan: what was there, followed by the
    tuples of its occurrences in discovery order. *)
Lemma recordPods_lookup (image : string) (pods : list Pod) :
  forall images : gmap string (list podDetails),
    recordPods images pods !! image = extend (images !! image) (occurrences image pods).
Proof.
  unfold recordPods, occurrences.
  induction pods as [|pod pods IH]; intros images; simpl; [reflexivity|].
  rewrite IH. unfold recordPod. rewrite recordContainers_lookup, extend_extend.
  reflexivity.
Qed.

Lemma queryAllContainerImageRefsInCluster_returns (env : Env) (pods : list Pod)
    (c : Config) (w : World) :
  k8s_PodsList env = inr pods ->
  exists w',
    queryAllContainerImageRefsInCluster env (c, w)
    = ((setDockerImages (recordPods (dockerImages c) pods) c, w'), Ok tt)
    /\ files w' = files w /\ dockerCalls w' = dockerCalls w.
Proof.
  intros Hp. unfold queryAllContainerImageRefsInCluster. rewrite Hp.
  eexists. split; [reflexivity|]. split; reflexivity.
Qed.

(** C4: after the scan of a pod list into the empty image map, every image
    string has at most one entry, an image has an entry exactly when some
    container references it, and the entry lists one (podName, containerName,
    namespace) tuple per occurrence in discovery order; two pods that run the
    same image give a single entry with two tuples. *)
Theorem queryAllContainerImageRefsInCluster_deduplicates
    (env : Env) (pods : list Pod) (c : Config) (w : World) :
  k8s_PodsList env = inr pods ->
  dockerImages c = ∅ ->
  exists w' images,
    queryAllContainerImageRefsInCluster env (c, w) = ((setDockerImages images c, w'), Ok tt)
    /\ NoDup (map fst (map_to_list images))
    /\ (forall image details,
          (image, details) ∈ map_to_list images
          <-> details = occurrences image pods /\ details <> [])
    /\ (forall pod1 pod2 container1 container2,
          pods = [pod1; pod2] ->
          Pod_Spec_Containers pod1 = [container1] ->
          Pod_Spec_Containers pod2 = [container2] ->
          Container_Image container1 = Container_Image container2 ->
          map_to_list images
          = [(Container_Image container1,
              [detailsOf pod1 container1; detailsOf pod2 container2])]).
Proof.
  intros Hp Hempty.
  destruct (queryAllContainerImageRefsInCluster_returns env pods c w Hp) as (w' & Hrun & _).
  rewrite Hempty in Hrun.
  exists w', (recordPods ∅ pods). split; [exact Hrun|].
  assert (Hlookup : forall image,
             recordPods ∅ pods !! image = extend None (occurrences image pods)).
  { intros image. rewrite recordPods_lookup, lookup_empty. reflexivity. }
  split; [apply NoDup_fst_map_to_list|]. split.
  - intros image details. rewrite elem_of_map_to_list, Hlookup.
    destruct (occurrences image pods) as [|pd l]; simpl.
    + split; [discriminate | intros [-> Hne]; congruence].
    + split; [intros [= <-]; split; [reflexivity | discriminate] | intros [-> _]; reflexivity].
  - intros pod1 pod2 container1 container2 -> Hc1 Hc2 Himg.
    assert (Hmap : recordPods ∅ [pod1; pod2]
                   = {[ Container_Image container1 :=
                          [detailsOf pod1 container1; detailsOf pod2 container2] ]}).
    { unfold recordPods, recordPod. simpl. rewrite Hc1, Hc2. simpl.
      unfold recordContainer. rewrite lookup_empty. simpl.
      rewrite <- Himg, lookup_insert_eq. simpl.
      rewrite insert_insert_eq. reflexivity. }
    rewrite Hmap. apply map_to_list_singleton.
Qed.

Lemma queryAllContainerImageRefsInCluster_deduplicates_witness :
  k8s_PodsList twoPodsEnv = inr twoPods
  /\ dockerImages sampleConfig = ∅
  /\ exists w' images,
       queryAllContainerImageRefsInCluster twoPodsEnv (sampleConfig, emptyWorld)
       = ((setDockerImages images sampleConfig, w'), Ok tt)
       /\ map_to_list images
          = [("1.dkr.ecr.eu-west-1.amazonaws.com/api:1",
              [ {| podName := "api-1"; containerName := "api"; namespace := "prod" |};
                {| podName := "api-2"; containerName := "api"; namespace := "prod" |} ])].
Proof.
  split; [reflexivity|]. split; [reflexivity|].
  destruct (queryAllContainerImageRefsInCluster_deduplicates twoPodsEnv twoPods
              sampleConfig emptyWorld eq_refl eq_refl)
    as (w' & images & Hrun & _ & _ & Htwo).
  exists w', images. split; [exact Hrun|].
  apply (Htwo _ _ _ _ eq_refl eq_refl eq_refl eq_refl).
Defined.

(** ** The pull *)

Lemma pullImage_unfold (fuel : nat) (env : Env) (imageReference : string)
    (c : Config) (w : World) :
  pullImage fuel env imageReference (c, w)
  = match pullOptionsFor c imageReference with
    | None => ((c, w), Err (ErrUnsupportedECRRegion (ecrRegions c)))
    | Some pullOptions =>
        let w' := withCall (CallImagePull imageReference pullOptions) w in
        match docker_ImagePull env imageReference pullOptions with
        | inl cause => ((c, w'), Err (ErrPullingImage imageReference cause))
        | inr events =>
            ((c, w'),
             pullLoop fuel imageReference (time_Now env imageReference)
               (time_Now env imageReference 0%nat + tenMinutes)%Z 1 events None)
        end
    end.
Proof.
  unfold pullImage, pullOptionsFor, bind, getConfig. simpl.
  destruct (Contains imageReference "amazonaws.com").
  - destruct (fold_left _ _ _) as [pullOptions foundRegion].
    destruct foundRegion; simpl; [|reflexivity].
    destruct (docker_ImagePull env imageReference pullOptions); reflexivity.
  - simpl. destruct (docker_ImagePull env imageReference zeroPullOptions); reflexivity.
Qed.

(** The condition of the loop is the one the specification names. *)
Lemma statusIsTerminal_announcesCompletion (e : Event) :
  statusIsTerminal e = announcesCompletion (Status e).
Proof. reflexivity. Qed.

Section PullLoop.
Context (imageReference : string) (now : nat -> Z) (timeout : Z).

(** The loop returns nil exactly when a terminal status is decoded at some
    turn [n], every check of the deadline up to that turn having passed. *)
Lemma pullLoop_Ok_iff (fuel : nat) : forall k d event,
  notTerminal event ->
  pullLoop fuel imageReference now timeout k d event = Ok tt
  <-> exists n, (n < fuel)%nat /\ terminalAt d event n = true
                /\ forall i, (i <= n)%nat -> (now (k + i)%nat <= timeout)%Z.
Proof.
  induction fuel as [|fuel IH]; intros k d event Hev.
  - simpl. split; [discriminate | intros (n & Hlt & _); lia].
  - simpl. destruct (Z.ltb_spec timeout (now k)) as [Hpast|Hin].
    { split; [discriminate|]. intros (n & _ & _ & Hclock).
      specialize (Hclock 0%nat ltac:(lia)). rewrite Nat.add_0_r in Hclock. lia. }
    assert (Hshift : forall d' e,
               announcesCompletion (Status e) = false ->
               pullLoop fuel imageReference now timeout (S k) d' (Some e) = Ok tt
               <-> exists n, (n < fuel)%nat /\ terminalAt d' (Some e) n = true
                    /\ forall i, (i <= S n)%nat -> (now (k + i)%nat <= timeout)%Z).
    { intros d' e He. rewrite (IH (S k) d' (Some e) He).
      split; intros (n & Hlt & Ht & Hclock); exists n; (split; [exact Hlt|]);
        (split; [exact Ht|]).
      - intros [|i] Hi; [rewrite Nat.add_0_r; exact Hin|].
        replace (k + S i)%nat with (S k + i)%nat by lia. apply Hclock. lia.
      - intros i Hi. replace (S k + i)%nat with (k + S i)%nat by lia.
        apply Hclock. lia. }
    destruct d as [|[v|cause|] d'].
    + destruct event as [e|]; simpl in Hev.
      * rewrite statusIsTerminal_announcesCompletion, Hev, (Hshift [] e Hev).
        split; intros (n & _ & Ht & _); discriminate.
      * split; [discriminate | intros (n & _ & Ht & _); discriminate].
    + simpl. destruct (Decode v event) as [e|] eqn:Hdec.
      * rewrite statusIsTerminal_announcesCompletion.
        destruct (announcesCompletion (Status e)) eqn:He.
        -- split; [intros _ | reflexivity].
           exists 0%nat. split; [lia|]. split; [reflexivity|].
           intros i Hi. replace i with 0%nat by lia. rewrite Nat.add_0_r. exact Hin.
        -- rewrite (Hshift d' e He). split.
           ++ intros (n & Hlt & Ht & Hclock). exists (S n).
              split; [lia|]. split; [exact Ht | exact Hclock].
           ++ intros ([|n] & Hlt & Ht & Hclock); [discriminate|].
              exists n. split; [lia|]. split; [exact Ht | exact Hclock].
      * split; [discriminate | intros (n & _ & Ht & _); discriminate].
    + split; [discriminate | intros (n & _ & Ht & _); discriminate].
    + split; [discriminate | intros (n & _ & Ht & _); discriminate].
Qed.

(** At the end of the stream the loop spins on [io.EOF] until the deadline
    has passed. *)
Lemma pullLoop_spins_until_timeout (e : Event) (n : nat) : forall fuel k,
  statusIsTerminal e = false ->
  (forall i, (i < n)%nat -> (now (k + i)%nat <= timeout)%Z) ->
  (timeout < now (k + n)%nat)%Z ->
  (n < fuel)%nat ->
  pullLoop fuel imageReference now timeout k [] (Some e) = Err (ErrTimedOut imageReference).
Proof.
  induction n as [|n IH]; intros fuel k He Hin Hpast Hfuel;
    (destruct fuel as [|fuel]; [lia|]); simpl.
  - rewrite Nat.add_0_r in Hpast.
    destruct (Z.ltb_spec timeout (now k)); [reflexivity | lia].
  - pose proof (Hin 0%nat ltac:(lia)) as H0. rewrite Nat.add_0_r in H0.
    destruct (Z.ltb_spec timeout (now k)); [lia|].
    rewrite He. apply IH; [exact He | | | lia].
    + intros i Hi. replace (S k + i)%nat with (k + S i)%nat by lia. apply Hin. lia.
    + replace (S k + n)%nat with (k + S n)%nat by lia. exact Hpast.
Qed.

(** A stream that never shows a terminal status, whose reads all return and
    on which nothing fails to decode, ends in the timeout error at the first
    check after the deadline. *)
Lemma pullLoop_quiet_times_out (d : list decodeStep) : forall event n fuel k,
  quiet d event = true ->
  match event with Some e => statusIsTerminal e = false | None => d <> [] end ->
  (forall i, (i < n)%nat -> (now (k + i)%nat <= timeout)%Z) ->
  (timeout < now (k + n)%nat)%Z ->
  (n < fuel)%nat ->
  pullLoop fuel imageReference now timeout k d event = Err (ErrTimedOut imageReference).
Proof.
  induction d as [|[v|cause|] d' IH]; intros event n fuel k Hq Hev Hin Hpast Hfuel.
  - destruct event as [e|]; [|congruence].
    eapply pullLoop_spins_until_timeout; eauto.
  - destruct fuel as [|fuel]; [lia|]. simpl in Hq |- *.
    destruct n as [|n].
    + rewrite Nat.add_0_r in Hpast.
      destruct (Z.ltb_spec timeout (now k)); [reflexivity | lia].
    + pose proof (Hin 0%nat ltac:(lia)) as H0. rewrite Nat.add_0_r in H0.
      destruct (Z.ltb_spec timeout (now k)); [lia|].
      destruct (Decode v event) as [e|]; [|discriminate].
      apply andb_true_iff in Hq as [He Hq]. apply negb_true_iff in He.
      rewrite statusIsTerminal_announcesCompletion, He.
      apply (IH (Some e) n); [exact Hq | exact He | | | lia].
      * intros i Hi. replace (S k + i)%nat with (k + S i)%nat by lia. apply Hin. lia.
      * replace (S k + n)%nat with (k + S n)%nat by lia. exact Hpast.
  - discriminate.
  - discriminate.
Qed.

(** A decode error other than [io.EOF] is returned before the event is
    looked at. *)
Lemma pullLoop_decode_failure (fuel k : nat) (cause : string) (d : list decodeStep)
    (event : option Event) :
  (now k <= timeout)%Z ->
  pullLoop (S fuel) imageReference now timeout k (DecodeFails cause :: d) event
  = Err (ErrDecodingPullOutput cause).
Proof.
  intros Hin. simpl. destruct (Z.ltb_spec timeout (now k)); [lia | reflexivity].
Qed.

(** So it is after events without a terminal status, as long as the deadline
    has not passed. *)
Lemma pullLoop_decode_failure_after (pre rest : list decodeStep) (cause : string) :
  forall event fuel k,
    quiet pre event = true ->
    (forall i, (i <= List.length pre)%nat -> (now (k + i)%nat <= timeout)%Z) ->
    (List.length pre < fuel)%nat ->
    pullLoop fuel imageReference now timeout k (pre ++ DecodeFails cause :: rest) event
    = Err (ErrDecodingPullOutput cause).
Proof.
  induction pre as [|[v|cause'|] pre IH]; intros event fuel k Hq Hin Hfuel;
    (destruct fuel as [|fuel]; [simpl in Hfuel; lia|]);
    pose proof (Hin 0%nat ltac:(lia)) as H0; rewrite Nat.add_0_r in H0;
    simpl; (destruct (Z.ltb_spec timeout (now k)); [lia|]).
  - reflexivity.
  - simpl in Hq. destruct (Decode v event) as [e|]; [|discriminate].
    apply andb_true_iff in Hq as [He Hq]. apply negb_true_iff in He.
    rewrite statusIsTerminal_announcesCompletion, He.
    apply IH; [exact Hq | | simpl in Hfuel; lia].
    intros i Hi. replace (S k + i)%nat with (k + S i)%nat by lia. apply Hin. simpl. lia.
  - discriminate.
  - discriminate.
Qed.

(** [io.EOF] with the pointer still nil: the status is read through it. *)
Lemma pullLoop_end_of_stream_nil (fuel k : nat) :
  (now k <= timeout)%Z ->
  pullLoop (S fuel) imageReference now timeout k [] None = Panic NilDereference.
Proof.
  intros Hin. simpl. destruct (Z.ltb_spec timeout (now k)); [lia | reflexivity].
Qed.

End PullLoop.




(** C2: when the stream reaches its end before any event was decoded,
    [Decode] reports [io.EOF], the loop goes on to read the status through
    the pointer that is still nil, and the call panics with a nil dereference
    instead of returning an error. *)
Theorem pullImage_nil_dereference_at_end_of_stream
    (fuel : nat) (env : Env) (imageReference : string) (c : Config) (w : World)
    (pullOptions : ImagePullOptions) :
  pullOptionsFor c imageReference = Some pullOptions ->
  docker_ImagePull env imageReference pullOptions = inr [] ->
  (time_Now env imageReference 1%nat <= time_Now env imageReference 0%nat + tenMinutes)%Z ->
  pullImage (S fuel) env imageReference (c, w)
  = ((c, withCall (CallImagePull imageReference pullOptions) w), Panic NilDereference).
Proof.
  intros Hopts Hpull Hclock.
  rewrite pullImage_unfold, Hopts. cbv zeta. rewrite Hpull.
  rewrite pullLoop_end_of_stream_nil by exact Hclock. reflexivity.
Qed.

Lemma pullImage_nil_dereference_at_end_of_stream_witness :
  pullOptionsFor sampleConfig "tomcat:9" = Some zeroPullOptions
  /\ docker_ImagePull silentEnv "tomcat:9" zeroPullOptions = inr []
  /\ (time_Now silentEnv "tomcat:9" 1%nat <= time_Now silentEnv "tomcat:9" 0%nat + tenMinutes)%Z
  /\ snd (pullImage 1 silentEnv "tomcat:9" (sampleConfig, emptyWorld)) = Panic NilDereference.
Proof.
  split; [reflexivity|]. split; [reflexivity|]. split; [discriminate|].
  rewrite (pullImage_nil_dereference_at_end_of_stream 0 silentEnv "tomcat:9"
             sampleConfig emptyWorld zeroPullOptions eq_refl eq_refl);
    [reflexivity | discriminate].
Defined.

(** ** The choice of the registry credential *)

Lemma selectRegion_fold (c : Config) (imageReference : string) (regions : list string) :
  forall acc,
    fold_left (selectRegion c imageReference) regions acc
    = match last (filter (fun region => Contains imageReference (ecrHostPattern region) = true)
                         regions) with
      | Some region =>
          ({| RegistryAuth := default EmptyString (ecrCredentials c !! region) |}, true)
      | None => acc
      end.
Proof.
  induction regions as [|r rs IH]; intros acc; simpl; [reflexivity|].
  rewrite IH. unfold selectRegion.
  destruct (Contains imageReference (ecrHostPattern r)) eqn:Hm.
  - rewrite filter_cons_True by exact Hm. rewrite last_cons.
    destruct (last _); reflexivity.
  - rewrite filter_cons_False by (rewrite Hm; discriminate). reflexivity.
Qed.

Lemma pullOptionsFor_private (c : Config) (imageReference : string) :
  Contains imageReference "amazonaws.com" = true ->
  pullOptionsFor c imageReference
  = match last (matchingRegions c imageReference) with
    | Some region =>
        Some {| RegistryAuth := default EmptyString (ecrCredentials c !! region) |}
    | None => None
    end.
Proof.
  intros Hp. unfold pullOptionsFor, matchingRegions. rewrite Hp, selectRegion_fold.
  destruct (last _); reflexivity.
Qed.

(** X26: what [pullImage] does for an image reference that contains
    "amazonaws.com".  It asks the daemon for the image with the credential of
    the last configured region whose pattern dkr.ecr.<region>.amazonaws.com
    occurs in the reference, wherever it occurs (the one matching region, when
    there is only one); when no configured region matches it returns the
    "unsupported ECR image region" error and the daemon is not called. *)
Theorem pullImage_attaches_matching_region_credential
    (fuel : nat) (env : Env) (imageReference : string) (c : Config) (w : World) :
  Contains imageReference "amazonaws.com" = true ->
  let matching :=
    filter (fun region =>
              Contains imageReference ("dkr.ecr." +:+ region +:+ ".amazonaws.com") = true)
           (ecrRegions c) in
  (matching = [] ->
   pullImage fuel env imageReference (c, w)
   = ((c, w), Err (ErrUnsupportedECRRegion (ecrRegions c))))
  /\ (forall region,
        last matching = Some region ->
        exists result,
          pullImage fuel env imageReference (c, w)
          = ((c, withCall (CallImagePull imageReference
                             {| RegistryAuth :=
                                  default EmptyString (ecrCredentials c !! region) |}) w),
             result)
          /\ result <> Err (ErrUnsupportedECRRegion (ecrRegions c))).
Proof.
  intros Hp matching.
  change matching with (matchingRegions c imageReference). clear matching. split.
  - intros Hnone. rewrite pullImage_unfold, (pullOptionsFor_private _ _ Hp), Hnone.
    reflexivity.
  - intros region Hlast.
    rewrite pullImage_unfold, (pullOptionsFor_private _ _ Hp), Hlast. simpl.
    destruct (docker_ImagePull env imageReference _) as [cause|events].
    + eexists. split; [reflexivity | discriminate].
    + eexists. split; [reflexivity|].
      generalize 1%nat (@None Event).
      generalize (time_Now env imageReference 0%nat + tenMinutes)%Z.
      intros timeout k event.
      revert k events event. induction fuel as [|fuel IH]; intros k events event; simpl.
      * discriminate.
      * destruct (_ <? _)%Z; [discriminate|].
        destruct events as [|[v|cause|] events].
        -- destruct event as [e|]; [|discriminate].
           destruct (statusIsTerminal e); [discriminate | apply IH].
        -- destruct (Decode v event) as [e|]; [|discriminate].
           destruct (statusIsTerminal e); [discriminate | apply IH].
        -- discriminate.
        -- discriminate.
Qed.

Lemma pullImage_attaches_matching_region_credential_witness :
  Contains "1.dkr.ecr.eu-west-1.amazonaws.com/api:1" "amazonaws.com" = true
  /\ dockerCalls (snd (fst (pullImage 5 sampleEnv "1.dkr.ecr.eu-west-1.amazonaws.com/api:1"
                              (sampleConfig, emptyWorld))))
     = [CallImagePull "1.dkr.ecr.eu-west-1.amazonaws.com/api:1"
          {| RegistryAuth := "cred-eu-west-1" |}]
  /\ Contains "9.dkr.ecr.us-east-1.amazonaws.com/eu-west-1/api:1" "amazonaws.com" = true
  /\ pullImage 5 sampleEnv "9.dkr.ecr.us-east-1.amazonaws.com/eu-west-1/api:1"
       (sampleConfig, emptyWorld)
     = ((sampleConfig, emptyWorld), Err (ErrUnsupportedECRRegion ["eu-west-1"; "eu-west-2"])).
Proof.
  split; [reflexivity|]. split; [|split; [reflexivity|]].
  - destruct (pullImage_attaches_matching_region_credential 5 sampleEnv
                "1.dkr.ecr.eu-west-1.amazonaws.com/api:1" sampleConfig emptyWorld eq_refl)
      as [_ Hfound].
    destruct (Hfound "eu-west-1" eq_refl) as (result & -> & _). reflexivity.
  - apply (pullImage_attaches_matching_region_credential 5 sampleEnv
             "9.dkr.ecr.us-east-1.amazonaws.com/eu-west-1/api:1" sampleConfig emptyWorld
             eq_refl).
    reflexivity.
Defined.

(** C5: the claim fails on the code.  The image below is kept in the registry
    of eu-west-1, a configured region, in a repository whose path names the
    registry of eu-west-2, configured as well.  The test for the pattern looks
    at the whole reference and the loop over the regions does not stop at the
    first match: the pull is made with the credential of eu-west-2, not with
    that of the region of the registry host.  (A path that names the other
    region without the whole pattern does no harm.) *)
Theorem pullImage_host_region_credential_not_attached :
  mirroredImage
  = "1.dkr.ecr.eu-west-1.amazonaws.com/mirror/2.dkr.ecr.eu-west-2.amazonaws.com/app:1"
  /\ registryHost mirroredImage = "1.dkr.ecr.eu-west-1.amazonaws.com"
  /\ ecrRegions sampleConfig = ["eu-west-1"; "eu-west-2"]
  /\ ecrCredentials sampleConfig !! "eu-west-1" = Some "cred-eu-west-1"
  /\ ecrCredentials sampleConfig !! "eu-west-2" = Some "cred-eu-west-2"
  /\ pullImage 5 sampleEnv mirroredImage (sampleConfig, emptyWorld)
     = ((sampleConfig,
         withCall (CallImagePull mirroredImage {| RegistryAuth := "cred-eu-west-2" |})
           emptyWorld),
        Ok tt)
  /\ pullImage 5 sampleEnv "1.dkr.ecr.eu-west-1.amazonaws.com/eu-west-2/app:1"
       (sampleConfig, emptyWorld)
     = ((sampleConfig,
         withCall (CallImagePull "1.dkr.ecr.eu-west-1.amazonaws.com/eu-west-2/app:1"
                     {| RegistryAuth := "cred-eu-west-1" |})
           emptyWorld),
        Ok tt).
Proof.
  repeat split; reflexivity.
Qed.

(** ** Credential provisioning *)

Lemma prefix_separator (sep c : ascii) (s : string) :
  String.prefix (String sep EmptyString) (String c s) = Ascii.eqb c sep.
Proof.
  simpl. destruct (ascii_dec sep c) as [->|Hne].
  - rewrite Ascii.eqb_refl. destruct s; reflexivity.
  - symmetry. apply Ascii.eqb_neq. congruence.
Qed.

(** Text without the separator is not split. *)
Lemma Split_without_separator (s : string) (sep : ascii) :
  Contains s (String sep EmptyString) = false -> Split s sep = [s].
Proof.
  induction s as [|c s IH]; [reflexivity|].
  cbn [Contains]. rewrite prefix_separator. intros H.
  apply orb_false_iff in H as [Hc Hs]. cbn [Split]. rewrite Hc, (IH Hs). reflexivity.
Qed.

(** Text with the separator has a second part. *)
Lemma Split_with_separator (s : string) (sep : ascii) :
  Contains s (String sep EmptyString) = true -> is_Some (Split s sep !! 1%nat).
Proof.
  induction s as [|c s IH]; [discriminate|].
  cbn [Contains]. rewrite prefix_separator. intros H. cbn [Split].
  destruct (Ascii.eqb c sep).
  - pose proof (Split_nonempty s sep). destruct (Split s sep) as [|w ws]; [congruence|].
    simpl. eauto.
  - simpl in H. destruct (IH H) as [p Hp].
    destruct (Split s sep) as [|w [|w' ws]]; try discriminate. simpl. eauto.
Qed.

Lemma provisionCredentials_app (env : Env) (rt : Runtime) (profile : string)
    (pre post : list string) : forall creds,
  provisionCredentials env rt profile (pre ++ post) creds
  = match provisionCredentials env rt profile pre creds with
    | Ok creds' => provisionCredentials env rt profile post creds'
    | Err e => Err e
    | Panic p => Panic p
    | OutOfFuel => OutOfFuel
    end.
Proof.
  induction pre as [|r pre IH]; intros creds; simpl; [reflexivity|].
  destruct (aws_LoadDefaultConfig env profile r); [reflexivity|].
  destruct (ecr_GetAuthorizationToken env profile r) as [cause|[|[token|] more]];
    try reflexivity.
  destruct (base64_DecodeString rt token) as [cause|decodedToken]; [reflexivity|].
  destruct (Split decodedToken ":" !! 1%nat) as [password|]; [|reflexivity].
  destruct (json_Marshal rt _) as [cause|jsonBytes]; [reflexivity|].
  apply IH.
Qed.

(** The keys of the credential map after the loop over the regions. *)
Lemma provisionCredentials_dom (env : Env) (rt : Runtime) (profile : string)
    (regions : list string) : forall creds creds',
  provisionCredentials env rt profile regions creds = Ok creds' ->
  dom creds' = dom creds ∪ list_to_set regions.
Proof.
  induction regions as [|r rs IH]; intros creds creds'; simpl.
  - intros [= <-]. rewrite (right_id_L ∅ (∪)). reflexivity.
  - destruct (aws_LoadDefaultConfig env profile r); [discriminate|].
    destruct (ecr_GetAuthorizationToken env profile r) as [cause|[|[token|] more]];
      try discriminate.
    destruct (base64_DecodeString rt token) as [cause|decodedToken]; [discriminate|].
    destruct (Split decodedToken ":" !! 1%nat) as [password|]; [|discriminate].
    destruct (json_Marshal rt _) as [cause|jsonBytes]; [discriminate|].
    intros H. rewrite (IH _ _ H), dom_insert_L.
    rewrite (assoc_L (∪) (dom creds)), (comm_L (∪) (dom creds) {[r]}). reflexivity.
Qed.

Lemma provisionCredentials_returns (env : Env) (rt : Runtime) (profile : string)
    (regions : list string) : forall creds,
  (forall region, In region regions -> regionProvisionable env rt profile region) ->
  exists creds', provisionCredentials env rt profile regions creds = Ok creds'.
Proof.
  induction regions as [|r rs IH]; intros creds Hall; simpl; [eauto|].
  destruct (Hall r (or_introl eq_refl))
    as (-> & token & more & decodedToken & password & jsonBytes & -> & -> & -> & ->).
  apply IH. intros region Hin. apply Hall. right. exact Hin.
Qed.

Lemma NewConfig_Ok_inv (env : Env) (rt : Runtime) (keywords : list string)
    (clusterAccountProfile imagesAccountProfile : string) (regions : list string)
    (cfg : Config) :
  NewConfig env rt keywords clusterAccountProfile imagesAccountProfile regions = Ok cfg ->
  provisionCredentials env rt imagesAccountProfile regions ∅ = Ok (ecrCredentials cfg)
  /\ ecrRegions cfg = regions /\ dockerImages cfg = ∅ /\ offendingDockerImages cfg = []
  /\ dockerImageKeyWords cfg = keywords.
Proof.
  unfold NewConfig.
  destruct (provisionCredentials env rt imagesAccountProfile regions ∅) as [creds| | |];
    try discriminate.
  destruct (docker_NewClientWithOpts env); [discriminate|].
  destruct (k8s_buildConfigWithContextFromFlags env clusterAccountProfile); [discriminate|].
  destruct (k8s_NewForConfig env); [discriminate|].
  intros [= <-]. simpl. auto.
Qed.

(** C10: when the token of a region decodes to text without a colon --- the
    regions before it having been provisioned --- [NewConfig] indexes the split
    result past its end and panics instead of returning an error; a token with
    a colon has the second part that the index reads. *)
Theorem NewConfig_index_out_of_range_without_colon
    (env : Env) (rt : Runtime) (keywords : list string)
    (clusterAccountProfile imagesAccountProfile : string)
    (before after : list string) (region token decodedToken : string)
    (more : list (option string)) :
  (forall r, In r before -> regionProvisionable env rt imagesAccountProfile r) ->
  aws_LoadDefaultConfig env imagesAccountProfile region = None ->
  ecr_GetAuthorizationToken env imagesAccountProfile region = inr (Some token :: more) ->
  base64_DecodeString rt token = inr decodedToken ->
  (Contains decodedToken ":" = false ->
   NewConfig env rt keywords clusterAccountProfile imagesAccountProfile
     (before ++ region :: after) = Panic IndexOutOfRange)
  /\ (Contains decodedToken ":" = true ->
      is_Some (Split decodedToken ":"%char !! 1%nat)).
Proof.
  intros Hbefore Hload Htoken Hdecode. split.
  - intros Hcolon. unfold NewConfig. rewrite provisionCredentials_app.
    destruct (provisionCredentials_returns env rt imagesAccountProfile before ∅ Hbefore)
      as [creds ->].
    simpl. rewrite Hload, Htoken, Hdecode, (Split_without_separator _ _ Hcolon).
    reflexivity.
  - apply Split_with_separator.
Qed.

Lemma NewConfig_index_out_of_range_without_colon_witness :
  (forall r, In r ["eu-west-1"] -> regionProvisionable bareTokenEnv sampleRuntime "production" r)
  /\ base64_DecodeString sampleRuntime "opaque-token" = inr "opaque-token"
  /\ Contains "opaque-token" ":" = false
  /\ NewConfig bareTokenEnv sampleRuntime ["jdk-14"] "prod-cluster" "production"
       ["eu-west-1"; "eu-west-2"] = Panic IndexOutOfRange.
Proof.
  assert (Hbefore : forall r, In r ["eu-west-1"] ->
                              regionProvisionable bareTokenEnv sampleRuntime "production" r).
  { intros r [<-|[]]. split; [reflexivity|].
    exists "AWS:secret-eu-west-1", [], "AWS:secret-eu-west-1", "secret-eu-west-1".
    eexists. repeat split. }
  split; [exact Hbefore|]. split; [reflexivity|]. split; [reflexivity|].
  apply (NewConfig_index_out_of_range_without_colon bareTokenEnv sampleRuntime ["jdk-14"]
           "prod-cluster" "production" ["eu-west-1"] [] "eu-west-2" "opaque-token"
           "opaque-token" [] Hbefore eq_refl eq_refl eq_refl).
  reflexivity.
Defined.

(** ** Frame properties *)

Section Frame.
Context (R : Config * World -> Config * World -> Prop) `{!PreOrder R}.

Lemma framed_ret {A} (a : A) : framed R (ret a).
Proof. intros st. reflexivity. Qed.

Lemma framed_fail {A} (e : error) : framed R (@fail A e).
Proof. intros st. reflexivity. Qed.

Lemma framed_lift {A} (o : outcome A) : framed R (lift o).
Proof. intros st. reflexivity. Qed.

Lemma framed_getConfig : framed R getConfig.
Proof. intros st. reflexivity. Qed.

Lemma framed_bind {A B} (c : M A) (k : A -> M B) :
  framed R c -> (forall a, framed R (k a)) -> framed R (bind c k).
Proof.
  intros Hc Hk st. unfold bind. specialize (Hc st).
  destruct (c st) as [st' [a| | |]]; simpl in *; try exact Hc.
  etransitivity; [exact Hc | apply Hk].
Qed.

Lemma framed_forEach {A} (l : list A) (body : A -> M unit) :
  (forall a, framed R (body a)) -> framed R (forEach l body).
Proof.
  intros Hbody. induction l; simpl; [apply framed_ret|].
  apply framed_bind; [apply Hbody | intros _; assumption].
Qed.

Lemma framed_foldM {A S} (body : S -> A -> M S) (l : list A) :
  (forall s a, framed R (body s a)) -> forall s, framed R (foldM body l s).
Proof.
  intros Hbody. induction l; intros s; simpl; [apply framed_ret|].
  apply framed_bind; [apply Hbody | intros s'; apply IHl].
Qed.

Lemma framed_writeLine (env : Env) (path image : string) (groups : list string) :
  (forall data, framed R (WriteString env path data)) ->
  framed R (writeLine env path image groups).
Proof.
  intros Hwrite. unfold writeLine.
  apply framed_bind; [apply Hwrite | intros _].
  apply framed_bind.
  - apply framed_forEach. intros g.
    apply framed_bind; [apply Hwrite | intros _; apply framed_ret].
  - intros _. apply framed_bind; [apply Hwrite|].
    intros [cause|]; [apply framed_fail | apply framed_ret].
Qed.

(** The steps that only print, or only note a call to the daemon, are
    assumed to respect the relation. *)
Context (R_print : forall l, framed R (print l))
        (R_recordCall : forall call, framed R (recordCall call)).

Lemma framed_pullImage (fuel : nat) (env : Env) (imageReference : string) :
  framed R (pullImage fuel env imageReference).
Proof.
  unfold pullImage. apply framed_bind; [apply framed_getConfig | intros c].
  apply framed_bind.
  - destruct (Contains imageReference "amazonaws.com"); [|apply framed_ret].
    destruct (fold_left _ _ _) as [pullOptions foundRegion].
    destruct (negb foundRegion); [apply framed_fail | apply framed_ret].
  - intros pullOptions. apply framed_bind; [apply R_recordCall | intros _].
    destruct (docker_ImagePull env imageReference pullOptions);
      [apply framed_fail | apply framed_lift].
Qed.

Lemma framed_checkImageHistoryForKeyWords (env : Env) (rt : Runtime) (imageRef' : string) :
  framed R (checkImageHistoryForKeyWords env rt imageRef').
Proof.
  unfold checkImageHistoryForKeyWords.
  apply framed_bind; [apply framed_getConfig | intros c].
  apply framed_bind; [apply R_recordCall | intros _].
  destruct (docker_ImageHistory env imageRef'); [apply framed_fail|].
  apply framed_foldM. intros result h. unfold checkLayer.
  apply framed_foldM. intros result' keyword. unfold checkKeyword.
  destruct (keywordMatches rt h keyword); [|apply framed_ret].
  apply framed_bind; [apply R_print | intros _; apply framed_ret].
Qed.

Lemma framed_cleanupImage (env : Env) (imageReference : string) :
  framed R (cleanupImage env imageReference).
Proof.
  unfold cleanupImage. apply framed_bind; [apply R_recordCall | intros _].
  destruct (docker_ImageRemove env imageReference); [apply framed_fail | apply framed_ret].
Qed.

(** The loop over the images, for a relation that also allows a result to
    be added to the offending images. *)
Lemma framed_processImage (fuel : nat) (env : Env) (rt : Runtime)
    (totalUniqueImages count : nat) (image : string) :
  (forall result,
      framed R (modifyConfig (fun c =>
        setOffendingDockerImages (offendingDockerImages c ++ [result])%list c))) ->
  framed R (processImage fuel env rt totalUniqueImages count image).
Proof.
  intros Happend. unfold processImage.
  apply framed_bind; [apply R_print | intros _].
  apply framed_bind; [apply framed_pullImage | intros _].
  apply framed_bind; [apply framed_checkImageHistoryForKeyWords | intros result].
  apply framed_bind; [destruct (matchFound result); [apply Happend | apply framed_ret]|].
  intros _. apply framed_bind; [apply framed_cleanupImage | intros _; apply framed_ret].
Qed.

End Frame.

#[local] Instance sameCredentials_preorder : PreOrder sameCredentials.
Proof.
  split; [intros st; reflexivity|].
  intros st1 st2 st3 H1 H2. unfold sameCredentials in *. congruence.
Qed.

#[local] Instance onlyFile_preorder (path : string) : PreOrder (onlyFile path).
Proof.
  split.
  - intros st. split; [reflexivity|]. split; [auto|].
    exists []. rewrite app_nil_r. reflexivity.
  - intros st1 st2 st3 (Hc1 & Hf1 & l1 & Hp1) (Hc2 & Hf2 & l2 & Hp2).
    split; [congruence|]. split.
    + intros q Hq. rewrite Hf2, Hf1 by exact Hq. reflexivity.
    + exists (l1 ++ l2)%list. rewrite Hp2, Hp1, app_assoc. reflexivity.
Qed.

#[local] Instance onlyOffending_preorder : PreOrder onlyOffending.
Proof.
  split; [intros st; repeat split|].
  intros st1 st2 st3 (Hf1 & Hk1 & Hi1 & Hn1) (Hf2 & Hk2 & Hi2 & Hn2).
  repeat split; congruence.
Qed.

(** Proof steps for goals [framed R m], with the relation read off the goal. *)
Ltac frame_bind :=
  match goal with
  | |- framed ?R (bind _ _) => apply (framed_bind R); [|intros ?]
  end.

Ltac frame_leaf :=
  match goal with
  | |- framed ?R _ =>
      first [ apply (framed_ret R) | apply (framed_fail R)
            | apply (framed_lift R) | apply (framed_getConfig R) ]
  end.

Ltac frame_loop :=
  match goal with
  | |- framed ?R (forEach _ _) => apply (framed_forEach R); intros ?
  | |- framed ?R (foldM _ _ _) => apply (framed_foldM R); intros ? ?
  | |- framed ?R (writeLine _ _ _ _) => apply (framed_writeLine R); intros ?
  end.

Lemma sameCredentials_modifyWorld (f : World -> World) :
  framed sameCredentials (modifyWorld f).
Proof. intros st. reflexivity. Qed.

Lemma sameCredentials_OpenFile (env : Env) (path : string) :
  framed sameCredentials (OpenFile env path).
Proof. unfold OpenFile. intros st. destruct (os_OpenFile env path); reflexivity. Qed.

Lemma sameCredentials_WriteString (env : Env) (path data : string) :
  framed sameCredentials (WriteString env path data).
Proof.
  unfold WriteString. intros st. destruct (file_WriteString env path data); reflexivity.
Qed.

Lemma sameCredentials_queryAllContainerImageRefsInCluster (env : Env) :
  framed sameCredentials (queryAllContainerImageRefsInCluster env).
Proof.
  unfold queryAllContainerImageRefsInCluster. intros st.
  destruct (k8s_PodsList env); reflexivity.
Qed.

Lemma sameCredentials_outputOffendingImages (env : Env) (rt : Runtime) :
  framed sameCredentials (outputOffendingImages env rt).
Proof.
  unfold outputOffendingImages. frame_bind; [frame_leaf|]. cbv zeta.
  destruct (0 <? _)%nat; [|apply sameCredentials_modifyWorld].
  frame_bind; [apply sameCredentials_OpenFile|].
  destruct a0 as [cause|]; [frame_leaf|].
  frame_bind; [|apply sameCredentials_modifyWorld].
  frame_loop. frame_loop. apply sameCredentials_WriteString.
Qed.

Lemma sameCredentials_outputNonECRImages (env : Env) (rt : Runtime) :
  framed sameCredentials (outputNonECRImages env rt).
Proof.
  unfold outputNonECRImages. frame_bind; [frame_leaf|]. cbv zeta.
  frame_bind; [apply sameCredentials_OpenFile|].
  destruct a0 as [cause|]; [frame_leaf|].
  frame_bind; [|apply sameCredentials_modifyWorld].
  frame_loop. destruct a0 as [image details].
  destruct (negb _); [|frame_leaf].
  frame_loop. apply sameCredentials_WriteString.
Qed.

Lemma sameCredentials_ProcessAllImagesHistoryForKeywords
    (fuel : nat) (env : Env) (rt : Runtime) :
  framed sameCredentials (ProcessAllImagesHistoryForKeywords fuel env rt).
Proof.
  unfold ProcessAllImagesHistoryForKeywords.
  frame_bind; [apply sameCredentials_queryAllContainerImageRefsInCluster|].
  frame_bind; [frame_leaf|]. cbv zeta.
  frame_bind.
  - frame_loop.
    apply (framed_processImage sameCredentials);
      [intros l; apply sameCredentials_modifyWorld
      | intros call; apply sameCredentials_modifyWorld
      | intros result st; reflexivity].
  - frame_bind; [apply sameCredentials_outputOffendingImages|].
    apply sameCredentials_outputNonECRImages.
Qed.

(** C8: a configuration returned by [NewConfig] has a credential map whose
    keys are exactly the configured regions, one entry each; [NewConfig] does
    return one when every region can be provisioned (the token is issued,
    decodes to user:password and is marshalled) and the two clients can be
    built; and no run of the pipeline, however it ends, changes the map. *)
Theorem NewConfig_credentials_one_entry_per_region
    (env : Env) (rt : Runtime) (keywords : list string)
    (clusterAccountProfile imagesAccountProfile : string) (regions : list string) :
  (forall cfg,
      NewConfig env rt keywords clusterAccountProfile imagesAccountProfile regions = Ok cfg ->
      dom (ecrCredentials cfg) = list_to_set regions
      /\ (forall region, In region regions <-> is_Some (ecrCredentials cfg !! region))
      /\ forall fuel env' w,
           ecrCredentials
             (fst (fst (ProcessAllImagesHistoryForKeywords fuel env' rt (cfg, w))))
           = ecrCredentials cfg)
  /\ ((forall region, In region regions ->
                      regionProvisionable env rt imagesAccountProfile region) ->
      docker_NewClientWithOpts env = None ->
      k8s_buildConfigWithContextFromFlags env clusterAccountProfile = None ->
      k8s_NewForConfig env = None ->
      exists cfg,
        NewConfig env rt keywords clusterAccountProfile imagesAccountProfile regions = Ok cfg).
Proof.
  split.
  - intros cfg Hnew. apply NewConfig_Ok_inv in Hnew as (Hprov & _).
    apply provisionCredentials_dom in Hprov. rewrite dom_empty_L, (left_id_L ∅ (∪)) in Hprov.
    split; [exact Hprov|]. split.
    + intros region. rewrite <- elem_of_dom, Hprov, elem_of_list_to_set, list_elem_of_In.
      reflexivity.
    + intros fuel env' w.
      apply (sameCredentials_ProcessAllImagesHistoryForKeywords fuel env' rt (cfg, w)).
  - intros Hall Hdocker Hk8s Hset. unfold NewConfig.
    destruct (provisionCredentials_returns env rt imagesAccountProfile regions ∅ Hall)
      as [creds ->].
    rewrite Hdocker, Hk8s, Hset. eauto.
Qed.

Lemma NewConfig_credentials_one_entry_per_region_witness :
  exists cfg,
    NewConfig sampleEnv sampleRuntime ["jdk-14"] "prod-cluster" "production"
      ["eu-west-1"; "eu-west-2"] = Ok cfg
    /\ dom (ecrCredentials cfg) = list_to_set ["eu-west-1"; "eu-west-2"]
    /\ ecrCredentials
         (fst (fst (ProcessAllImagesHistoryForKeywords 5 sampleEnv sampleRuntime
                      (cfg, emptyWorld))))
       = ecrCredentials cfg.
Proof.
  destruct (NewConfig_credentials_one_entry_per_region sampleEnv sampleRuntime ["jdk-14"]
              "prod-cluster" "production" ["eu-west-1"; "eu-west-2"]) as [Hkeys Hreturns].
  destruct Hreturns as [cfg Hcfg]; try reflexivity.
  - intros region [<-|[<-|[]]]; (split; [reflexivity|]).
    + exists "AWS:secret-eu-west-1", [], "AWS:secret-eu-west-1", "secret-eu-west-1".
      eexists. repeat split.
    + exists "AWS:secret-eu-west-2", [], "AWS:secret-eu-west-2", "secret-eu-west-2".
      eexists. repeat split.
  - exists cfg. split; [exact Hcfg|].
    destruct (Hkeys cfg Hcfg) as (Hdom & _ & Hkeep).
    split; [exact Hdom | apply Hkeep].
Defined.

(** ** Writing the reports *)

Lemma append_assoc (a b c : string) : (a +:+ b) +:+ c = a +:+ (b +:+ c).
Proof.
  induction a as [|x a IH]; [reflexivity|].
  change (String x ((a +:+ b) +:+ c) = String x (a +:+ (b +:+ c))).
  rewrite IH. reflexivity.
Qed.

Lemma append_nil_r (a : string) : a +:+ EmptyString = a.
Proof.
  induction a as [|x a IH]; [reflexivity|].
  change (String x (a +:+ EmptyString) = String x a).
  rewrite IH. reflexivity.
Qed.

Lemma appended_refl (path : string) (w : World) :
  is_Some (files w !! path) -> appended path EmptyString w w.
Proof.
  intros [content Hc]. unfold appended, fileContent.
  rewrite Hc. simpl. rewrite append_nil_r. auto.
Qed.

Lemma appended_trans (path t1 t2 : string) (w w1 w2 : World) :
  appended path t1 w w1 -> appended path t2 w1 w2 -> appended path (t1 +:+ t2) w w2.
Proof.
  intros (Hp1 & Ho1 & Hc1 & Hd1) (Hp2 & Ho2 & Hc2 & Hd2).
  unfold appended. split; [|split; [|split]].
  - rewrite Hp2. unfold fileContent at 1. rewrite Hp1. simpl.
    rewrite append_assoc. reflexivity.
  - intros q Hq. rewrite Ho2, Ho1 by exact Hq. reflexivity.
  - congruence.
  - congruence.
Qed.

Lemma appended_is_Some (path text : string) (w w' : World) :
  appended path text w w' -> is_Some (files w' !! path).
Proof. intros (Hp & _). rewrite Hp. eauto. Qed.

Section Reports.
Context (env : Env) (path : string).
Hypothesis writes : forall data, file_WriteString env path data = None.

Lemma WriteString_appended (data : string) (c : Config) (w : World) :
  exists w', WriteString env path data (c, w) = ((c, w'), Ok None)
             /\ appended path data w w'.
Proof.
  unfold WriteString. rewrite writes. eexists. split; [reflexivity|].
  unfold appended, fileContent. simpl. split; [apply lookup_insert_eq|].
  split; [|auto]. intros q Hq. apply lookup_insert_ne. congruence.
Qed.

Lemma writeGroups_appended (groups : list string) : forall (c : Config) (w : World),
  is_Some (files w !! path) ->
  exists w', forEach groups (fun g => WriteString env path g ;; ret tt) (c, w)
             = ((c, w'), Ok tt)
             /\ appended path (joinLines groups) w w'.
Proof.
  induction groups as [|g groups IH]; intros c w Hex; simpl.
  - exists w. split; [reflexivity | apply appended_refl; exact Hex].
  - destruct (WriteString_appended g c w) as (w1 & E1 & H1).
    destruct (IH c w1 (appended_is_Some _ _ _ _ H1)) as (w2 & E2 & H2).
    exists w2. split; [|eapply appended_trans; eauto].
    rewrite (bind_Ok _ _ _ (c, w1) tt); [exact E2|].
    rewrite (bind_Ok _ _ _ _ _ E1). reflexivity.
Qed.

Lemma writeLine_appended (image : string) (groups : list string) (c : Config) (w : World) :
  exists w', writeLine env path image groups (c, w) = ((c, w'), Ok tt)
             /\ appended path (reportLine image groups) w w'.
Proof.
  unfold writeLine.
  destruct (WriteString_appended (image +:+ tab) c w) as (w1 & E1 & H1).
  destruct (writeGroups_appended groups c w1 (appended_is_Some _ _ _ _ H1))
    as (w2 & E2 & H2).
  destruct (WriteString_appended newline c w2) as (w3 & E3 & H3).
  exists w3. split.
  - rewrite (bind_Ok _ _ _ _ _ E1), (bind_Ok _ _ _ _ _ E2), (bind_Ok _ _ _ _ _ E3).
    reflexivity.
  - unfold reportLine. rewrite <- !append_assoc.
    eapply appended_trans; [|exact H3].
    eapply appended_trans; [exact H1 | exact H2].
Qed.

(** The loop of [outputNonECRImages] over the image map. *)
Lemma writeNonECR_appended (entries : list (string * list podDetails)) :
  forall (c : Config) (w : World),
    is_Some (files w !! path) ->
    exists w',
      forEach entries (fun '(image, details) =>
        if negb (Contains image "amazonaws.com")
        then writeLine env path image (map formatPod details)
        else ret tt) (c, w) = ((c, w'), Ok tt)
      /\ appended path (joinLines (map nonECRLine (filter isNonECR entries))) w w'.
Proof.
  induction entries as [|[image details] entries IH]; intros c w Hex; simpl.
  - exists w. split; [reflexivity | apply appended_refl; exact Hex].
  - destruct (Contains image "amazonaws.com") eqn:Hecr; simpl.
    + rewrite filter_cons_False by (unfold isNonECR; simpl; congruence).
      destruct (IH c w Hex) as (w' & E & H). exists w'. split; [|exact H].
      rewrite (bind_Ok _ _ _ (c, w) tt); [exact E | reflexivity].
    + rewrite filter_cons_True by exact Hecr.
      destruct (writeLine_appended image (map formatPod details) c w) as (w1 & E1 & H1).
      destruct (IH c w1 (appended_is_Some _ _ _ _ H1)) as (w2 & E2 & H2).
      exists w2. split; [rewrite (bind_Ok _ _ _ _ _ E1); exact E2|]. simpl.
      eapply appended_trans; [exact H1 | exact H2].
Qed.

(** The loop of [outputOffendingImages] over the offending images. *)
Lemma writeOffending_appended (rt : Runtime) (c0 : Config)
    (offending : list offendingDockerImage) :
  forall (c : Config) (w : World),
    is_Some (files w !! path) ->
    exists w',
      forEach offending (fun i =>
        let details := default [] (dockerImages c0 !! imageRef i) in
        writeLine env path (imageRef i) (map (formatMatch rt i) details)) (c, w)
      = ((c, w'), Ok tt)
      /\ appended path (joinLines (map (offendingLine rt c0) offending)) w w'.
Proof.
  induction offending as [|i offending IH]; intros c w Hex; simpl.
  - exists w. split; [reflexivity | apply appended_refl; exact Hex].
  - destruct (writeLine_appended (imageRef i)
                (map (formatMatch rt i) (default [] (dockerImages c0 !! imageRef i))) c w)
      as (w1 & E1 & H1).
    destruct (IH c w1 (appended_is_Some _ _ _ _ H1)) as (w2 & E2 & H2).
    exists w2. split; [rewrite (bind_Ok _ _ _ _ _ E1); exact E2|].
    eapply appended_trans; [exact H1 | exact H2].
Qed.

(** Opening the report for appending leaves its content as it was. *)
Lemma OpenFile_appended (c : Config) (w : World) :
  os_OpenFile env path = None ->
  exists w', OpenFile env path (c, w) = ((c, w'), Ok None)
             /\ appended path EmptyString w w'.
Proof.
  intros Hopen. unfold OpenFile. rewrite Hopen. eexists. split; [reflexivity|].
  unfold appended, fileContent. simpl.
  destruct (files w !! path) as [content|] eqn:Hc; simpl.
  - rewrite Hc, append_nil_r. auto.
  - rewrite lookup_insert_eq. split; [reflexivity|]. split; [|auto].
    intros q Hq. apply lookup_insert_ne. congruence.
Qed.

End Reports.

(** X27: when the report can be opened and written, [outputNonECRImages]
    appends to it one line per entry of the image map whose image reference
    does not contain "amazonaws.com" --- the reference itself, a tab, all the
    provenance tuples of the entry, a line feed --- and nothing else: every such
    entry is listed, once, and no entry with "amazonaws.com" in its image
    reference is. *)
Theorem outputNonECRImages_lists_exactly_non_ECR
    (env : Env) (rt : Runtime) (c : Config) (w : World) :
  os_OpenFile env (nonECRImageResultsPath env c) = None ->
  (forall data, file_WriteString env (nonECRImageResultsPath env c) data = None) ->
  rangeImages rt (dockerImages c) ≡ₚ map_to_list (dockerImages c) ->
  exists w',
    outputNonECRImages env rt (c, w) = ((c, w'), Ok tt)
    /\ files w' !! nonECRImageResultsPath env c
       = Some (fileContent w (nonECRImageResultsPath env c)
               +:+ joinLines (map nonECRLine (nonECREntries rt c)))
    /\ NoDup (map fst (nonECREntries rt c))
    /\ (forall image details,
          (image, details) ∈ nonECREntries rt c
          <-> dockerImages c !! image = Some details
              /\ Contains image "amazonaws.com" = false).
Proof.
  intros Hopen Hwrite Hrange.
  destruct (OpenFile_appended env _ c w Hopen) as (w1 & E1 & H1).
  destruct (writeNonECR_appended env _ Hwrite (rangeImages rt (dockerImages c)) c w1
              (appended_is_Some _ _ _ _ H1)) as (w2 & E2 & H2).
  pose proof (appended_trans _ _ _ _ _ _ H1 H2) as H12. destruct H12 as (Hfile & _).
  exists {| files := files w2;
            console := (console w2 ++ [LogNonECRWritten (nonECRImageResultsPath env c)])%list;
            dockerCalls := dockerCalls w2 |}.
  split; [|split; [exact Hfile|split]].
  - unfold outputNonECRImages.
    rewrite (bind_Ok _ _ (c, w) (c, w) c) by reflexivity. cbv zeta.
    rewrite (bind_Ok _ _ _ _ _ E1), (bind_Ok _ _ _ _ _ E2). reflexivity.
  - unfold nonECREntries.
    apply (sublist_NoDup _ (map fst (rangeImages rt (dockerImages c)))).
    + rewrite Hrange. apply NoDup_fst_map_to_list.
    + apply fmap_sublist, sublist_filter.
  - intros image details. unfold nonECREntries.
    rewrite list_elem_of_filter, Hrange, elem_of_map_to_list. unfold isNonECR. simpl.
    tauto.
Qed.

Lemma outputNonECRImages_lists_exactly_non_ECR_witness :
  os_OpenFile sampleEnv (nonECRImageResultsPath sampleEnv scannedConfig) = None
  /\ (forall data,
        file_WriteString sampleEnv (nonECRImageResultsPath sampleEnv scannedConfig) data = None)
  /\ rangeImages sampleRuntime (dockerImages scannedConfig)
     ≡ₚ map_to_list (dockerImages scannedConfig)
  /\ exists w',
       outputNonECRImages sampleEnv sampleRuntime (scannedConfig, emptyWorld)
       = ((scannedConfig, w'), Ok tt)
       /\ files w' !! "non-ecr-images-prod-cluster-31-Oct-2026-10:01.txt"
          = Some ("tomcat:9" +:+ tab
                  +:+ "(podName: web-1, containerName: web, namespace: prod) " +:+ newline)
       /\ ((("1.dkr.ecr.eu-west-1.amazonaws.com/api:1",
             [ {| podName := "api-1"; containerName := "api"; namespace := "prod" |};
               {| podName := "api-2"; containerName := "api"; namespace := "prod" |} ])
            ∈ nonECREntries sampleRuntime scannedConfig) -> False).
Proof.
  split; [reflexivity|]. split; [reflexivity|]. split; [reflexivity|].
  destruct (outputNonECRImages_lists_exactly_non_ECR sampleEnv sampleRuntime scannedConfig
              emptyWorld eq_refl (fun _ => eq_refl) (reflexivity _))
    as (w' & Hrun & Hfile & _ & Hexact).
  exists w'. split; [exact Hrun|]. split.
  - refine (eq_trans Hfile _). reflexivity.
  - intros Hin. apply Hexact in Hin as [_ Hecr]. discriminate.
Defined.


(** ** The offending images *)

Section OffendingImages.
Context (env : Env) (rt : Runtime).

(** A result that is marked as a match names the image that was checked. *)
Lemma imageRef_history (imageRef' : string) (keywords : list string)
    (history : list HistoryResponseItem) :
  let result := fold_left (stepLayer rt imageRef' keywords) history emptyResult in
  matchFound result = true -> imageRef result = imageRef'.
Proof.
  cbv zeta.
  assert (Hkw : forall h ks r,
             (matchFound r = true -> imageRef r = imageRef') ->
             matchFound (fold_left (stepKeyword rt imageRef' h) ks r) = true ->
             imageRef (fold_left (stepKeyword rt imageRef' h) ks r) = imageRef').
  { intros h ks. induction ks as [|k ks IH]; intros r Hr; simpl; [exact Hr|].
    apply IH. unfold stepKeyword. destruct (keywordMatches rt h k); [reflexivity | exact Hr]. }
  assert (Hl : forall hs r,
             (matchFound r = true -> imageRef r = imageRef') ->
             matchFound (fold_left (stepLayer rt imageRef' keywords) hs r) = true ->
             imageRef (fold_left (stepLayer rt imageRef' keywords) hs r) = imageRef').
  { intros hs. induction hs as [|h hs IH]; intros r Hr; simpl; [exact Hr|].
    apply IH. unfold stepLayer. apply Hkw. exact Hr. }
  apply Hl. discriminate.
Qed.

Lemma offendingJustified_modifyWorld (f : World -> World) :
  (forall w, files (f w) = files w) ->
  framed (offendingJustified env rt) (modifyWorld f).
Proof.
  intros Hf [c w]. split; [|auto]. unfold onlyOffending. simpl. auto.
Qed.

Lemma offendingJustified_print (l : consoleLine) :
  framed (offendingJustified env rt) (print l).
Proof. apply offendingJustified_modifyWorld. reflexivity. Qed.

Lemma offendingJustified_recordCall (call : dockerCall) :
  framed (offendingJustified env rt) (recordCall call).
Proof. apply offendingJustified_modifyWorld. reflexivity. Qed.

#[global] Instance offendingJustified_preorder : PreOrder (offendingJustified env rt).
Proof.
  split.
  - intros st. split; [reflexivity | auto].
  - intros st1 st2 st3 [Ho1 Hj1] [Ho2 Hj2]. split; [etransitivity; eassumption|].
    destruct Ho1 as (_ & Hk & _). rewrite Hk in Hj2. auto.
Qed.

(** One turn of the loop over the images adds the result of the check to the
    offending images only when some layer matched some keyword. *)
Lemma offendingJustified_processImage (fuel totalUniqueImages count : nat) (image : string) :
  framed (offendingJustified env rt)
         (processImage fuel env rt totalUniqueImages count image).
Proof.
  unfold processImage.
  frame_bind; [apply offendingJustified_print|].
  frame_bind; [apply (framed_pullImage (offendingJustified env rt));
               apply offendingJustified_recordCall|].
  intros [c w].
  destruct (docker_ImageHistory env image) as [cause|history] eqn:Hh.
  - unfold bind at 1, checkImageHistoryForKeyWords, bind, getConfig. simpl.
    rewrite Hh. simpl. split; [|auto]. repeat split.
  - destruct (checkImageHistoryForKeyWords_returns env rt image history c w Hh)
      as (w' & E & Hf & _).
    rewrite (bind_Ok _ _ _ _ _ E).
    set (result := fold_left (stepLayer rt image (dockerImageKeyWords c)) history emptyResult).
    assert (Hrest : framed (offendingJustified env rt)
                           (cleanupImage env image ;; ret (S count))).
    { frame_bind; [|frame_leaf].
      apply (framed_cleanupImage (offendingJustified env rt)).
      apply offendingJustified_recordCall. }
    destruct (matchFound result) eqn:Hm.
    + rewrite (bind_Ok _ _ (c, w')
                 (setOffendingDockerImages (offendingDockerImages c ++ [result])%list c, w') tt)
        by reflexivity.
      etransitivity; [|apply Hrest].
      split; [repeat split; simpl; auto|]. simpl. intros Hall.
      apply Forall_app. split; [exact Hall|]. apply Forall_singleton.
      subst result. split; [exact Hm|]. exists history.
      rewrite (imageRef_history image (dockerImageKeyWords c) history Hm).
      split; [exact Hh|].
      rewrite matchFound_history in Hm. exact Hm.
    + rewrite (bind_Ok _ _ (c, w') (c, w') tt) by reflexivity.
      etransitivity; [|apply Hrest].
      split; [repeat split; simpl; auto | auto].
Qed.

End OffendingImages.

(** ** The match report *)

Lemma onlyFile_print (path : string) (l : consoleLine) : framed (onlyFile path) (print l).
Proof. intros [c w]. split; [reflexivity|]. split; [auto|]. exists [l]. reflexivity. Qed.

Lemma onlyFile_OpenFile (env : Env) (path : string) : framed (onlyFile path) (OpenFile env path).
Proof.
  unfold OpenFile. intros [c w].
  destruct (os_OpenFile env path); [reflexivity|].
  split; [reflexivity|]. split.
  - intros q Hq. simpl. destruct (files w !! path); [reflexivity|].
    apply lookup_insert_ne. congruence.
  - exists []. simpl. rewrite app_nil_r. reflexivity.
Qed.

Lemma onlyFile_WriteString (env : Env) (path data : string) :
  framed (onlyFile path) (WriteString env path data).
Proof.
  unfold WriteString. intros [c w].
  destruct (file_WriteString env path data); [reflexivity|].
  split; [reflexivity|]. split.
  - intros q Hq. simpl. apply lookup_insert_ne. congruence.
  - exists []. simpl. rewrite app_nil_r. reflexivity.
Qed.

(** Whatever the file system does, [outputOffendingImages] touches no file
    but its report and leaves the configuration alone. *)
Lemma onlyFile_outputOffendingImages (env : Env) (rt : Runtime) (c : Config) (w : World) :
  onlyFile (offendingImageResultsPath env c) (c, w)
           (fst (outputOffendingImages env rt (c, w))).
Proof.
  unfold outputOffendingImages.
  rewrite (bind_Ok _ _ (c, w) (c, w) c) by reflexivity. cbv zeta.
  generalize (c, w).
  match goal with
  | |- forall st, onlyFile ?p st (fst (?m st)) => change (framed (onlyFile p) m)
  end.
  destruct (0 <? _)%nat; [|apply onlyFile_print].
  frame_bind; [apply onlyFile_OpenFile|].
  destruct a as [cause|]; [frame_leaf|].
  frame_bind; [|apply onlyFile_print].
  frame_loop. frame_loop. apply onlyFile_WriteString.
Qed.

Lemma onlyFile_outputNonECRImages (env : Env) (rt : Runtime) (c : Config) (w : World) :
  onlyFile (nonECRImageResultsPath env c) (c, w)
           (fst (outputNonECRImages env rt (c, w))).
Proof.
  unfold outputNonECRImages.
  rewrite (bind_Ok _ _ (c, w) (c, w) c) by reflexivity. cbv zeta.
  generalize (c, w).
  match goal with
  | |- forall st, onlyFile ?p st (fst (?m st)) => change (framed (onlyFile p) m)
  end.
  frame_bind; [apply onlyFile_OpenFile|].
  destruct a as [cause|]; [frame_leaf|].
  frame_bind; [|apply onlyFile_print].
  frame_loop. destruct a as [image details].
  destruct (negb _); [|frame_leaf].
  frame_loop. apply onlyFile_WriteString.
Qed.

(** Without offending images the report is not opened: a notice is printed
    and nothing else happens. *)
Lemma outputOffendingImages_nothing (env : Env) (rt : Runtime) (c : Config) (w : World) :
  offendingDockerImages c = [] ->
  outputOffendingImages env rt (c, w)
  = ((c, {| files := files w;
            console := (console w ++ [PrintNothingToOutput])%list;
            dockerCalls := dockerCalls w |}), Ok tt).
Proof.
  intros Hnone. unfold outputOffendingImages.
  rewrite (bind_Ok _ _ (c, w) (c, w) c) by reflexivity. cbv zeta.
  rewrite Hnone. reflexivity.
Qed.

(** With offending images, and a file system that plays along, the report
    gets one line per offending image. *)
Lemma outputOffendingImages_writes (env : Env) (rt : Runtime) (c : Config) (w : World) :
  offendingDockerImages c <> [] ->
  os_OpenFile env (offendingImageResultsPath env c) = None ->
  (forall data, file_WriteString env (offendingImageResultsPath env c) data = None) ->
  exists w',
    outputOffendingImages env rt (c, w) = ((c, w'), Ok tt)
    /\ files w' !! offendingImageResultsPath env c
       = Some (fileContent w (offendingImageResultsPath env c)
               +:+ joinLines (map (offendingLine rt c) (offendingDockerImages c))).
Proof.
  intros Hsome Hopen Hwrite.
  destruct (OpenFile_appended env _ c w Hopen) as (w1 & E1 & H1).
  destruct (writeOffending_appended env _ Hwrite rt c (offendingDockerImages c) c w1
              (appended_is_Some _ _ _ _ H1)) as (w2 & E2 & H2).
  pose proof (appended_trans _ _ _ _ _ _ H1 H2) as H12. destruct H12 as (Hfile & _).
  exists {| files := files w2;
            console := (console w2 ++ [LogOffendingWritten (offendingImageResultsPath env c)])%list;
            dockerCalls := dockerCalls w2 |}.
  split; [|exact Hfile].
  unfold outputOffendingImages.
  rewrite (bind_Ok _ _ (c, w) (c, w) c) by reflexivity. cbv zeta.
  assert (Hlen : (0 <? List.length (offendingDockerImages c))%nat = true).
  { destruct (offendingDockerImages c); [congruence | reflexivity]. }
  rewrite Hlen, (bind_Ok _ _ _ _ _ E1), (bind_Ok _ _ _ _ _ E2). reflexivity.
Qed.

Lemma report_paths_differ (env : Env) (c c' : Config) :
  offendingImageResultsPath env c <> nonECRImageResultsPath env c'.
Proof.
  unfold offendingImageResultsPath, nonECRImageResultsPath. intros H.
  apply (f_equal (fun s => match s with
                           | String a _ => a
                           | EmptyString => "000"%char
                           end)) in H.
  vm_compute in H. discriminate.
Qed.

(** C7: in a run of the pipeline that starts without offending images and
    returns, an image whose history has no layer matching any keyword gets a
    result with [matchFound = false] and is not among the offending images,
    which are the images the match report lists (each of them is marked as a
    match and has a matching layer).  When no image matched, the match report
    is left as it was --- it is not created --- and the notice is printed;
    when some image matched, and the report can be opened and written, it gets
    one line per offending image. *)
Theorem only_matching_images_reach_the_match_report
    (fuel : nat) (env : Env) (rt : Runtime) (c c' : Config) (w w' : World) :
  offendingDockerImages c = [] ->
  ProcessAllImagesHistoryForKeywords fuel env rt (c, w) = ((c', w'), Ok tt) ->
  (forall i, In i (offendingDockerImages c') -> justified env rt (dockerImageKeyWords c) i)
  /\ (forall image history,
        docker_ImageHistory env image = inr history ->
        anyMatch rt (dockerImageKeyWords c) history = false ->
        (exists w1 result,
            checkImageHistoryForKeyWords env rt image (c, w) = ((c, w1), Ok result)
            /\ matchFound result = false)
        /\ ~ In image (map imageRef (offendingDockerImages c')))
  /\ (offendingDockerImages c' = [] ->
      files w' !! offendingImageResultsPath env c = files w !! offendingImageResultsPath env c
      /\ In PrintNothingToOutput (console w'))
  /\ (offendingDockerImages c' <> [] ->
      os_OpenFile env (offendingImageResultsPath env c) = None ->
      (forall data, file_WriteString env (offendingImageResultsPath env c) data = None) ->
      files w' !! offendingImageResultsPath env c
      = Some (fileContent w (offendingImageResultsPath env c)
              +:+ joinLines (map (offendingLine rt c') (offendingDockerImages c')))).
Proof.
  intros Hempty Hrun. unfold ProcessAllImagesHistoryForKeywords in Hrun.
  (* the scan *)
  destruct (k8s_PodsList env) as [cause|pods] eqn:Hpods.
  { unfold bind at 1, queryAllContainerImageRefsInCluster in Hrun.
    rewrite Hpods in Hrun. discriminate. }
  destruct (queryAllContainerImageRefsInCluster_returns env pods c w Hpods)
    as (w1 & E1 & Hf1 & _).
  rewrite (bind_Ok _ _ _ _ _ E1) in Hrun.
  set (c1 := setDockerImages (recordPods (dockerImages c) pods) c) in *.
  rewrite (bind_Ok _ _ (c1, w1) (c1, w1) c1) in Hrun by reflexivity. cbv zeta in Hrun.
  (* the loop over the images *)
  pose proof (framed_foldM (offendingJustified env rt)
                (processImage fuel env rt (size (dockerImages c1)))
                (map fst (rangeImages rt (dockerImages c1)))
                (offendingJustified_processImage env rt fuel (size (dockerImages c1)))
                1%nat (c1, w1)) as Hloop.
  unfold bind at 1 in Hrun.
  destruct (foldM _ _ _ (c1, w1)) as [[c2 w2] o2]. simpl in Hloop.
  destruct o2 as [count| | |]; try discriminate.
  destruct Hloop as ((Hf2 & Hk2 & Hi2 & Hn2) & Hj2). simpl in Hf2, Hk2, Hi2, Hn2, Hj2.
  assert (Hjust : Forall (justified env rt (dockerImageKeyWords c)) (offendingDockerImages c2)).
  { apply Hj2. rewrite Hempty. constructor. }
  assert (Hpath : offendingImageResultsPath env c2 = offendingImageResultsPath env c).
  { unfold offendingImageResultsPath. rewrite Hn2. reflexivity. }
  (* the two reports *)
  pose proof (onlyFile_outputOffendingImages env rt c2 w2) as Hoff.
  unfold bind at 1 in Hrun.
  destruct (outputOffendingImages env rt (c2, w2)) as [[c3 w3] o3] eqn:E4.
  destruct o3 as [[]| | |]; try discriminate.
  destruct Hoff as (Hc3 & _). simpl in Hc3. subst c3.
  pose proof (onlyFile_outputNonECRImages env rt c2 w3) as Hnon.
  rewrite Hrun in Hnon. destruct Hnon as (Hc' & Hfiles & printed & Hconsole).
  simpl in Hc', Hfiles, Hconsole. subst c'.
  assert (Hkeep : files w' !! offendingImageResultsPath env c
                  = files w3 !! offendingImageResultsPath env c).
  { apply Hfiles. apply report_paths_differ. }
  split; [|split; [|split]].
  - intros i Hi. rewrite Forall_forall in Hjust. apply Hjust, list_elem_of_In, Hi.
  - intros image history Hh Hnone. split.
    + destruct (checkImageHistoryForKeyWords_returns env rt image history c w Hh)
        as (wc & Hcheck & _).
      exists wc. eexists. split; [exact Hcheck|].
      rewrite matchFound_history, Hnone. reflexivity.
    + intros Hin. apply in_map_iff in Hin as (i & Hi & Hin).
      rewrite Forall_forall in Hjust.
      destruct (Hjust i (proj2 (list_elem_of_In _ _) Hin)) as (_ & history' & Hh' & Hany).
      rewrite Hi, Hh in Hh'. injection Hh' as <-. congruence.
  - intros Hnone. rewrite (outputOffendingImages_nothing env rt c2 w2 Hnone) in E4.
    injection E4 as <-. split.
    + rewrite Hkeep. simpl. rewrite Hf2, Hf1. reflexivity.
    + rewrite Hconsole. simpl. apply in_or_app. left. apply in_or_app. right. simpl. auto.
  - intros Hsome Hopen Hwrite. rewrite <- Hpath in Hopen, Hwrite.
    destruct (outputOffendingImages_writes env rt c2 w2 Hsome Hopen Hwrite)
      as (w3' & E4' & Hfile).
    rewrite E4 in E4'. injection E4' as <-.
    rewrite Hkeep, <- Hpath, Hfile. unfold fileContent. rewrite Hf2, Hf1. reflexivity.
Qed.

Lemma only_matching_images_reach_the_match_report_witness :
  offendingDockerImages sampleConfig = []
  /\ sampleRun = ((fst (fst sampleRun), snd (fst sampleRun)), Ok tt)
  /\ unmatchedRun = ((fst (fst unmatchedRun), snd (fst unmatchedRun)), Ok tt)
  /\ ~ In "1.dkr.ecr.eu-west-1.amazonaws.com/api:1"
          (map imageRef (offendingDockerImages (fst (fst sampleRun))))
  /\ files (snd (fst sampleRun)) !! "offending-images-prod-cluster-31-Oct-2026-10:00.txt"
     = Some ("tomcat:9" +:+ tab
             +:+ "(podName: web-1, containerName: web, namespace: prod, "
             +:+ "matched-keywords: map[jdk-14:3]) " +:+ newline)
  /\ files (snd (fst unmatchedRun)) !! "offending-images-prod-cluster-31-Oct-2026-10:00.txt"
     = None
  /\ In PrintNothingToOutput (console (snd (fst unmatchedRun))).
Proof.
  assert (Hrun : sampleRun = ((fst (fst sampleRun), snd (fst sampleRun)), Ok tt))
    by (vm_compute; reflexivity).
  assert (Hrun' : unmatchedRun = ((fst (fst unmatchedRun), snd (fst unmatchedRun)), Ok tt))
    by (vm_compute; reflexivity).
  split; [reflexivity|]. split; [exact Hrun|]. split; [exact Hrun'|].
  destruct (only_matching_images_reach_the_match_report 5 sampleEnv sampleRuntime
              sampleConfig _ emptyWorld _ eq_refl Hrun)
    as (_ & Hexcluded & _ & Hwritten).
  destruct (only_matching_images_reach_the_match_report 5 sampleEnv sampleRuntime
              unmatchedConfig _ emptyWorld _ eq_refl Hrun')
    as (_ & _ & Hnothing & _).
  split; [|split; [|split]].
  - apply (Hexcluded "1.dkr.ecr.eu-west-1.amazonaws.com/api:1" _ eq_refl). reflexivity.
  - refine (eq_trans (Hwritten _ eq_refl (fun _ => eq_refl)) _); [|reflexivity].
    vm_compute. discriminate.
  - refine (eq_trans (proj1 (Hnothing eq_refl)) _). reflexivity.
  - apply Hnothing. reflexivity.
Defined.

(** * Further properties of the package *)

(** ** [strings.Contains] and [strings.Split] *)

Lemma prefix_spec (p : string) : forall s,
  String.prefix p s = true <-> exists b, s = p +:+ b.
Proof.
  induction p as [|a p IH]; intros s.
  - split; [intros _; exists s; reflexivity | intros _; destruct s; reflexivity].
  - destruct s as [|c s]; simpl.
    + split; [discriminate | intros [b Hb]; discriminate Hb].
    + destruct (ascii_dec a c) as [->|Hne].
      * rewrite IH. split; intros [b Hb]; exists b.
        -- rewrite Hb. reflexivity.
        -- injection Hb as Hb. exact Hb.
      * split; [discriminate | intros [b Hb]; injection Hb as Hc _; congruence].
Qed.

(** [Contains s substr] holds exactly when [substr] occurs in [s]: [s] is
    some text, then [substr], then some text. *)
Lemma Contains_spec (s substr : string) :
  Contains s substr = true <-> exists a b, s = a +:+ substr +:+ b.
Proof.
  induction s as [|c s IH]; cbn [Contains].
  - rewrite orb_false_r, prefix_spec. split.
    + intros [b Hb]. exists EmptyString, b. exact Hb.
    + intros (a & b & Hab). destruct a as [|x a]; [exists b; exact Hab | discriminate Hab].
  - rewrite orb_true_iff, prefix_spec, IH. split.
    + intros [[b Hb]|(a & b & Hab)].
      * exists EmptyString, b. exact Hb.
      * exists (String c a), b. rewrite Hab. reflexivity.
    + intros (a & b & Hab). destruct a as [|x a].
      * left. exists b. exact Hab.
      * right. exists a, b. injection Hab as _ Hab. exact Hab.
Qed.

(** Joining the parts of [Split s sep] with the separator gives [s] back. *)
Lemma Split_concat (s : string) (sep : ascii) :
  String.concat (String sep EmptyString) (Split s sep) = s.
Proof.
  induction s as [|c s IH]; [reflexivity|].
  cbn [Split]. pose proof (Split_nonempty s sep) as Hne.
  destruct (Ascii.eqb c sep) eqn:Hc.
  - apply Ascii.eqb_eq in Hc as ->.
    destruct (Split s sep) as [|w ws]; [congruence|].
    change (String sep (String.concat (String sep EmptyString) (w :: ws)) = String sep s).
    rewrite IH. reflexivity.
  - destruct (Split s sep) as [|w ws]; [congruence|].
    rewrite <- IH. destruct ws; reflexivity.
Qed.

(** No part of [Split s sep] contains the separator. *)
Lemma Split_parts_without_separator (s : string) (sep : ascii) :
  forall part, In part (Split s sep) -> Contains part (String sep EmptyString) = false.
Proof.
  induction s as [|c s IH]; intros part; cbn [Split].
  - intros [<-|[]]. reflexivity.
  - pose proof (Split_nonempty s sep) as Hne.
    destruct (Ascii.eqb c sep) eqn:Hc.
    + intros [<-|Hin]; [reflexivity | apply IH, Hin].
    + destruct (Split s sep) as [|w ws]; [congruence|].
      intros [<-|Hin].
      * cbn [Contains]. rewrite prefix_separator, Hc. apply IH. left. reflexivity.
      * apply IH. right. exact Hin.
Qed.

(** ** Region validation and flag parsing *)

Lemma sliceContains_fold (s : string) (slice : list string) : forall found,
  fold_left (fun found e => if String.eqb e s then true else found) slice found
  = found || existsb (fun e => String.eqb e s) slice.
Proof.
  induction slice as [|e slice IH]; intros found; simpl.
  - rewrite orb_false_r. reflexivity.
  - rewrite IH. destruct (String.eqb e s), found; reflexivity.
Qed.

(** [sliceContains] against list membership. *)
Lemma sliceContains_In (slice : list string) (s : string) :
  sliceContains slice s = true <-> In s slice.
Proof.
  unfold sliceContains. rewrite sliceContains_fold. simpl. rewrite existsb_exists.
  split.
  - intros (e & Hin & He). apply String.eqb_eq in He as ->. exact Hin.
  - intros Hin. exists s. split; [exact Hin | apply String.eqb_refl].
Qed.

(** X1: [sliceContains], which runs through the whole slice without breaking,
    tells whether the string is an element of the slice. *)
Theorem sliceContains_spec (slice : list string) (s : string) :
  sliceContains slice s = true <-> In s slice.
Proof. apply sliceContains_In. Qed.

(** [ValidateAWSRegions] against membership in [AllAWSRegions]. *)
Lemma ValidateAWSRegions_In (regions : list string) :
  ValidateAWSRegions regions = true <-> forall r, In r regions -> In r AllAWSRegions.
Proof.
  induction regions as [|r rs IH]; simpl.
  - split; [intros _ r [] | reflexivity].
  - destruct (sliceContains AllAWSRegions r) eqn:Hr; simpl.
    + apply sliceContains_In in Hr. rewrite IH. split.
      * intros H x [<-|Hx]; [exact Hr | apply H, Hx].
      * intros H x Hx. apply H. right. exact Hx.
    + split; [discriminate|]. intros H.
      assert (Hin : In r AllAWSRegions) by (apply H; left; reflexivity).
      apply sliceContains_In in Hin. congruence.
Qed.

(** X2: [ValidateAWSRegions] accepts a list exactly when every element is one
    of [AllAWSRegions]; the empty list is accepted. *)
Theorem ValidateAWSRegions_spec (regions : list string) :
  ValidateAWSRegions regions = true <-> forall r, In r regions -> In r AllAWSRegions.
Proof. apply ValidateAWSRegions_In. Qed.

Lemma length_zero_iff_empty (s : string) : (String.length s =? 0)%nat = true <-> s = EmptyString.
Proof. destruct s; simpl; split; congruence. Qed.

(** What follows from an accepted command line. *)
Lemma parseFlags_inr_inv (contextFlag profileFlag keywordsFlag regionsFlag : string)
    (flags : Cmd.Flags) :
  Cmd.parseFlags contextFlag profileFlag keywordsFlag regionsFlag = inr flags ->
  Cmd.clusterK8sContextName flags = contextFlag /\ contextFlag <> EmptyString
  /\ Cmd.imagesAccountAWSProfileName flags = profileFlag /\ profileFlag <> EmptyString
  /\ Cmd.dockerImageKeyWords flags = Split keywordsFlag ","%char
  /\ Cmd.dockerImageKeyWords flags <> []
  /\ Cmd.ecrRegions flags
     = (if String.eqb regionsFlag EmptyString then [] else Split regionsFlag ","%char)
  /\ forall r, In r (Cmd.ecrRegions flags) -> In r AllAWSRegions.
Proof.
  unfold Cmd.parseFlags. intros Hp.
  destruct keywordsFlag as [|k ks]; [simpl in Hp; rewrite !orb_true_r in Hp; discriminate|].
  cbn [String.length Nat.ltb Nat.leb] in Hp.
  destruct (String.length contextFlag =? 0)%nat eqn:Hc; [discriminate|].
  destruct (String.length profileFlag =? 0)%nat eqn:Hpr; [discriminate|].
  pose proof (Split_nonempty (String k ks) ",") as Hne.
  destruct (Split (String k ks) ",") as [|kw kws] eqn:Hkw; [congruence|].
  simpl in Hp.
  assert (Hctx : contextFlag <> EmptyString).
  { intros H. apply length_zero_iff_empty in H. congruence. }
  assert (Hprof : profileFlag <> EmptyString).
  { intros H. apply length_zero_iff_empty in H. congruence. }
  destruct regionsFlag as [|r rs].
  - injection Hp as <-. simpl. repeat split; auto; try discriminate. intros r [].
  - cbn [String.length Nat.ltb Nat.leb] in Hp.
    destruct (ValidateAWSRegions (Split (String r rs) ",")) eqn:Hv; [|discriminate].
    injection Hp as <-. simpl. repeat split; auto; try discriminate.
    apply ValidateAWSRegions_In. exact Hv.
Qed.

(** X3: flags that [parseFlags] accepts name a context and a profile, carry at
    least one keyword, namely the comma-separated parts of the keyword flag,
    and only regions of [AllAWSRegions]. *)
Theorem parseFlags_accepted (contextFlag profileFlag keywordsFlag regionsFlag : string)
    (flags : Cmd.Flags) :
  Cmd.parseFlags contextFlag profileFlag keywordsFlag regionsFlag = inr flags ->
  Cmd.clusterK8sContextName flags = contextFlag /\ contextFlag <> EmptyString
  /\ Cmd.imagesAccountAWSProfileName flags = profileFlag /\ profileFlag <> EmptyString
  /\ Cmd.dockerImageKeyWords flags = Split keywordsFlag ","%char
  /\ Cmd.dockerImageKeyWords flags <> []
  /\ Cmd.ecrRegions flags
     = (if String.eqb regionsFlag EmptyString then [] else Split regionsFlag ","%char)
  /\ forall r, In r (Cmd.ecrRegions flags) -> In r AllAWSRegions.
Proof. apply parseFlags_inr_inv. Qed.

Lemma parseFlags_accepted_witness :
  exists flags,
    Cmd.parseFlags "prod-cluster" "production" "openjdk-8,jdk-14" "eu-west-1,eu-west-2"
    = inr flags
    /\ Cmd.dockerImageKeyWords flags = ["openjdk-8"; "jdk-14"]
    /\ Cmd.ecrRegions flags = ["eu-west-1"; "eu-west-2"].
Proof.
  eexists. split; [reflexivity|].
  destruct (parseFlags_accepted "prod-cluster" "production" "openjdk-8,jdk-14"
              "eu-west-1,eu-west-2" _ eq_refl) as (_ & _ & _ & _ & Hk & _ & Hr & _).
  split; [rewrite Hk; reflexivity | rewrite Hr; reflexivity].
Defined.

(** When the usage message is printed. *)
Lemma parseFlags_usage_iff (contextFlag profileFlag keywordsFlag regionsFlag : string) :
  Cmd.parseFlags contextFlag profileFlag keywordsFlag regionsFlag = inl Cmd.FatalUsage
  <-> contextFlag = EmptyString \/ profileFlag = EmptyString \/ keywordsFlag = EmptyString.
Proof.
  unfold Cmd.parseFlags.
  assert (Hk : (List.length (if (0 <? String.length keywordsFlag)%nat
                             then Split keywordsFlag "," else []) =? 0)%nat = true
               <-> keywordsFlag = EmptyString).
  { destruct keywordsFlag as [|k ks]; [simpl; tauto|].
    cbn [String.length Nat.ltb Nat.leb].
    pose proof (Split_nonempty (String k ks) ",") as Hne.
    destruct (Split (String k ks) ","); [congruence|]. simpl. split; discriminate. }
  destruct (_ || _) eqn:Hcond.
  - split; [intros _ | reflexivity].
    apply orb_true_iff in Hcond as [Hcond|Hcond];
      [apply orb_true_iff in Hcond as [Hcond|Hcond]|].
    + left. apply length_zero_iff_empty, Hcond.
    + right. left. apply length_zero_iff_empty, Hcond.
    + right. right. apply Hk, Hcond.
  - apply orb_false_iff in Hcond as [Hcond Hkw].
    apply orb_false_iff in Hcond as [Hc Hpr]. split.
    + destruct (0 <? String.length regionsFlag)%nat; [destruct (negb _)|]; discriminate.
    + intros [H|[H|H]].
      * apply length_zero_iff_empty in H. congruence.
      * apply length_zero_iff_empty in H. congruence.
      * apply Hk in H. congruence.
Qed.

(** X4: [parseFlags] ends with the usage message exactly when the context, the
    profile or the keyword flag is empty, whatever the region flag says. *)
Theorem parseFlags_usage (contextFlag profileFlag keywordsFlag regionsFlag : string) :
  Cmd.parseFlags contextFlag profileFlag keywordsFlag regionsFlag = inl Cmd.FatalUsage
  <-> contextFlag = EmptyString \/ profileFlag = EmptyString \/ keywordsFlag = EmptyString.
Proof. apply parseFlags_usage_iff. Qed.

(** X5: unlike keywords, regions are validated: with the required flags given,
    a region flag with a trailing or doubled comma is rejected, the empty part
    being no region. *)
Theorem parseFlags_rejects_empty_region
    (contextFlag profileFlag keywordsFlag a b : string) (regionsFlag : string) :
  contextFlag <> EmptyString -> profileFlag <> EmptyString -> keywordsFlag <> EmptyString ->
  regionsFlag = a +:+ "," \/ regionsFlag = a +:+ ",," +:+ b ->
  Cmd.parseFlags contextFlag profileFlag keywordsFlag regionsFlag
  = inl (Cmd.FatalInvalidRegions (Split regionsFlag ","%char)).
Proof.
  intros Hc Hp Hk Hr.
  destruct (Cmd.parseFlags contextFlag profileFlag keywordsFlag regionsFlag)
    as [[|regions]|flags] eqn:Hparse.
  - apply parseFlags_usage_iff in Hparse. tauto.
  - f_equal. f_equal. unfold Cmd.parseFlags in Hparse.
    destruct (_ || _); [discriminate|].
    destruct (0 <? String.length regionsFlag)%nat; [|discriminate].
    destruct (negb _); [|discriminate]. injection Hparse as <-. reflexivity.
  - exfalso. destruct (parseFlags_inr_inv _ _ _ _ _ Hparse)
      as (_ & _ & _ & _ & _ & _ & Hregions & Hvalid).
    assert (Hin : In EmptyString (Cmd.ecrRegions flags)).
    { rewrite Hregions. destruct Hr as [->| ->].
      - rewrite (proj2 (String.eqb_neq _ _)) by (destruct a; discriminate).
        apply Split_trailing_separator.
      - rewrite (proj2 (String.eqb_neq _ _)) by (destruct a; discriminate).
        apply Split_doubled_separator. }
    apply Hvalid in Hin. apply sliceContains_In in Hin. discriminate Hin.
Qed.

Lemma parseFlags_rejects_empty_region_witness :
  Cmd.parseFlags "prod-cluster" "production" "jdk-14" "eu-west-1,"
  = inl (Cmd.FatalInvalidRegions ["eu-west-1"; ""]).
Proof.
  rewrite (parseFlags_rejects_empty_region "prod-cluster" "production" "jdk-14"
             "eu-west-1" "" "eu-west-1,"); [reflexivity | discriminate..| left; reflexivity].
Defined.

(** ** More on the keyword check *)

(** Every counter that is present is positive. *)
Lemma matchedKeywords_positive (rt : Runtime) (imageRef' : string) (keywords : list string)
    (history : list HistoryResponseItem) :
  forall keyword n,
    matchedKeywords (fold_left (stepLayer rt imageRef' keywords) history emptyResult) !! keyword
    = Some n -> (0 < n)%nat.
Proof.
  assert (Hkw : forall h ks r,
             (forall k n, matchedKeywords r !! k = Some n -> (0 < n)%nat) ->
             forall k n, matchedKeywords (fold_left (stepKeyword rt imageRef' h) ks r) !! k
                         = Some n -> (0 < n)%nat).
  { intros h ks. induction ks as [|k0 ks IH]; intros r Hr; simpl; [exact Hr|].
    apply IH. unfold stepKeyword. destruct (keywordMatches rt h k0); [|exact Hr].
    intros k n. simpl. destruct (decide (k0 = k)) as [->|Hne].
    - rewrite lookup_insert_eq. intros [= <-]. lia.
    - rewrite lookup_insert_ne by exact Hne. apply Hr. }
  assert (Hl : forall hs r,
             (forall k n, matchedKeywords r !! k = Some n -> (0 < n)%nat) ->
             forall k n, matchedKeywords (fold_left (stepLayer rt imageRef' keywords) hs r) !! k
                         = Some n -> (0 < n)%nat).
  { intros hs. induction hs as [|h hs IH]; intros r Hr; simpl; [exact Hr|].
    apply IH. unfold stepLayer. apply Hkw. exact Hr. }
  apply Hl. intros k n. simpl. rewrite lookup_empty. discriminate.
Qed.

(** X6: the map of matched keywords holds exactly the keywords that matched:
    a keyword has an entry when it is configured and some layer matches it,
    the entry is then its positive count, and no keyword has an entry 0. *)
Theorem matchedKeywords_exact
    (env : Env) (rt : Runtime) (imageRef' : string)
    (history : list HistoryResponseItem) (c : Config) (w : World) :
  docker_ImageHistory env imageRef' = inr history ->
  exists w' result,
    checkImageHistoryForKeyWords env rt imageRef' (c, w) = ((c, w'), Ok result)
    /\ forall keyword,
         matchedKeywords result !! keyword
         = (let n := (configured (dockerImageKeyWords c) keyword
                      * matchingLayers rt history keyword)%nat in
            if (n =? 0)%nat then None else Some n).
Proof.
  intros Hh.
  destruct (checkImageHistoryForKeyWords_returns env rt imageRef' history c w Hh)
    as (w' & Hrun & _ & _).
  exists w'. eexists. split; [exact Hrun|]. intros keyword. cbv zeta.
  pose proof (counter_history rt imageRef' (dockerImageKeyWords c) history emptyResult keyword)
    as Hcount.
  pose proof (matchedKeywords_positive rt imageRef' (dockerImageKeyWords c) history keyword)
    as Hpos.
  unfold counter in Hcount. simpl in Hcount. rewrite lookup_empty in Hcount. simpl in Hcount.
  destruct (matchedKeywords _ !! keyword) as [n|]; simpl in Hcount.
  - specialize (Hpos n eq_refl). rewrite <- Hcount.
    destruct (Nat.eqb_spec n 0); [lia | reflexivity].
  - rewrite <- Hcount. reflexivity.
Qed.

Lemma matchedKeywords_exact_witness :
  exists w' result,
    checkImageHistoryForKeyWords sampleEnv sampleRuntime "tomcat:9" (sampleConfig, emptyWorld)
    = ((sampleConfig, w'), Ok result)
    /\ matchedKeywords result !! "jdk-14" = Some 3%nat
    /\ matchedKeywords result !! "openjdk8" = None.
Proof.
  destruct (matchedKeywords_exact sampleEnv sampleRuntime "tomcat:9" _ sampleConfig
              emptyWorld eq_refl) as (w' & result & Hrun & Hexact).
  exists w', result. split; [exact Hrun|].
  split; rewrite Hexact; reflexivity.
Defined.

(** X7: the result names the image exactly when something matched; without
    a match its [imageRef] is left empty. *)
Theorem imageRef_set_on_match
    (env : Env) (rt : Runtime) (imageRef' : string)
    (history : list HistoryResponseItem) (c : Config) (w : World) :
  docker_ImageHistory env imageRef' = inr history ->
  exists w' result,
    checkImageHistoryForKeyWords env rt imageRef' (c, w) = ((c, w'), Ok result)
    /\ imageRef result = (if matchFound result then imageRef' else EmptyString).
Proof.
  intros Hh.
  destruct (checkImageHistoryForKeyWords_returns env rt imageRef' history c w Hh)
    as (w' & Hrun & _ & _).
  exists w'. eexists. split; [exact Hrun|].
  assert (Hkw : forall h ks r,
             (matchFound r = false -> imageRef r = EmptyString) ->
             matchFound (fold_left (stepKeyword rt imageRef' h) ks r) = false ->
             imageRef (fold_left (stepKeyword rt imageRef' h) ks r) = EmptyString).
  { intros h ks. induction ks as [|k ks IH]; intros r Hr; simpl; [exact Hr|].
    apply IH. unfold stepKeyword. destruct (keywordMatches rt h k); [discriminate | exact Hr]. }
  assert (Hl : forall hs r,
             (matchFound r = false -> imageRef r = EmptyString) ->
             matchFound (fold_left (stepLayer rt imageRef' (dockerImageKeyWords c)) hs r) = false ->
             imageRef (fold_left (stepLayer rt imageRef' (dockerImageKeyWords c)) hs r)
             = EmptyString).
  { intros hs. induction hs as [|h hs IH]; intros r Hr; simpl; [exact Hr|].
    apply IH. unfold stepLayer. apply Hkw. exact Hr. }
  destruct (matchFound _) eqn:Hm.
  - apply (imageRef_history rt imageRef' (dockerImageKeyWords c) history Hm).
  - apply Hl; [reflexivity | exact Hm].
Qed.

Lemma imageRef_set_on_match_witness :
  exists w' result,
    checkImageHistoryForKeyWords sampleEnv sampleRuntime "1.dkr.ecr.eu-west-1.amazonaws.com/api:1"
      (sampleConfig, emptyWorld) = ((sampleConfig, w'), Ok result)
    /\ matchFound result = false /\ imageRef result = EmptyString.
Proof.
  destruct (imageRef_set_on_match sampleEnv sampleRuntime
              "1.dkr.ecr.eu-west-1.amazonaws.com/api:1" _ sampleConfig emptyWorld eq_refl)
    as (w' & result & Hrun & Href).
  exists w', result. split; [exact Hrun|].
  assert (Hm : matchFound result = false).
  { vm_compute in Hrun. injection Hrun as _ <-. reflexivity. }
  split; [exact Hm|]. rewrite Href, Hm. reflexivity.
Defined.

(** ** More on the pull *)

(** X8: an image reference without "amazonaws.com" is pulled with empty
    options: no credential of the configuration is ever sent for it, and the
    daemon is asked exactly once. *)
Theorem pullImage_public_without_credentials
    (fuel : nat) (env : Env) (imageReference : string) (c : Config) (w : World) :
  Contains imageReference "amazonaws.com" = false ->
  exists result,
    pullImage fuel env imageReference (c, w)
    = ((c, withCall (CallImagePull imageReference {| RegistryAuth := EmptyString |}) w), result).
Proof.
  intros Hpublic. rewrite pullImage_unfold. unfold pullOptionsFor. rewrite Hpublic.
  simpl. destruct (docker_ImagePull env imageReference zeroPullOptions); eauto.
Qed.

Lemma pullImage_public_without_credentials_witness :
  Contains "tomcat:9" "amazonaws.com" = false
  /\ dockerCalls (snd (fst (pullImage 5 sampleEnv "tomcat:9" (sampleConfig, emptyWorld))))
     = [CallImagePull "tomcat:9" {| RegistryAuth := EmptyString |}].
Proof.
  split; [reflexivity|].
  destruct (pullImage_public_without_credentials 5 sampleEnv "tomcat:9" sampleConfig
              emptyWorld eq_refl) as [result ->].
  reflexivity.
Defined.

Section PullLoopMore.
Context (imageReference : string) (now : nat -> Z) (timeout : Z).

Lemma terminalAt_app (d1 d2 : list decodeStep) : forall event n,
  terminalAt d1 event n = true -> terminalAt (d1 ++ d2) event n = true.
Proof.
  induction d1 as [|[v|cause|] d1 IH]; intros event n; simpl; try discriminate.
  destruct (Decode v event) as [e|]; [|discriminate].
  destruct n as [|n]; [auto|].
  intros H. apply andb_true_iff in H as [He Ht]. rewrite He. simpl. apply IH, Ht.
Qed.

Lemma quiet_noStatus (d : list decodeStep) : forall event,
  Forall noStatus d ->
  match event with Some e => statusIsTerminal e = false | None => True end ->
  quiet d event = true.
Proof.
  induction d as [|step d IH]; intros event Hall Hev; [reflexivity|].
  inversion Hall as [|? ? (fields & -> & Hstatus) Hrest]; subst.
  assert (He : announcesCompletion (Status (storeFields fields (default zeroEvent event)))
               = false).
  { unfold storeFields. simpl. rewrite Hstatus. simpl.
    destruct event as [e|]; [exact Hev | reflexivity]. }
  cbn [quiet Decode]. rewrite He. simpl. apply IH; [exact Hrest | exact He].
Qed.

Lemma pullLoop_null (pre post : list decodeStep) : forall event fuel k,
  quiet pre event = true ->
  (forall i, (i <= List.length pre)%nat -> (now (k + i)%nat <= timeout)%Z) ->
  (List.length pre < fuel)%nat ->
  pullLoop fuel imageReference now timeout k (pre ++ Value JNull :: post) event
  = Panic NilDereference.
Proof.
  induction pre as [|[v|cause|] pre IH]; intros event fuel k Hq Hin Hfuel;
    (destruct fuel as [|fuel]; [simpl in Hfuel; lia|]);
    pose proof (Hin 0%nat ltac:(lia)) as H0; rewrite Nat.add_0_r in H0;
    simpl; (destruct (Z.ltb_spec timeout (now k)); [lia|]).
  - reflexivity.
  - simpl in Hq. destruct (Decode v event) as [e|]; [|discriminate].
    apply andb_true_iff in Hq as [He Hq]. apply negb_true_iff in He.
    rewrite statusIsTerminal_announcesCompletion, He.
    apply IH; [exact Hq | | simpl in Hfuel; lia].
    intros i Hi. replace (S k + i)%nat with (k + S i)%nat by lia. apply Hin. simpl. lia.
  - discriminate.
  - discriminate.
Qed.

(** A read that does not return, after events without a terminal status and
    before the deadline: the loop stands still, whatever the fuel. *)
Lemma pullLoop_blocks (pre post : list decodeStep) : forall event fuel k,
  quiet pre event = true ->
  (forall i, (i <= List.length pre)%nat -> (now (k + i)%nat <= timeout)%Z) ->
  pullLoop fuel imageReference now timeout k (pre ++ Blocks :: post) event = OutOfFuel.
Proof.
  induction pre as [|[v|cause|] pre IH]; intros event fuel k Hq Hin;
    (destruct fuel as [|fuel]; [reflexivity|]);
    pose proof (Hin 0%nat ltac:(lia)) as H0; rewrite Nat.add_0_r in H0;
    simpl; (destruct (Z.ltb_spec timeout (now k)); [lia|]).
  - reflexivity.
  - simpl in Hq. destruct (Decode v event) as [e|]; [|discriminate].
    apply andb_true_iff in Hq as [He Hq]. apply negb_true_iff in He.
    rewrite statusIsTerminal_announcesCompletion, He.
    apply IH; [exact Hq|].
    intros i Hi. replace (S k + i)%nat with (k + S i)%nat by lia. apply Hin. simpl. lia.
  - discriminate.
  - discriminate.
Qed.

(** As long as its reads return, the loop has returned, at the latest, at the
    first check it makes after the deadline. *)
Lemma pullLoop_terminates (n : nat) : forall fuel k d event,
  ~ In Blocks (take n d) ->
  (timeout < now (k + n)%nat)%Z -> (n < fuel)%nat ->
  pullLoop fuel imageReference now timeout k d event <> OutOfFuel.
Proof.
  induction n as [|n IH]; intros fuel k d event Hreads Hpast Hfuel;
    (destruct fuel as [|fuel]; [lia|]); simpl.
  - rewrite Nat.add_0_r in Hpast.
    destruct (Z.ltb_spec timeout (now k)); [discriminate | lia].
  - assert (Hnext : forall d' event',
               ~ In Blocks (take n d') ->
               pullLoop fuel imageReference now timeout (S k) d' event' <> OutOfFuel).
    { intros d' event' Hreads'. apply IH; [exact Hreads' | | lia].
      replace (S k + n)%nat with (k + S n)%nat by lia. exact Hpast. }
    destruct (_ <? _)%Z; [discriminate|].
    destruct d as [|[v|cause|] d].
    + destruct event as [e|]; [|discriminate].
      destruct (statusIsTerminal e); [discriminate | apply Hnext].
      destruct n; simpl; tauto.
    + destruct (Decode v event) as [e|]; [|discriminate].
      destruct (statusIsTerminal e); [discriminate | apply Hnext].
      intros Hin. apply Hreads. right. exact Hin.
    + discriminate.
    + exfalso. apply Hreads. left. reflexivity.
Qed.

End PullLoopMore.



(** X10: a [null] on the stream, after events without a terminal status and
    before the deadline, resets the event pointer; the status is then read
    through nil and the call panics. *)
Theorem pullImage_null_event_panics
    (fuel : nat) (env : Env) (imageReference : string) (c : Config) (w : World)
    (pullOptions : ImagePullOptions) (pre post : list decodeStep) :
  pullOptionsFor c imageReference = Some pullOptions ->
  docker_ImagePull env imageReference pullOptions = inr (pre ++ Value JNull :: post)%list ->
  quiet pre None = true ->
  (forall i, (i <= List.length pre)%nat ->
     (time_Now env imageReference (1 + i)%nat <= time_Now env imageReference 0%nat + tenMinutes)%Z) ->
  (List.length pre < fuel)%nat ->
  snd (pullImage fuel env imageReference (c, w)) = Panic NilDereference.
Proof.
  intros Hopts Hpull Hq Hin Hfuel.
  rewrite pullImage_unfold, Hopts. cbv zeta. rewrite Hpull. simpl snd.
  apply pullLoop_null; assumption.
Qed.

Lemma pullImage_null_event_panics_witness :
  docker_ImagePull nullEnv "tomcat:9" zeroPullOptions
  = inr ([statusEvent "Pulling from library"]
         ++ Value JNull :: [statusEvent "Status: Downloaded newer image"])%list
  /\ snd (pullImage 5 nullEnv "tomcat:9" (sampleConfig, emptyWorld)) = Panic NilDereference.
Proof.
  split; [reflexivity|].
  apply (pullImage_null_event_panics 5 nullEnv "tomcat:9" sampleConfig emptyWorld
           zeroPullOptions [statusEvent "Pulling from library"]
           [statusEvent "Status: Downloaded newer image"] eq_refl eq_refl eq_refl).
  - intros [|[|i]] Hi; [discriminate | discriminate | simpl in Hi; lia].
  - simpl. lia.
Defined.

(** X11: once the terminal status has been read the call returns: whatever
    the daemon sends after it --- malformed text included --- does not change
    the success. *)
Theorem pullImage_success_ignores_rest_of_stream
    (fuel : nat) (env env' : Env) (imageReference : string) (c : Config) (w : World)
    (pullOptions : ImagePullOptions) (events rest : list decodeStep) :
  pullOptionsFor c imageReference = Some pullOptions ->
  docker_ImagePull env imageReference pullOptions = inr events ->
  docker_ImagePull env' imageReference pullOptions = inr (events ++ rest)%list ->
  time_Now env' imageReference = time_Now env imageReference ->
  snd (pullImage fuel env imageReference (c, w)) = Ok tt ->
  snd (pullImage fuel env' imageReference (c, w)) = Ok tt.
Proof.
  intros Hopts Hpull Hpull' Hclock.
  rewrite !pullImage_unfold, Hopts. cbv zeta. rewrite Hpull, Hpull', Hclock. simpl snd.
  rewrite !pullLoop_Ok_iff by exact I.
  intros (n & Hfuel & Ht & Hin). exists n. split; [exact Hfuel|].
  split; [apply terminalAt_app, Ht | exact Hin].
Qed.

Lemma pullImage_success_ignores_rest_of_stream_witness :
  snd (pullImage 5 sampleEnv "tomcat:9" (sampleConfig, emptyWorld)) = Ok tt
  /\ snd (pullImage 5 trailingGarbageEnv "tomcat:9" (sampleConfig, emptyWorld)) = Ok tt.
Proof.
  assert (H : snd (pullImage 5 sampleEnv "tomcat:9" (sampleConfig, emptyWorld)) = Ok tt)
    by reflexivity.
  split; [exact H|].
  apply (pullImage_success_ignores_rest_of_stream 5 sampleEnv trailingGarbageEnv "tomcat:9"
           sampleConfig emptyWorld zeroPullOptions _ [DecodeFails "invalid character"]
           eq_refl eq_refl eq_refl eq_refl H).
Defined.

(** X12: the deadline ends a pull only between two reads.  As long as the
    reads of the stream return --- with an event, with text that does not
    decode, or with the end of the stream --- the call has ended, with a result,
    an error or a panic, by the first check that finds the clock past the
    deadline.  When a read does not return, after events without a terminal
    status, the call never returns, however far the clock runs on: the
    deadline is not looked at while [Decode] waits. *)
Theorem pullImage_deadline_needs_returning_reads
    (env : Env) (imageReference : string) (c : Config) (w : World)
    (pullOptions : ImagePullOptions) (events : list decodeStep) :
  pullOptionsFor c imageReference = Some pullOptions ->
  docker_ImagePull env imageReference pullOptions = inr events ->
  let now := time_Now env imageReference in
  let timeout := (now 0%nat + tenMinutes)%Z in
  (forall n fuel,
      ~ In Blocks (take n events) ->
      (timeout < now (1 + n)%nat)%Z -> (n < fuel)%nat ->
      snd (pullImage fuel env imageReference (c, w)) <> OutOfFuel)
  /\ (forall pre post,
        events = (pre ++ Blocks :: post)%list ->
        quiet pre None = true ->
        (forall i, (i <= List.length pre)%nat -> (now (1 + i)%nat <= timeout)%Z) ->
        forall fuel, snd (pullImage fuel env imageReference (c, w)) = OutOfFuel).
Proof.
  intros Hopts Hpull now timeout.
  assert (Hres : forall fuel,
             snd (pullImage fuel env imageReference (c, w))
             = pullLoop fuel imageReference now timeout 1 events None).
  { intros fuel. rewrite pullImage_unfold, Hopts. cbv zeta. rewrite Hpull. reflexivity. }
  split.
  - intros n fuel Hreads Hpast Hfuel. rewrite Hres.
    apply (pullLoop_terminates imageReference now timeout n); assumption.
  - intros pre post -> Hq Hin fuel. rewrite Hres.
    apply pullLoop_blocks; assumption.
Qed.

Lemma pullImage_deadline_needs_returning_reads_witness :
  (docker_ImagePull closedEarlyEnv "tomcat:9" zeroPullOptions
   = inr [statusEvent "Pulling from library"]
   /\ snd (pullImage 3 closedEarlyEnv "tomcat:9" (sampleConfig, emptyWorld)) <> OutOfFuel)
  /\ (docker_ImagePull stalledEnv "tomcat:9" zeroPullOptions
      = inr [statusEvent "Pulling from library"; Blocks]
      /\ (time_Now stalledEnv "tomcat:9" 0%nat + tenMinutes
          < time_Now stalledEnv "tomcat:9" 3%nat)%Z
      /\ forall fuel,
           snd (pullImage fuel stalledEnv "tomcat:9" (sampleConfig, emptyWorld)) = OutOfFuel).
Proof.
  split.
  - split; [reflexivity|].
    destruct (pullImage_deadline_needs_returning_reads closedEarlyEnv "tomcat:9" sampleConfig
                emptyWorld zeroPullOptions _ eq_refl eq_refl) as [Hends _].
    apply (Hends 2%nat 3%nat); [| reflexivity | lia].
    simpl. intros [H|[]]. discriminate H.
  - split; [reflexivity|]. split; [reflexivity|].
    destruct (pullImage_deadline_needs_returning_reads stalledEnv "tomcat:9" sampleConfig
                emptyWorld zeroPullOptions _ eq_refl eq_refl) as [_ Hblocked].
    apply (Hblocked [statusEvent "Pulling from library"] [] eq_refl eq_refl).
    intros [|[|i]] Hi; [discriminate | discriminate | simpl in Hi; lia].
Defined.

(** ** More on [NewConfig] *)

Lemma provisionCredentials_values (env : Env) (rt : Runtime) (profile : string)
    (regions : list string) : forall creds creds',
  provisionCredentials env rt profile regions creds = Ok creds' ->
  (forall region, In region regions ->
     exists blob, creds' !! region = Some blob /\ loginBlobOf env rt profile region blob)
  /\ (forall region, ~ In region regions -> creds' !! region = creds !! region).
Proof.
  induction regions as [|r rs IH]; intros creds creds'; simpl.
  - intros [= <-]. split; [intros region [] | reflexivity].
  - destruct (aws_LoadDefaultConfig env profile r); [discriminate|].
    destruct (ecr_GetAuthorizationToken env profile r) as [cause|[|[token|] more]] eqn:Htoken;
      try discriminate.
    destruct (base64_DecodeString rt token) as [cause|decodedToken] eqn:Hdecode;
      [discriminate|].
    destruct (Split decodedToken ":" !! 1%nat) as [password|] eqn:Hsplit; [|discriminate].
    destruct (json_Marshal rt _) as [cause|jsonBytes] eqn:Hjson; [discriminate|].
    intros Hrest. destruct (IH _ _ Hrest) as [Hin Hout].
    assert (Hr : exists blob, creds' !! r = Some blob /\ loginBlobOf env rt profile r blob).
    { destruct (in_dec String.string_dec r rs) as [Hi|Hni]; [apply Hin, Hi|].
      exists (base64_EncodeToString rt jsonBytes). split.
      - rewrite (Hout r Hni). apply lookup_insert_eq.
      - exists token, more, decodedToken, password, jsonBytes. auto. }
    split.
    + intros region [<-|Hi]; [exact Hr | apply Hin, Hi].
    + intros region Hni. rewrite Hout by tauto. apply lookup_insert_ne. tauto.
Qed.

(** X13: in a configuration returned by [NewConfig], the credential of each
    configured region is the encoded JSON object whose user name is the fixed
    "AWS" and whose password is the second colon-separated field of the
    region's decoded token; the first field, and anything after a second
    colon, is dropped. *)
Theorem NewConfig_credential_values
    (env : Env) (rt : Runtime) (keywords : list string)
    (clusterAccountProfile imagesAccountProfile : string) (regions : list string)
    (cfg : Config) :
  NewConfig env rt keywords clusterAccountProfile imagesAccountProfile regions = Ok cfg ->
  forall region, In region regions ->
    exists blob, ecrCredentials cfg !! region = Some blob
                 /\ loginBlobOf env rt imagesAccountProfile region blob.
Proof.
  intros Hnew. apply NewConfig_Ok_inv in Hnew as (Hprov & _).
  apply (provisionCredentials_values _ _ _ _ _ _ Hprov).
Qed.

Lemma NewConfig_credential_values_witness :
  exists cfg,
    NewConfig colonPasswordEnv sampleRuntime ["jdk-14"] "prod-cluster" "production"
      ["eu-west-1"] = Ok cfg
    /\ exists blob,
         ecrCredentials cfg !! "eu-west-1" = Some blob
         /\ loginBlobOf colonPasswordEnv sampleRuntime "production" "eu-west-1" blob
         /\ Split "AWS:pass:word-eu-west-1" ":"%char !! 1%nat = Some "pass".
Proof.
  eexists. split; [reflexivity|].
  destruct (NewConfig_credential_values colonPasswordEnv sampleRuntime ["jdk-14"]
              "prod-cluster" "production" ["eu-west-1"] _ eq_refl "eu-west-1"
              (or_introl eq_refl)) as (blob & Hblob & Hlogin).
  exists blob. split; [exact Hblob|]. split; [exact Hlogin | reflexivity].
Defined.

(** X14: [NewConfig] fails fast.  The regions before it having been
    provisioned, the first region whose configuration does not load, whose
    token is refused, does not decode, or whose login blob cannot be
    marshalled ends [NewConfig] with the matching error; no configuration is
    returned and the regions after it play no part. *)
Theorem NewConfig_fails_at_first_region
    (env : Env) (rt : Runtime) (keywords : list string)
    (clusterAccountProfile imagesAccountProfile : string)
    (before after : list string) (region : string) :
  (forall r, In r before -> regionProvisionable env rt imagesAccountProfile r) ->
  let result := NewConfig env rt keywords clusterAccountProfile imagesAccountProfile
                  (before ++ region :: after) in
  (forall cause,
      aws_LoadDefaultConfig env imagesAccountProfile region = Some cause ->
      result = Err (ErrLoadingAWSConfig cause))
  /\ (forall cause,
        aws_LoadDefaultConfig env imagesAccountProfile region = None ->
        ecr_GetAuthorizationToken env imagesAccountProfile region = inl cause ->
        result = Err (ErrGettingECRAuthToken cause))
  /\ (forall token more cause,
        aws_LoadDefaultConfig env imagesAccountProfile region = None ->
        ecr_GetAuthorizationToken env imagesAccountProfile region = inr (Some token :: more) ->
        base64_DecodeString rt token = inl cause ->
        result = Err (ErrDecodingECRAuthToken cause))
  /\ (forall token more decodedToken password cause,
        aws_LoadDefaultConfig env imagesAccountProfile region = None ->
        ecr_GetAuthorizationToken env imagesAccountProfile region = inr (Some token :: more) ->
        base64_DecodeString rt token = inr decodedToken ->
        Split decodedToken ":"%char !! 1%nat = Some password ->
        json_Marshal rt (<["username" := "AWS"]> (<["password" := password]> ∅)) = inl cause ->
        result = Err (ErrMarshallingECRCreds cause)).
Proof.
  intros Hbefore result. subst result. unfold NewConfig.
  rewrite provisionCredentials_app.
  destruct (provisionCredentials_returns env rt imagesAccountProfile before ∅ Hbefore)
    as [creds ->].
  simpl. repeat split.
  - intros cause ->. reflexivity.
  - intros cause -> ->. reflexivity.
  - intros token more cause -> -> ->. reflexivity.
  - intros token more decodedToken password cause -> -> -> -> ->. reflexivity.
Qed.

Lemma NewConfig_fails_at_first_region_witness :
  (forall r, In r ["eu-west-1"] ->
             regionProvisionable unknownProfileEnv sampleRuntime "production" r)
  /\ NewConfig unknownProfileEnv sampleRuntime ["jdk-14"] "prod-cluster" "production"
       ["eu-west-1"; "eu-west-2"; "eu-west-3"]
     = Err (ErrLoadingAWSConfig "failed to get shared config profile").
Proof.
  assert (Hbefore : forall r, In r ["eu-west-1"] ->
                              regionProvisionable unknownProfileEnv sampleRuntime "production" r).
  { intros r [<-|[]]. split; [reflexivity|].
    exists "AWS:secret-eu-west-1", [], "AWS:secret-eu-west-1", "secret-eu-west-1".
    eexists. repeat split. }
  split; [exact Hbefore|].
  destruct (NewConfig_fails_at_first_region unknownProfileEnv sampleRuntime ["jdk-14"]
              "prod-cluster" "production" ["eu-west-1"] ["eu-west-3"] "eu-west-2" Hbefore)
    as (Hload & _).
  apply Hload. reflexivity.
Defined.

(** X15: two more unchecked accesses of [NewConfig]: a token response without
    authorization data makes [AuthorizationData[0]] panic with an index out of
    range, and one whose first entry has no token makes the dereference of the
    token panic; neither is returned as an error. *)
Theorem NewConfig_panics_on_missing_authorization_data
    (env : Env) (rt : Runtime) (keywords : list string)
    (clusterAccountProfile imagesAccountProfile : string)
    (before after : list string) (region : string) :
  (forall r, In r before -> regionProvisionable env rt imagesAccountProfile r) ->
  aws_LoadDefaultConfig env imagesAccountProfile region = None ->
  let result := NewConfig env rt keywords clusterAccountProfile imagesAccountProfile
                  (before ++ region :: after) in
  (ecr_GetAuthorizationToken env imagesAccountProfile region = inr [] ->
   result = Panic IndexOutOfRange)
  /\ (forall more,
        ecr_GetAuthorizationToken env imagesAccountProfile region = inr (None :: more) ->
        result = Panic NilDereference).
Proof.
  intros Hbefore Hload result. subst result. unfold NewConfig.
  rewrite provisionCredentials_app.
  destruct (provisionCredentials_returns env rt imagesAccountProfile before ∅ Hbefore)
    as [creds ->].
  simpl. rewrite Hload. split.
  - intros ->. reflexivity.
  - intros more ->. reflexivity.
Qed.

Lemma NewConfig_panics_on_missing_authorization_data_witness :
  (forall r, In r ["eu-west-1"] ->
             regionProvisionable noAuthorizationDataEnv sampleRuntime "production" r)
  /\ aws_LoadDefaultConfig noAuthorizationDataEnv "production" "eu-west-2" = None
  /\ NewConfig noAuthorizationDataEnv sampleRuntime ["jdk-14"] "prod-cluster" "production"
       ["eu-west-1"; "eu-west-2"] = Panic IndexOutOfRange.
Proof.
  assert (Hbefore : forall r, In r ["eu-west-1"] ->
            regionProvisionable noAuthorizationDataEnv sampleRuntime "production" r).
  { intros r [<-|[]]. split; [reflexivity|].
    exists "AWS:secret-eu-west-1", [], "AWS:secret-eu-west-1", "secret-eu-west-1".
    eexists. repeat split. }
  split; [exact Hbefore|]. split; [reflexivity|].
  destruct (NewConfig_panics_on_missing_authorization_data noAuthorizationDataEnv
              sampleRuntime ["jdk-14"] "prod-cluster" "production" ["eu-west-1"] []
              "eu-west-2" Hbefore eq_refl) as (Hempty & _).
  apply Hempty. reflexivity.
Defined.

(** ** How the steps of the pipeline end *)

Section EndsWith.
Context (E : error -> Prop).

Lemma endsWith_ret {A} (a : A) : endsWith E (ret a).
Proof. intros st. exact I. Qed.

Lemma endsWith_fail {A} (e : error) : E e -> endsWith E (@fail A e).
Proof. intros He st. exact He. Qed.

Lemma endsWith_getConfig : endsWith E getConfig.
Proof. intros st. exact I. Qed.

Lemma endsWith_modifyWorld (f : World -> World) : endsWith E (modifyWorld f).
Proof. intros st. exact I. Qed.

Lemma endsWith_modifyConfig (f : Config -> Config) : endsWith E (modifyConfig f).
Proof. intros st. exact I. Qed.

Lemma endsWith_bind {A B} (c : M A) (k : A -> M B) :
  endsWith E c -> (forall a, endsWith E (k a)) -> endsWith E (bind c k).
Proof.
  intros Hc Hk st. unfold bind. specialize (Hc st).
  destruct (c st) as [st' [a|e|p|]]; simpl in *; try exact Hc. apply Hk.
Qed.

Lemma endsWith_forEach {A} (l : list A) (body : A -> M unit) :
  (forall a, endsWith E (body a)) -> endsWith E (forEach l body).
Proof.
  intros Hbody. induction l; simpl; [apply endsWith_ret|].
  apply endsWith_bind; [apply Hbody | intros _; assumption].
Qed.

Lemma endsWith_foldM {A S} (body : S -> A -> M S) (l : list A) :
  (forall s a, endsWith E (body s a)) -> forall s, endsWith E (foldM body l s).
Proof.
  intros Hbody. induction l; intros s; simpl; [apply endsWith_ret|].
  apply endsWith_bind; [apply Hbody | intros s'; apply IHl].
Qed.

Lemma endsWith_OpenFile (env : Env) (path : string) : endsWith E (OpenFile env path).
Proof. unfold OpenFile. intros st. destruct (os_OpenFile env path); exact I. Qed.

Lemma endsWith_WriteString (env : Env) (path data : string) :
  endsWith E (WriteString env path data).
Proof. unfold WriteString. intros st. destruct (file_WriteString env path data); exact I. Qed.

End EndsWith.

Lemma endsWith_writeLine (env : Env) (path image : string) (groups : list string) :
  endsWith isReportError (writeLine env path image groups).
Proof.
  unfold writeLine.
  apply endsWith_bind; [apply endsWith_WriteString | intros _].
  apply endsWith_bind.
  - apply endsWith_forEach. intros g.
    apply endsWith_bind; [apply endsWith_WriteString | intros _; apply endsWith_ret].
  - intros _. apply endsWith_bind; [apply endsWith_WriteString|].
    intros [cause|]; [|apply endsWith_ret].
    apply endsWith_fail. exists path, cause. auto.
Qed.

Lemma endsWith_outputOffendingImages (env : Env) (rt : Runtime) :
  endsWith isReportError (outputOffendingImages env rt).
Proof.
  unfold outputOffendingImages. apply endsWith_bind; [apply endsWith_getConfig | intros c].
  cbv zeta. destruct (0 <? _)%nat; [|apply endsWith_modifyWorld].
  apply endsWith_bind; [apply endsWith_OpenFile|].
  intros [cause|]; [apply endsWith_fail; eexists _, cause; auto|].
  apply endsWith_bind; [|intros _; apply endsWith_modifyWorld].
  apply endsWith_forEach. intros i. apply endsWith_writeLine.
Qed.

Lemma endsWith_outputNonECRImages (env : Env) (rt : Runtime) :
  endsWith isReportError (outputNonECRImages env rt).
Proof.
  unfold outputNonECRImages. apply endsWith_bind; [apply endsWith_getConfig | intros c].
  cbv zeta. apply endsWith_bind; [apply endsWith_OpenFile|].
  intros [cause|]; [apply endsWith_fail; eexists _, cause; auto|].
  apply endsWith_bind; [|intros _; apply endsWith_modifyWorld].
  apply endsWith_forEach. intros [image details].
  destruct (negb _); [apply endsWith_writeLine | apply endsWith_ret].
Qed.


(** ** Frames for the scan, the report writers and the whole pipeline *)

Section FramePipeline.
Context (R : Config * World -> Config * World -> Prop) `{!PreOrder R}.
Context (R_print : forall l, framed R (print l))
        (R_recordCall : forall call, framed R (recordCall call))
        (R_OpenFile : forall env path, framed R (OpenFile env path))
        (R_WriteString : forall env path data, framed R (WriteString env path data))
        (R_scan : forall pods, framed R (modifyConfig (fun c =>
                    setDockerImages (recordPods (dockerImages c) pods) c)))
        (R_append : forall result, framed R (modifyConfig (fun c =>
                      setOffendingDockerImages (offendingDockerImages c ++ [result])%list c))).

Lemma framed_queryAllContainerImageRefsInCluster (env : Env) :
  framed R (queryAllContainerImageRefsInCluster env).
Proof.
  unfold queryAllContainerImageRefsInCluster.
  destruct (k8s_PodsList env) as [cause|pods]; [apply framed_fail; assumption|].
  apply framed_bind; [assumption | apply R_print | intros _].
  apply framed_bind; [assumption | apply R_scan | intros _].
  apply framed_bind; [assumption | apply framed_getConfig; assumption | intros c].
  apply R_print.
Qed.

Lemma framed_outputOffendingImages (env : Env) (rt : Runtime) :
  framed R (outputOffendingImages env rt).
Proof.
  unfold outputOffendingImages.
  apply framed_bind; [assumption | apply framed_getConfig; assumption | intros c].
  cbv zeta. destruct (0 <? _)%nat; [|apply R_print].
  apply framed_bind; [assumption | apply R_OpenFile|].
  intros [cause|]; [apply framed_fail; assumption|].
  apply framed_bind; [assumption | | intros _; apply R_print].
  apply framed_forEach; [assumption|]. intros i.
  apply framed_writeLine; [assumption|]. apply R_WriteString.
Qed.

Lemma framed_outputNonECRImages (env : Env) (rt : Runtime) :
  framed R (outputNonECRImages env rt).
Proof.
  unfold outputNonECRImages.
  apply framed_bind; [assumption | apply framed_getConfig; assumption | intros c].
  cbv zeta. apply framed_bind; [assumption | apply R_OpenFile|].
  intros [cause|]; [apply framed_fail; assumption|].
  apply framed_bind; [assumption | | intros _; apply R_print].
  apply framed_forEach; [assumption|]. intros [image details].
  destruct (negb _); [|apply framed_ret; assumption].
  apply framed_writeLine; [assumption|]. apply R_WriteString.
Qed.

Lemma framed_images_loop (fuel : nat) (env : Env) (rt : Runtime) (total : nat)
    (images : list string) (count : nat) :
  framed R (foldM (processImage fuel env rt total) images count).
Proof.
  apply framed_foldM; [assumption|]. intros s image.
  apply framed_processImage; assumption.
Qed.

Lemma framed_ProcessAllImagesHistoryForKeywords (fuel : nat) (env : Env) (rt : Runtime) :
  framed R (ProcessAllImagesHistoryForKeywords fuel env rt).
Proof.
  unfold ProcessAllImagesHistoryForKeywords.
  apply framed_bind;
    [assumption | apply framed_queryAllContainerImageRefsInCluster | intros _].
  apply framed_bind; [assumption | apply framed_getConfig; assumption | intros c].
  cbv zeta. apply framed_bind; [assumption | apply framed_images_loop | intros _].
  apply framed_bind; [assumption | apply framed_outputOffendingImages | intros _].
  apply framed_outputNonECRImages.
Qed.

End FramePipeline.

#[local] Instance sameFiles_preorder : PreOrder sameFiles.
Proof.
  split; [intros st; reflexivity|].
  intros st1 st2 st3 H1 H2. unfold sameFiles in *. congruence.
Qed.

#[local] Instance sameCalls_preorder : PreOrder sameCalls.
Proof.
  split; [intros st; split; reflexivity|].
  intros st1 st2 st3 [Hc1 Hd1] [Hc2 Hd2]. split; congruence.
Qed.

#[local] Instance sameSettings_preorder : PreOrder sameSettings.
Proof.
  split; [intros st; repeat split|].
  intros st1 st2 st3 (Ha1 & Hb1 & Hc1 & Hd1 & He1) (Ha2 & Hb2 & Hc2 & Hd2 & He2).
  repeat split; congruence.
Qed.

(** X17: a run of the pipeline, however it ends, leaves the settings of the
    configuration alone: the keywords, the credentials, the regions, the
    cluster context and the profile are those [NewConfig] stored; only the
    image map and the offending images change. *)
Theorem ProcessAllImagesHistoryForKeywords_keeps_settings
    (fuel : nat) (env : Env) (rt : Runtime) (c : Config) (w : World) :
  let c' := fst (fst (ProcessAllImagesHistoryForKeywords fuel env rt (c, w))) in
  dockerImageKeyWords c' = dockerImageKeyWords c
  /\ ecrCredentials c' = ecrCredentials c
  /\ ecrRegions c' = ecrRegions c
  /\ clusterK8sContextName c' = clusterK8sContextName c
  /\ imagesAccountAWSProfileName c' = imagesAccountAWSProfileName c.
Proof.
  apply (framed_ProcessAllImagesHistoryForKeywords sameSettings); intros;
    try (intros [c0 w0]; unfold sameSettings; simpl; tauto).
  - unfold OpenFile. intros [c0 w0]. destruct (os_OpenFile env0 path); repeat split.
  - unfold WriteString. intros [c0 w0].
    destruct (file_WriteString env0 path data); repeat split.
Qed.

(** ** The trace of a run *)

Lemma cleanupImage_unfold (env : Env) (imageReference : string) (c : Config) (w : World) :
  cleanupImage env imageReference (c, w)
  = ((c, withCall (CallImageRemove imageReference) w),
     match docker_ImageRemove env imageReference with
     | Some cause => Err (ErrCleaningUpImage imageReference cause)
     | None => Ok tt
     end).
Proof.
  unfold cleanupImage, bind, recordCall, modifyWorld. simpl.
  destruct (docker_ImageRemove env imageReference); reflexivity.
Qed.

Lemma checkImageHistoryForKeyWords_fails (env : Env) (rt : Runtime) (imageRef' cause : string)
    (c : Config) (w : World) :
  docker_ImageHistory env imageRef' = inl cause ->
  checkImageHistoryForKeyWords env rt imageRef' (c, w)
  = ((c, withCall (CallImageHistory imageRef') w), Err (ErrQueryingImageHistory imageRef' cause)).
Proof.
  intros Hh. unfold checkImageHistoryForKeyWords, bind, getConfig, recordCall, modifyWorld.
  simpl. rewrite Hh. reflexivity.
Qed.

Lemma callsFor_setOffendingDockerImages (l : list offendingDockerImage) (c : Config)
    (image : string) :
  callsFor (setOffendingDockerImages l c) image = callsFor c image.
Proof. reflexivity. Qed.

Lemma setOffendingDockerImages_same (c : Config) :
  setOffendingDockerImages (offendingDockerImages c) c = c.
Proof. destruct c. reflexivity. Qed.

(** One turn of the loop that returns: the image was pulled, checked and
    removed, in that order, and its result was added when it matched. *)
Lemma processImage_Ok_inv (fuel : nat) (env : Env) (rt : Runtime)
    (totalUniqueImages count n : nat) (image : string) (c c' : Config) (w w' : World) :
  processImage fuel env rt totalUniqueImages count image (c, w) = ((c', w'), Ok n) ->
  n = S count
  /\ c' = (let result := auditResult env rt (dockerImageKeyWords c) image in
           if matchFound result
           then setOffendingDockerImages (offendingDockerImages c ++ [result])%list c
           else c)
  /\ dockerCalls w' = (dockerCalls w ++ callsFor c image)%list
  /\ files w' = files w.
Proof.
  unfold processImage. intros H.
  rewrite (bind_Ok _ _ (c, w)
             (c, {| files := files w;
                    console := (console w ++ [PrintPulling count totalUniqueImages image])%list;
                    dockerCalls := dockerCalls w |}) tt) in H by reflexivity.
  unfold bind at 1 in H. rewrite pullImage_unfold in H.
  unfold callsFor.
  destruct (pullOptionsFor c image) as [pullOptions|]; [|discriminate].
  cbv zeta in H.
  destruct (docker_ImagePull env image pullOptions) as [cause|events]; [discriminate|].
  destruct (pullLoop _ _ _ _ _ _ _) as [[]| | |]; try discriminate.
  unfold auditResult.
  destruct (docker_ImageHistory env image) as [cause|history] eqn:Hh.
  { unfold bind at 1 in H.
    rewrite (checkImageHistoryForKeyWords_fails env rt image cause _ _ Hh) in H.
    discriminate. }
  match type of H with
  | context [bind (checkImageHistoryForKeyWords env rt image) _ (c, ?w0)] =>
      destruct (checkImageHistoryForKeyWords_returns env rt image history c w0 Hh)
        as (w1 & E & Hf & Hd)
  end.
  rewrite (bind_Ok _ _ _ _ _ E) in H. simpl in Hf, Hd. cbv zeta.
  destruct (matchFound _) eqn:Hm.
  - match type of H with
    | context [modifyConfig ?f] =>
        rewrite (bind_Ok _ _ (c, w1) (f c, w1) tt) in H by reflexivity
    end.
    unfold bind at 1 in H. rewrite cleanupImage_unfold in H.
    destruct (docker_ImageRemove env image); [discriminate|].
    injection H as <- <- <-. simpl. rewrite Hd, Hf, <- !app_assoc. auto.
  - rewrite (bind_Ok _ _ (c, w1) (c, w1) tt) in H by reflexivity.
    unfold bind at 1 in H. rewrite cleanupImage_unfold in H.
    destruct (docker_ImageRemove env image); [discriminate|].
    injection H as <- <- <-. simpl. rewrite Hd, Hf, <- !app_assoc. auto.
Qed.

(** The loop over the images, when it returns. *)
Lemma images_loop_Ok_inv (fuel : nat) (env : Env) (rt : Runtime) (totalUniqueImages : nat)
    (images : list string) : forall (count n : nat) (c c' : Config) (w w' : World),
  foldM (processImage fuel env rt totalUniqueImages) images count (c, w) = ((c', w'), Ok n) ->
  c' = setOffendingDockerImages
         (offendingDockerImages c
          ++ List.filter matchFound (map (auditResult env rt (dockerImageKeyWords c)) images))%list
         c
  /\ dockerCalls w' = (dockerCalls w ++ flat_map (callsFor c) images)%list
  /\ files w' = files w.
Proof.
  induction images as [|image images IH]; intros count n c c' w w'; simpl.
  - intros [= <- <- <-]. rewrite !app_nil_r, setOffendingDockerImages_same. auto.
  - intros H. unfold bind at 1 in H.
    destruct (processImage fuel env rt totalUniqueImages count image (c, w))
      as [[c1 w1] [n1| | |]] eqn:E1; try discriminate.
    apply processImage_Ok_inv in E1 as (_ & Hc1 & Hd1 & Hf1).
    apply IH in H as (Hc' & Hd' & Hf'). cbv zeta in Hc1.
    rewrite Hc', Hd', Hf', Hd1, Hf1.
    destruct (matchFound (auditResult env rt (dockerImageKeyWords c) image)) eqn:Hm; subst c1.
    + split; [|split; [|reflexivity]].
      * destruct c. simpl. unfold setOffendingDockerImages. simpl.
        rewrite <- app_assoc. reflexivity.
      * rewrite <- app_assoc. reflexivity.
    + split; [reflexivity | split; [|reflexivity]].
      rewrite <- app_assoc. reflexivity.
Qed.

Lemma sameCalls_print (l : consoleLine) : framed sameCalls (print l).
Proof. intros [c w]. split; reflexivity. Qed.

Lemma sameCalls_OpenFile (env : Env) (path : string) : framed sameCalls (OpenFile env path).
Proof. unfold OpenFile. intros [c w]. destruct (os_OpenFile env path); split; reflexivity. Qed.

Lemma sameCalls_WriteString (env : Env) (path data : string) :
  framed sameCalls (WriteString env path data).
Proof.
  unfold WriteString. intros [c w].
  destruct (file_WriteString env path data); split; reflexivity.
Qed.

(** X18: in a run that returns, the images are handled one after the other in
    the order in which the image map is visited: for each image one pull, one
    history query and one removal, in that order, and nothing else is asked of
    the daemon; the offending images are the results of the images that
    matched, in the same order. *)
Theorem returning_run_handles_images_in_turn
    (fuel : nat) (env : Env) (rt : Runtime) (c c' : Config) (w w' : World) :
  ProcessAllImagesHistoryForKeywords fuel env rt (c, w) = ((c', w'), Ok tt) ->
  exists pods,
    k8s_PodsList env = inr pods
    /\ let images := recordPods (dockerImages c) pods in
       let order := map fst (rangeImages rt images) in
       dockerImages c' = images
       /\ offendingDockerImages c'
          = (offendingDockerImages c
             ++ List.filter matchFound
                  (map (auditResult env rt (dockerImageKeyWords c)) order))%list
       /\ dockerCalls w' = (dockerCalls w ++ flat_map (callsFor c) order)%list.
Proof.
  intros Hrun. unfold ProcessAllImagesHistoryForKeywords in Hrun.
  destruct (k8s_PodsList env) as [cause|pods] eqn:Hpods.
  { unfold bind at 1, queryAllContainerImageRefsInCluster in Hrun.
    rewrite Hpods in Hrun. discriminate. }
  exists pods. split; [reflexivity|]. cbv zeta.
  destruct (queryAllContainerImageRefsInCluster_returns env pods c w Hpods)
    as (w1 & E1 & _ & Hd1).
  rewrite (bind_Ok _ _ _ _ _ E1) in Hrun.
  set (c1 := setDockerImages (recordPods (dockerImages c) pods) c) in *.
  rewrite (bind_Ok _ _ (c1, w1) (c1, w1) c1) in Hrun by reflexivity. cbv zeta in Hrun.
  unfold bind at 1 in Hrun.
  destruct (foldM _ _ _ (c1, w1)) as [[c2 w2] [count| | |]] eqn:E2; try discriminate.
  apply images_loop_Ok_inv in E2 as (Hc2 & Hd2 & _).
  pose proof (framed_outputOffendingImages sameCalls sameCalls_print sameCalls_OpenFile
                sameCalls_WriteString env rt (c2, w2)) as Hoff.
  unfold bind at 1 in Hrun.
  destruct (outputOffendingImages env rt (c2, w2)) as [[c3 w3] [[]| | |]]; try discriminate.
  pose proof (framed_outputNonECRImages sameCalls sameCalls_print sameCalls_OpenFile
                sameCalls_WriteString env rt (c3, w3)) as Hnon.
  rewrite Hrun in Hnon. destruct Hoff as [Hc3 Hd3]. destruct Hnon as [Hc' Hd'].
  simpl in Hc3, Hd3, Hc', Hd'. subst c' c3. rewrite Hd', Hd3, Hd2, Hd1, Hc2.
  repeat split.
Qed.

Lemma returning_run_handles_images_in_turn_witness :
  sampleRun = ((fst (fst sampleRun), snd (fst sampleRun)), Ok tt)
  /\ dockerCalls (snd (fst sampleRun))
     = [CallImagePull "1.dkr.ecr.eu-west-1.amazonaws.com/api:1"
          {| RegistryAuth := "cred-eu-west-1" |};
        CallImageHistory "1.dkr.ecr.eu-west-1.amazonaws.com/api:1";
        CallImageRemove "1.dkr.ecr.eu-west-1.amazonaws.com/api:1";
        CallImagePull "tomcat:9" {| RegistryAuth := EmptyString |};
        CallImageHistory "tomcat:9";
        CallImageRemove "tomcat:9"]
  /\ map imageRef (offendingDockerImages (fst (fst sampleRun))) = ["tomcat:9"].
Proof.
  assert (Hrun : sampleRun = ((fst (fst sampleRun), snd (fst sampleRun)), Ok tt))
    by (vm_compute; reflexivity).
  split; [exact Hrun|].
  destruct (returning_run_handles_images_in_turn 5 sampleEnv sampleRuntime sampleConfig _
              emptyWorld _ Hrun) as (pods & Hpods & _ & Hoffending & Hcalls).
  injection Hpods as <-.
  split; [rewrite Hcalls | rewrite Hoffending]; reflexivity.
Defined.

(** X19: no cleanup on the error path.  When the pull of an image succeeded
    and its history cannot be read, that turn of the loop returns the history
    error after the pull and the history query; the removal of the image is
    never asked for, and the configuration is left as it was. *)
Theorem processImage_history_failure_skips_cleanup
    (fuel : nat) (env : Env) (rt : Runtime) (totalUniqueImages count : nat)
    (image cause : string) (c : Config) (w : World) :
  snd (pullImage fuel env image (c, w)) = Ok tt ->
  docker_ImageHistory env image = inl cause ->
  exists w',
    processImage fuel env rt totalUniqueImages count image (c, w)
    = ((c, w'), Err (ErrQueryingImageHistory image cause))
    /\ dockerCalls w'
       = (dockerCalls w
          ++ [CallImagePull image (default zeroPullOptions (pullOptionsFor c image));
              CallImageHistory image])%list
    /\ files w' = files w.
Proof.
  intros Hpull Hh. rewrite pullImage_unfold in Hpull. unfold processImage.
  rewrite (bind_Ok _ _ (c, w)
             (c, {| files := files w;
                    console := (console w ++ [PrintPulling count totalUniqueImages image])%list;
                    dockerCalls := dockerCalls w |}) tt) by reflexivity.
  unfold bind at 1. rewrite pullImage_unfold.
  destruct (pullOptionsFor c image) as [pullOptions|]; [|discriminate].
  cbv zeta in Hpull |- *.
  destruct (docker_ImagePull env image pullOptions) as [cause'|events]; [discriminate|].
  simpl in Hpull. rewrite Hpull.
  unfold bind at 1. rewrite (checkImageHistoryForKeyWords_fails env rt image cause _ _ Hh).
  eexists. split; [reflexivity|]. simpl. rewrite <- app_assoc. auto.
Qed.

Lemma processImage_history_failure_skips_cleanup_witness :
  snd (pullImage 5 noHistoryEnv "tomcat:9" (sampleConfig, emptyWorld)) = Ok tt
  /\ docker_ImageHistory noHistoryEnv "tomcat:9" = inl "No such image"
  /\ exists w',
       processImage 5 noHistoryEnv sampleRuntime 2 1 "tomcat:9" (sampleConfig, emptyWorld)
       = ((sampleConfig, w'), Err (ErrQueryingImageHistory "tomcat:9" "No such image"))
       /\ dockerCalls w'
          = [CallImagePull "tomcat:9" {| RegistryAuth := EmptyString |};
             CallImageHistory "tomcat:9"].
Proof.
  split; [reflexivity|]. split; [reflexivity|].
  destruct (processImage_history_failure_skips_cleanup 5 noHistoryEnv sampleRuntime 2 1
              "tomcat:9" "No such image" sampleConfig emptyWorld eq_refl eq_refl)
    as (w' & Hrun & Hcalls & _).
  exists w'. split; [exact Hrun | rewrite Hcalls; reflexivity].
Defined.

Lemma sameFiles_modifyWorld (f : World -> World) :
  (forall w, files (f w) = files w) -> framed sameFiles (modifyWorld f).
Proof. intros Hf [c w]. apply Hf. Qed.

(** X20: the reports are written last, and only then.  When a run ends in
    anything but success or an error of a report writer --- the pod query, a
    pull, a history query or a removal failed, or the pull panicked --- no file
    has been touched: what had matched until then is reported nowhere. *)
Theorem failed_run_writes_no_report
    (fuel : nat) (env : Env) (rt : Runtime) (c c' : Config) (w w' : World)
    (o : outcome unit) :
  ProcessAllImagesHistoryForKeywords fuel env rt (c, w) = ((c', w'), o) ->
  o <> Ok tt ->
  (forall e, o = Err e -> ~ isReportError e) ->
  files w' = files w.
Proof.
  intros Hrun Hfailed Hnot. unfold ProcessAllImagesHistoryForKeywords in Hrun.
  assert (Hprint : forall l, framed sameFiles (print l))
    by (intros l; apply sameFiles_modifyWorld; reflexivity).
  assert (Hcall : forall call, framed sameFiles (recordCall call))
    by (intros call; apply sameFiles_modifyWorld; reflexivity).
  pose proof (framed_queryAllContainerImageRefsInCluster sameFiles Hprint
                (fun pods st => eq_refl) env (c, w)) as Hscan.
  unfold bind at 1 in Hrun.
  destruct (queryAllContainerImageRefsInCluster env (c, w)) as [[c1 w1] o1].
  unfold sameFiles in Hscan. simpl in Hscan.
  destruct o1 as [[]| | |]; try (injection Hrun as <- <- <-; exact Hscan).
  rewrite (bind_Ok _ _ (c1, w1) (c1, w1) c1) in Hrun by reflexivity. cbv zeta in Hrun.
  pose proof (framed_images_loop sameFiles Hprint Hcall (fun result st => eq_refl)
                fuel env rt (size (dockerImages c1))
                (map fst (rangeImages rt (dockerImages c1))) 1%nat (c1, w1)) as Hloop.
  unfold bind at 1 in Hrun.
  destruct (foldM _ _ _ (c1, w1)) as [[c2 w2] o2].
  unfold sameFiles in Hloop. simpl in Hloop.
  destruct o2 as [count| | |];
    try (injection Hrun as <- <- <-; rewrite Hloop; exact Hscan).
  exfalso.
  pose proof (endsWith_bind isReportError (outputOffendingImages env rt)
                (fun _ => outputNonECRImages env rt)
                (endsWith_outputOffendingImages env rt)
                (fun _ => endsWith_outputNonECRImages env rt) (c2, w2)) as Hend.
  rewrite Hrun in Hend. simpl in Hend.
  destruct o as [[]|e| |]; [congruence | apply (Hnot e eq_refl Hend) | exact Hend..].
Qed.

Lemma failed_run_writes_no_report_witness :
  snd (ProcessAllImagesHistoryForKeywords 5 noHistoryEnv sampleRuntime
         (sampleConfig, emptyWorld))
  = Err (ErrQueryingImageHistory "tomcat:9" "No such image")
  /\ files (snd (fst (ProcessAllImagesHistoryForKeywords 5 noHistoryEnv sampleRuntime
                        (sampleConfig, emptyWorld)))) = ∅.
Proof.
  assert (Ho : snd (ProcessAllImagesHistoryForKeywords 5 noHistoryEnv sampleRuntime
                      (sampleConfig, emptyWorld))
               = Err (ErrQueryingImageHistory "tomcat:9" "No such image"))
    by (vm_compute; reflexivity).
  destruct (ProcessAllImagesHistoryForKeywords 5 noHistoryEnv sampleRuntime
              (sampleConfig, emptyWorld)) as [[c' w'] o] eqn:Hrun.
  cbn [fst snd] in *. split; [exact Ho|].
  apply (failed_run_writes_no_report 5 noHistoryEnv sampleRuntime sampleConfig c'
           emptyWorld w' o Hrun).
  - rewrite Ho. discriminate.
  - rewrite Ho. intros e [= <-] (path & cause & [H|H]); discriminate.
Defined.

(** ** More on the report writers *)

Lemma WriteString_returns (env : Env) (path data : string) (st : Config * World) :
  exists st', WriteString env path data st = (st', Ok (file_WriteString env path data))
              /\ (file_WriteString env path data <> None -> st' = st).
Proof.
  unfold WriteString. destruct (file_WriteString env path data) as [cause|].
  - exists st. split; [reflexivity | reflexivity].
  - eexists. split; [reflexivity | congruence].
Qed.

Lemma writeGroups_returns (env : Env) (path : string) (groups : list string) :
  forall st, exists st',
    forEach groups (fun g => WriteString env path g ;; ret tt) st = (st', Ok tt)
    /\ ((forall g, In g groups -> file_WriteString env path g <> None) -> st' = st).
Proof.
  induction groups as [|g groups IH]; intros st; simpl.
  - exists st. split; reflexivity.
  - destruct (WriteString_returns env path g st) as (st1 & E1 & H1).
    destruct (IH st1) as (st2 & E2 & H2).
    exists st2. split.
    + rewrite (bind_Ok _ _ _ st1 tt); [exact E2|].
      rewrite (bind_Ok _ _ _ _ _ E1). reflexivity.
    + intros Hall. rewrite H2, H1; auto.
Qed.

(** X21: of the writes that make up one line of a report only the last, the
    line feed, is checked.  The line is reported as written exactly when the
    line feed could be written; when the image reference and all of its
    groups failed to be written and the line feed did not, the call still
    returns nil and the file has gained a bare line feed. *)
Theorem writeLine_checks_only_the_line_feed
    (env : Env) (path image : string) (groups : list string) (c : Config) (w : World) :
  snd (writeLine env path image groups (c, w))
  = match file_WriteString env path newline with
    | Some cause => Err (ErrWritingResults path cause)
    | None => Ok tt
    end
  /\ (file_WriteString env path (image +:+ tab) <> None ->
      (forall g, In g groups -> file_WriteString env path g <> None) ->
      file_WriteString env path newline = None ->
      exists w', writeLine env path image groups (c, w) = ((c, w'), Ok tt)
                 /\ files w' !! path = Some (fileContent w path +:+ newline)).
Proof.
  unfold writeLine.
  destruct (WriteString_returns env path (image +:+ tab) (c, w)) as (st1 & E1 & H1).
  destruct (writeGroups_returns env path groups st1) as (st2 & E2 & H2).
  destruct (WriteString_returns env path newline st2) as (st3 & E3 & H3).
  rewrite (bind_Ok _ _ _ _ _ E1), (bind_Ok _ _ _ _ _ E2), (bind_Ok _ _ _ _ _ E3).
  split.
  - destruct (file_WriteString env path newline); reflexivity.
  - intros Himage Hgroups Hfeed. rewrite H2, H1 in E3 by assumption.
    unfold WriteString in E3. rewrite Hfeed in E3 |- *.
    injection E3 as <-. eexists. split; [reflexivity|]. simpl. apply lookup_insert_eq.
Qed.

Lemma writeLine_checks_only_the_line_feed_witness :
  file_WriteString lineFeedsOnlyEnv "report.txt" ("tomcat:9" +:+ tab) <> None
  /\ file_WriteString lineFeedsOnlyEnv "report.txt" newline = None
  /\ exists w',
       writeLine lineFeedsOnlyEnv "report.txt" "tomcat:9"
         [formatPod {| podName := "web-1"; containerName := "web"; namespace := "prod" |}]
         (sampleConfig, emptyWorld) = ((sampleConfig, w'), Ok tt)
       /\ files w' !! "report.txt" = Some newline.
Proof.
  split; [discriminate|]. split; [reflexivity|].
  destruct (writeLine_checks_only_the_line_feed lineFeedsOnlyEnv "report.txt" "tomcat:9"
              [formatPod {| podName := "web-1"; containerName := "web"; namespace := "prod" |}]
              sampleConfig emptyWorld) as [_ Hlost].
  destruct Hlost as (w' & Hrun & Hfile); [discriminate | | reflexivity |].
  - intros g [<-|[]]. discriminate.
  - exists w'. split; [exact Hrun | exact Hfile].
Defined.

(** X22: a report that cannot be opened ends its writer with the opening
    error before anything is written or printed; for the match report this
    happens only when there is something to report. *)
Theorem reports_fail_when_not_opened (env : Env) (rt : Runtime) (c : Config) (w : World) :
  (forall cause,
      os_OpenFile env (nonECRImageResultsPath env c) = Some cause ->
      outputNonECRImages env rt (c, w)
      = ((c, w), Err (ErrOpeningFile (nonECRImageResultsPath env c) cause)))
  /\ (forall cause,
        os_OpenFile env (offendingImageResultsPath env c) = Some cause ->
        offendingDockerImages c <> [] ->
        outputOffendingImages env rt (c, w)
        = ((c, w), Err (ErrOpeningFile (offendingImageResultsPath env c) cause)))
  /\ (offendingDockerImages c = [] ->
      snd (outputOffendingImages env rt (c, w)) = Ok tt).
Proof.
  split; [|split].
  - intros cause Hopen. unfold outputNonECRImages.
    rewrite (bind_Ok _ _ (c, w) (c, w) c) by reflexivity. cbv zeta.
    unfold bind at 1, OpenFile. rewrite Hopen. reflexivity.
  - intros cause Hopen Hsome. unfold outputOffendingImages.
    rewrite (bind_Ok _ _ (c, w) (c, w) c) by reflexivity. cbv zeta.
    destruct (offendingDockerImages c) as [|i rest]; [congruence|]. simpl (0 <? _)%nat.
    cbv iota. unfold bind at 1, OpenFile. rewrite Hopen. reflexivity.
  - intros Hnone. rewrite (outputOffendingImages_nothing env rt c w Hnone). reflexivity.
Qed.

Lemma reports_fail_when_not_opened_witness :
  outputNonECRImages readOnlyEnv sampleRuntime (scannedConfig, emptyWorld)
  = ((scannedConfig, emptyWorld),
     Err (ErrOpeningFile "non-ecr-images-prod-cluster-31-Oct-2026-10:01.txt"
            "permission denied"))
  /\ snd (outputOffendingImages readOnlyEnv sampleRuntime (scannedConfig, emptyWorld)) = Ok tt.
Proof.
  destruct (reports_fail_when_not_opened readOnlyEnv sampleRuntime scannedConfig emptyWorld)
    as (Hnon & _ & Hnothing).
  split; [apply (Hnon "permission denied"); reflexivity | apply Hnothing; reflexivity].
Defined.

Lemma writeNonECR_all_private (env : Env) (path : string)
    (entries : list (string * list podDetails)) (st : Config * World) :
  (forall entry, In entry entries -> Contains (fst entry) "amazonaws.com" = true) ->
  forEach entries (fun '(image, details) =>
    if negb (Contains image "amazonaws.com")
    then writeLine env path image (map formatPod details)
    else ret tt) st = (st, Ok tt).
Proof.
  induction entries as [|[image details] entries IH]; intros Hall; simpl; [reflexivity|].
  pose proof (Hall (image, details) (or_introl eq_refl)) as Hprivate.
  cbn [fst] in Hprivate. rewrite Hprivate. simpl.
  rewrite (bind_Ok _ _ st st tt) by reflexivity.
  apply IH. intros entry Hin. apply Hall. right. exact Hin.
Qed.

Lemma outputNonECRImages_creates_the_file_regardless_helper
    (env : Env) (rt : Runtime) (c : Config) (w : World) :
  os_OpenFile env (nonECRImageResultsPath env c) = None ->
  (forall entry, In entry (rangeImages rt (dockerImages c)) ->
                 Contains (fst entry) "amazonaws.com" = true) ->
  exists w',
    outputNonECRImages env rt (c, w) = ((c, w'), Ok tt)
    /\ console w' = (console w ++ [LogNonECRWritten (nonECRImageResultsPath env c)])%list
    /\ dockerCalls w' = dockerCalls w
    /\ files w' !! nonECRImageResultsPath env c
       = Some (fileContent w (nonECRImageResultsPath env c))
    /\ forall q, q <> nonECRImageResultsPath env c -> files w' !! q = files w !! q.
Proof.
  intros Hopen Hall.
  destruct (OpenFile_appended env _ c w Hopen) as (w1 & E1 & Hfile & Hother & Hc & Hd).
  exists {| files := files w1;
            console := (console w1 ++ [LogNonECRWritten (nonECRImageResultsPath env c)])%list;
            dockerCalls := dockerCalls w1 |}.
  split; [|split; [|split; [|split]]].
  - unfold outputNonECRImages.
    rewrite (bind_Ok _ _ (c, w) (c, w) c) by reflexivity. cbv zeta.
    rewrite (bind_Ok _ _ _ _ _ E1).
    rewrite (bind_Ok _ _ _ _ _ (writeNonECR_all_private env _ _ (c, w1) Hall)).
    reflexivity.
  - simpl. rewrite Hc. reflexivity.
  - exact Hd.
  - simpl. rewrite Hfile, append_nil_r. reflexivity.
  - exact Hother.
Qed.

(** X23: unlike the match report, the report of the images outside ECR is
    opened whatever there is to list.  When every image reference contains
    "amazonaws.com" the file is still created --- empty, or kept with what it
    held --- nothing is written to it, and the call returns nil even on a disk
    that accepts no write. *)
Theorem outputNonECRImages_creates_the_file_regardless
    (env : Env) (rt : Runtime) (c : Config) (w : World) :
  os_OpenFile env (nonECRImageResultsPath env c) = None ->
  (forall entry, In entry (rangeImages rt (dockerImages c)) ->
                 Contains (fst entry) "amazonaws.com" = true) ->
  exists w',
    outputNonECRImages env rt (c, w) = ((c, w'), Ok tt)
    /\ files w' !! nonECRImageResultsPath env c
       = Some (fileContent w (nonECRImageResultsPath env c))
    /\ forall q, q <> nonECRImageResultsPath env c -> files w' !! q = files w !! q.
Proof.
  intros Hopen Hall.
  destruct (outputNonECRImages_creates_the_file_regardless_helper env rt c w Hopen Hall)
    as (w' & Hrun & _ & _ & Hfile & Hother).
  exists w'. auto.
Qed.

Lemma outputNonECRImages_creates_the_file_regardless_witness :
  exists w',
    outputNonECRImages lineFeedsOnlyEnv sampleRuntime
      (setDockerImages (recordPods ∅ twoPods) sampleConfig, emptyWorld)
    = ((setDockerImages (recordPods ∅ twoPods) sampleConfig, w'), Ok tt)
    /\ files w' !! "non-ecr-images-prod-cluster-31-Oct-2026-10:01.txt" = Some EmptyString.
Proof.
  destruct (outputNonECRImages_creates_the_file_regardless lineFeedsOnlyEnv sampleRuntime
              (setDockerImages (recordPods ∅ twoPods) sampleConfig) emptyWorld eq_refl)
    as (w' & Hrun & Hfile & _).
  - apply List.Forall_forall. vm_compute. repeat constructor.
  - exists w'. split; [exact Hrun|]. refine (eq_trans Hfile _). reflexivity.
Defined.

(** ** A cluster without containers *)

Lemma recordPods_without_containers (pods : list Pod) (images : gmap string (list podDetails)) :
  (forall pod, In pod pods -> Pod_Spec_Containers pod = []) ->
  recordPods images pods = images.
Proof.
  unfold recordPods. revert images.
  induction pods as [|pod pods IH]; intros images Hall; simpl; [reflexivity|].
  unfold recordPod at 2. rewrite (Hall pod (or_introl eq_refl)). simpl.
  apply IH. intros p Hp. apply Hall. right. exact Hp.
Qed.

Lemma setDockerImages_same (c : Config) : setDockerImages (dockerImages c) c = c.
Proof. destruct c. reflexivity. Qed.

(** X24: on a cluster without containers the pipeline has nothing to pull: for
    any amount of fuel it returns nil without a call to the daemon, prints the
    notice instead of a match report, and still creates the report of the
    images outside ECR, to which it writes nothing. *)
Theorem empty_cluster_run
    (fuel : nat) (env : Env) (rt : Runtime) (c : Config) (w : World) (pods : list Pod) :
  k8s_PodsList env = inr pods ->
  (forall pod, In pod pods -> Pod_Spec_Containers pod = []) ->
  dockerImages c = ∅ ->
  offendingDockerImages c = [] ->
  rangeImages rt ∅ ≡ₚ map_to_list (∅ : gmap string (list podDetails)) ->
  os_OpenFile env (nonECRImageResultsPath env c) = None ->
  exists w',
    ProcessAllImagesHistoryForKeywords fuel env rt (c, w) = ((c, w'), Ok tt)
    /\ dockerCalls w' = dockerCalls w
    /\ console w'
       = (console w ++ [LogPodsDiscovered (List.length pods); LogUniqueImageRefs 0;
                        PrintNothingToOutput;
                        LogNonECRWritten (nonECRImageResultsPath env c)])%list
    /\ files w' !! offendingImageResultsPath env c
       = files w !! offendingImageResultsPath env c
    /\ files w' !! nonECRImageResultsPath env c
       = Some (fileContent w (nonECRImageResultsPath env c)).
Proof.
  intros Hpods Hnone Himages Hoffending Hrange Hopen.
  rewrite map_to_list_empty in Hrange. apply Permutation_nil_r in Hrange.
  destruct (queryAllContainerImageRefsInCluster_returns env pods c w Hpods)
    as (w1 & E1 & Hf1 & Hd1).
  rewrite (recordPods_without_containers pods _ Hnone), setDockerImages_same in E1.
  assert (Hc1 : console w1
                = (console w ++ [LogPodsDiscovered (List.length pods);
                                 LogUniqueImageRefs 0])%list).
  { unfold queryAllContainerImageRefsInCluster in E1. rewrite Hpods in E1.
    unfold bind, print, modifyConfig, modifyWorld, getConfig in E1. simpl in E1.
    injection E1 as _ <-. simpl.
    rewrite (recordPods_without_containers pods _ Hnone), Himages, map_size_empty.
    rewrite <- app_assoc. reflexivity. }
  set (w2 := {| files := files w1;
                console := (console w1 ++ [PrintNothingToOutput])%list;
                dockerCalls := dockerCalls w1 |}).
  assert (Hall : forall entry, In entry (rangeImages rt (dockerImages c)) ->
                               Contains (fst entry) "amazonaws.com" = true).
  { rewrite Himages, Hrange. intros entry []. }
  destruct (outputNonECRImages_creates_the_file_regardless_helper env rt c w2 Hopen Hall)
    as (w3 & E3 & Hconsole3 & Hcalls3 & Hfile3 & Hother3).
  exists w3. split; [|split; [|split; [|split]]].
  - unfold ProcessAllImagesHistoryForKeywords.
    rewrite (bind_Ok _ _ _ _ _ E1).
    rewrite (bind_Ok _ _ (c, w1) (c, w1) c) by reflexivity. cbv zeta.
    rewrite Himages, Hrange. simpl map. cbn [foldM].
    rewrite (bind_Ok _ _ (c, w1) (c, w1) 1%nat) by reflexivity.
    rewrite (bind_Ok _ _ _ _ _ (outputOffendingImages_nothing env rt c w1 Hoffending)).
    exact E3.
  - rewrite Hcalls3. simpl. exact Hd1.
  - rewrite Hconsole3. simpl. rewrite Hc1, <- !app_assoc. reflexivity.
  - rewrite Hother3 by (apply report_paths_differ). simpl. rewrite Hf1. reflexivity.
  - rewrite Hfile3. unfold fileContent. simpl. rewrite Hf1. reflexivity.
Qed.

Lemma empty_cluster_run_witness :
  exists w',
    ProcessAllImagesHistoryForKeywords 0 emptyClusterEnv sampleRuntime (sampleConfig, emptyWorld)
    = ((sampleConfig, w'), Ok tt)
    /\ dockerCalls w' = []
    /\ files w' !! "offending-images-prod-cluster-31-Oct-2026-10:00.txt" = None
    /\ files w' !! "non-ecr-images-prod-cluster-31-Oct-2026-10:01.txt" = Some EmptyString.
Proof.
  destruct (empty_cluster_run 0 emptyClusterEnv sampleRuntime sampleConfig emptyWorld []
              eq_refl (fun pod (H : In pod []) => match H with end) eq_refl eq_refl
              (reflexivity _) eq_refl)
    as (w' & Hrun & Hcalls & _ & Hoff & Hnon).
  exists w'. split; [exact Hrun|]. split; [exact Hcalls|].
  split; [refine (eq_trans Hoff _) | refine (eq_trans Hnon _)]; reflexivity.
Defined.

(** ** The two [main] functions *)

(** X25: a failing [NewConfig] ends the two programs differently.  [main] of
    [cmd/main.go] tests the error first and exits with "loading config"; [main]
    of the root [main.go] evaluates [cfg.dockerClient] for its [defer]
    statement before the test and panics on the nil configuration, so that
    the error is never reported.  Either way no file has been written and
    nothing has been asked of the Docker daemon. *)
Theorem main_on_failing_NewConfig
    (fuel : nat) (env : Env) (rt : Runtime)
    (contextFlag profileFlag keywordsFlag regionsFlag : string) (w : World) :
  contextFlag <> EmptyString -> profileFlag <> EmptyString -> keywordsFlag <> EmptyString ->
  (forall flags e,
      Cmd.parseFlags contextFlag profileFlag keywordsFlag regionsFlag = inr flags ->
      NewConfig env rt (Split keywordsFlag ","%char) contextFlag profileFlag
        (Cmd.ecrRegions flags) = Err e ->
      main fuel env rt contextFlag profileFlag keywordsFlag regionsFlag w
      = (w, ExitFatalLoadingConfig e))
  /\ (forall e,
        NewConfig env rt (Split keywordsFlag ","%char) contextFlag profileFlag Root.ecrRegions
        = Err e ->
        Root.main fuel env rt contextFlag profileFlag keywordsFlag w
        = (w, ExitPanic NilDereference)).
Proof.
  intros Hc Hp Hk. split.
  - intros flags e Hflags Hnew. unfold main. rewrite Hflags.
    destruct (parseFlags_inr_inv _ _ _ _ _ Hflags) as (-> & _ & -> & _ & -> & _).
    rewrite Hnew. reflexivity.
  - intros e Hnew. unfold Root.main, Root.parseFlags.
    destruct keywordsFlag as [|k ks]; [congruence|]. cbn [String.length Nat.ltb Nat.leb].
    pose proof (Split_nonempty (String k ks) ",") as Hne.
    destruct (Split (String k ks) ",") as [|kw kws] eqn:Hsplit; [congruence|].
    destruct contextFlag; [congruence|]. destruct profileFlag; [congruence|].
    simpl. rewrite Hnew. reflexivity.
Qed.

Lemma main_on_failing_NewConfig_witness :
  main 5 deniedTokenEnv sampleRuntime "prod-cluster" "production" "jdk-14" "eu-west-1"
    emptyWorld
  = (emptyWorld, ExitFatalLoadingConfig (ErrGettingECRAuthToken "AccessDeniedException"))
  /\ Root.main 5 deniedTokenEnv sampleRuntime "prod-cluster" "production" "jdk-14" emptyWorld
     = (emptyWorld, ExitPanic NilDereference).
Proof.
  destruct (main_on_failing_NewConfig 5 deniedTokenEnv sampleRuntime "prod-cluster"
              "production" "jdk-14" "eu-west-1" emptyWorld) as [Hcmd Hroot];
    try discriminate.
  split.
  - eapply Hcmd; reflexivity.
  - eapply Hroot. reflexivity.
Defined.
